(** * Wanderland: the itinerary store, its form and the search history

    A shallow embedding of the JavaScript of the repository:

    - [js/pages/itinerarios.js] (the itinerary page: state, CRUD functions,
      the filtered projection, the form validation and its save handler),
    - [js/utils.js] ([getStorage], [setStorage]),
    - [js/main.js] in its two versions ([saveSearchToHistory]).

    JavaScript objects are finite maps from property names to values,
    arrays are lists, module state is threaded explicitly, and the
    built-ins the code calls ([trim], [toLowerCase], [includes], [<] on
    strings, [parseFloat], [Date], [toString(16)]) are written out as
    functions.  Strings are sequences of code units below 256, the Latin-1
    range, held in Rocq's [string]. *)

From stdpp Require Import gmap strings list fin_maps.
From Stdlib Require Import ZArith QArith Qround Lia.
From Stdlib Require Import Strings.String Strings.Ascii.
From Stdlib Require Import HexadecimalString HexadecimalN.

Local Open Scope string_scope.
Local Open Scope Z_scope.

(** ** JavaScript built-ins *)

Module Js.

(** *** Strings *)

(** [WhiteSpace] and [LineTerminator] code units below 256: TAB, LF, VT,
    FF, CR, SP and NBSP. *)
Definition isWhiteSpace (c : ascii) : bool :=
  let n := nat_of_ascii c in
  (Nat.leb 9 n && Nat.leb n 13) || Nat.eqb n 32 || Nat.eqb n 160.

Fixpoint trimStart (s : string) : string :=
  match s with
  | EmptyString => EmptyString
  | String c s' => if isWhiteSpace c then trimStart s' else s
  end.

Fixpoint trimEnd (s : string) : string :=
  match s with
  | EmptyString => EmptyString
  | String c s' =>
      match trimEnd s' with
      | EmptyString => if isWhiteSpace c then EmptyString else String c EmptyString
      | t => String c t
      end
  end.

(** [String.prototype.trim] *)
Definition trim (s : string) : string := trimEnd (trimStart s).

(** Lower-casing of one code unit: A-Z, and the Latin-1 capitals
    U+00C0-U+00DE without the multiplication sign U+00D7. *)
Definition lowerChar (c : ascii) : ascii :=
  let n := nat_of_ascii c in
  if (Nat.leb 65 n && Nat.leb n 90)
     || (Nat.leb 192 n && Nat.leb n 222 && negb (Nat.eqb n 215))
  then ascii_of_nat (n + 32) else c.

(** [String.prototype.toLowerCase] *)
Fixpoint toLowerCase (s : string) : string :=
  match s with
  | EmptyString => EmptyString
  | String c s' => String (lowerChar c) (toLowerCase s')
  end.

(** [s.startsWith(q)] *)
Fixpoint startsWith (s q : string) {struct q} : bool :=
  match q, s with
  | EmptyString, _ => true
  | String _ _, EmptyString => false
  | String b q', String a s' => Ascii.eqb a b && startsWith s' q'
  end.

(** [s.includes(q)]: [q] occurs in [s] at some position. *)
Fixpoint includes (s q : string) : bool :=
  startsWith s q ||
  match s with
  | EmptyString => false
  | String _ s' => includes s' q
  end.

(** [a < b] on two strings: lexicographic on code units, a proper prefix
    is smaller. *)
Definition lt (a b : string) : bool := String.ltb a b.

(** [ToBoolean] of a string: every string but the empty one is truthy. *)
Definition truthy_string (s : string) : bool :=
  match s with EmptyString => false | _ => true end.


(** *** Numbers

    A Number is kept as the decimal it was written as: [Dec neg m e] is
    [(-1)^neg * m * 10^e].  The rounding to binary64 is not carried out;
    the places where it decides what the code does are written out: the
    test for zero in [toBoolean], and the overflow to an infinity in
    [overflows]. *)
Inductive number : Type :=
| NaN
| Infinity (neg : bool)
| Dec (neg : bool) (m : N) (e : Z).

(** [ToBoolean] of a Number: NaN, +0 and -0 are falsy.  A decimal rounds
    to zero in binary64 exactly when it is at most [2^-1075], half of the
    least subnormal (the tie goes to the even neighbour, zero). *)
Definition toBoolean (n : number) : bool :=
  match n with
  | NaN => false
  | Infinity _ => true
  | Dec _ m e =>
      if 0 <=? e then negb (N.eqb m 0)
      else 10 ^ (- e) <? Z.of_N m * 2 ^ 1075
  end.

(** [a || b] on Numbers *)
Definition or_else (a b : number) : number := if toBoolean a then a else b.

(** The Number is an infinity: a decimal rounds to one in binary64
    exactly when it is at least [2^1024 - 2^970], halfway between the
    largest finite number and [2^1024] (the tie goes to the even
    neighbour, the infinity). *)
Definition overflows (n : number) : bool :=
  match n with
  | NaN => false
  | Infinity _ => true
  | Dec _ m e =>
      if 0 <=? e then 2 ^ 1024 - 2 ^ 970 <=? Z.of_N m * 10 ^ e
      else (2 ^ 1024 - 2 ^ 970) * 10 ^ (- e) <=? Z.of_N m
  end.

Definition isDigit (c : ascii) : bool :=
  let n := nat_of_ascii c in Nat.leb 48 n && Nat.leb n 57.

Definition digitVal (c : ascii) : N := N.of_nat (nat_of_ascii c - 48).

(** The longest run of decimal digits at the front of [s]: the digits
    appended to [acc], how many there were, and what follows them. *)
Fixpoint readDigits (s : string) (acc : N) (cnt : nat) : N * nat * string :=
  match s with
  | EmptyString => (acc, cnt, s)
  | String c s' =>
      if isDigit c then readDigits s' (10 * acc + digitVal c)%N (S cnt)
      else (acc, cnt, s)
  end.

Definition readSign (s : string) : bool * string :=
  match s with
  | String c s' =>
      if Ascii.eqb c "-" then (true, s')
      else if Ascii.eqb c "+" then (false, s')
      else (false, s)
  | EmptyString => (false, s)
  end.

(** An [ExponentPart] at the front of [s], 0 when there is none (an [e]
    without digits after it is not part of the number). *)
Definition readExponent (s : string) : Z :=
  match s with
  | String c s' =>
      if Ascii.eqb c "e" || Ascii.eqb c "E" then
        let '(neg, s'') := readSign s' in
        let '(v, n, _) := readDigits s'' 0%N 0%nat in
        if Nat.eqb n 0 then 0 else if neg then - Z.of_N v else Z.of_N v
      else 0
  | EmptyString => 0
  end.

(** [parseFloat]: leading white space is skipped, then the longest prefix
    that is a [StrDecimalLiteral] is read; NaN when there is none. *)
Definition parseFloat (input : string) : number :=
  let s := trimStart input in
  let '(neg, s1) := readSign s in
  if startsWith s1 "Infinity" then Infinity neg
  else
    let '(ip, ni, s2) := readDigits s1 0%N 0%nat in
    let '(m, nf, s3) :=
      match s2 with
      | String c s2' =>
          if Ascii.eqb c "." then readDigits s2' ip 0%nat else (ip, 0%nat, s2)
      | EmptyString => (ip, 0%nat, s2)
      end in
    if Nat.eqb (ni + nf) 0 then NaN
    else Dec neg m (readExponent s3 - Z.of_nat nf).

(** *** Values and objects *)

Inductive value : Type :=
| VUndefined
| VNull
| VBool (b : bool)
| VNum (n : number)
| VStr (s : string).

(** An object with scalar properties. *)
Abbreviation object := (gmap string value).

(** [o.k]: a missing property reads as [undefined]. *)
Definition get (o : object) (k : string) : value := default VUndefined (o !! k).

(** [v === s] for a string [s]. *)
Definition strict_eq_str (v : value) (s : string) : bool :=
  match v with
  | VStr t => String.eqb t s
  | _ => false
  end.

(** [{...a, ...b}]: the properties of [b] win. *)
Definition spread (a b : object) : object := b ∪ a.

(** *** JSON

    [JSON.parse(JSON.stringify(v))] for what a record holds.  A Number
    that is NaN or an infinity is written as [null], and a zero of
    either sign as [0]; every other Number comes back as the same
    Number.  A property whose value is [undefined] is not written.
    Strings, booleans and [null] come back as they are. *)
Definition json_number (n : number) : value :=
  match n with
  | NaN | Infinity _ => VNull
  | Dec neg m e =>
      if overflows n then VNull
      else if toBoolean n then VNum n
      else VNum (Dec false m e)
  end.

Definition json_value (v : value) : option value :=
  match v with
  | VUndefined => None
  | VNum n => Some (json_number n)
  | VNull | VBool _ | VStr _ => Some v
  end.

Definition json_object (o : object) : object := omap json_value o.

(** *** Errors: a computation returns or throws. *)
Inductive result (A : Type) : Type :=
| Ok (a : A)
| Throw (msg : string).
Arguments Ok {A} a.
Arguments Throw {A} msg.

Definition bind {A B : Type} (r : result A) (k : A -> result B) : result B :=
  match r with
  | Ok a => k a
  | Throw msg => Throw msg
  end.

(** [try { body } catch (error) { handler }] *)
Definition try_catch {A : Type} (body : result A) (handler : string -> A) : A :=
  match body with
  | Ok a => a
  | Throw msg => handler msg
  end.

(** [v.toLowerCase()]: a [TypeError] unless [v] is a string. *)
Definition call_toLowerCase (v : value) : result string :=
  match v with
  | VStr s => Ok (toLowerCase s)
  | VUndefined | VNull => Throw "TypeError: Cannot read properties"
  | _ => Throw "TypeError: toLowerCase is not a function"
  end.

(** [array.filter(p)] with a callback that may throw. *)
Fixpoint filterM {A : Type} (p : A -> result bool) (l : list A) : result (list A) :=
  match l with
  | [] => Ok []
  | x :: l' =>
      bind (p x) (fun b =>
      bind (filterM p l') (fun r =>
      Ok (if b then x :: r else r)))
  end.

(** *** Dates

    Time values are integers (milliseconds since the epoch, UTC); they
    are far below [2^53], so the arithmetic on them is exact. *)

Definition msPerDay : Z := 86400000.

Definition isLeapYear (y : Z) : bool :=
  (y mod 4 =? 0) && (negb (y mod 100 =? 0) || (y mod 400 =? 0)).

Definition DayFromYear (y : Z) : Z :=
  365 * (y - 1970) + (y - 1969) / 4 - (y - 1901) / 100 + (y - 1601) / 400.

Definition DaysInMonth (y m : Z) : Z :=
  if m =? 2 then (if isLeapYear y then 29 else 28)
  else if (m =? 4) || (m =? 6) || (m =? 9) || (m =? 11) then 30
  else 31.

(** Days of the year [y] before the first of month [m], for [1 <= m <= 12]. *)
Definition daysBeforeMonth (y m : Z) : Z :=
  fold_right Z.add 0 (map (DaysInMonth y) (map Z.of_nat (seq 1 (Z.to_nat (m - 1))))).

(** [MakeDay]: the day number of the date [y]-[m]-[d]. *)
Definition MakeDay (y m d : Z) : Z := DayFromYear y + daysBeforeMonth y m + d - 1.

Definition digitZ (c : ascii) : option Z :=
  if isDigit c then Some (Z.of_N (digitVal c)) else None.

Definition digits2 (a b : ascii) : option Z :=
  match digitZ a, digitZ b with
  | Some x, Some y => Some (10 * x + y)
  | _, _ => None
  end.

Definition digits4 (a b c d : ascii) : option Z :=
  match digits2 a b, digits2 c d with
  | Some x, Some y => Some (100 * x + y)
  | _, _ => None
  end.

(** The fields of a date-only string [YYYY-MM-DD], when [s] has that
    shape and names a day of the calendar. *)
Definition parseISODate (s : string) : option (Z * Z * Z) :=
  match list_ascii_of_string s with
  | [y1; y2; y3; y4; h1; m1; m2; h2; d1; d2] =>
      match digits4 y1 y2 y3 y4, digits2 m1 m2, digits2 d1 d2 with
      | Some y, Some m, Some d =>
          if Ascii.eqb h1 "-" && Ascii.eqb h2 "-"
             && (1 <=? m) && (m <=? 12) && (1 <=? d) && (d <=? DaysInMonth y m)
          then Some (y, m, d) else None
      | _, _, _ => None
      end
  | _ => None
  end.

(** [new Date(s).getTime()], [None] for NaN (an invalid date).  Only the
    date-only form [YYYY-MM-DD] of the Date Time String Format is
    modelled; it denotes UTC midnight of that day.  The other forms of
    the format and the fallback formats of the engines are not modelled
    and read as NaN here. *)
Definition Date_parse (s : string) : option Z :=
  match parseISODate s with
  | Some (y, m, d) => Some (MakeDay y m d * msPerDay)
  | None => None
  end.

(** The date of day number [z] (proleptic Gregorian calendar). *)
Definition civilFromDay (z : Z) : Z * Z * Z :=
  let z := z + 719468 in
  let era := z / 146097 in
  let doe := z - era * 146097 in
  let yoe := (doe - doe / 1460 + doe / 36524 - doe / 146096) / 365 in
  let doy := doe - (365 * yoe + yoe / 4 - yoe / 100) in
  let mp := (5 * doy + 2) / 153 in
  let d := doy - (153 * mp + 2) / 5 + 1 in
  let m := if mp <? 10 then mp + 3 else mp - 9 in
  ((yoe + era * 400) + (if m <=? 2 then 1 else 0), m, d).

Definition digitChar (n : Z) : ascii := ascii_of_nat (48 + Z.to_nat (n mod 10)).

(** [n] in decimal, padded with zeros to [width] digits. *)
Fixpoint padded (width : nat) (n : Z) : string :=
  match width with
  | O => EmptyString
  | S w => padded w (n / 10) ++ String (digitChar n) EmptyString
  end.

(** [new Date(t).toISOString()] for a time value [t]: years 0 to 9999
    with four digits, the others signed with six. *)
Definition toISOString (t : Z) : string :=
  let '(y, m, d) := civilFromDay (t / msPerDay) in
  let r := t mod msPerDay in
  let year :=
    if (0 <=? y) && (y <=? 9999) then padded 4 y
    else if y <? 0 then "-" ++ padded 6 (- y) else "+" ++ padded 6 y in
  year ++ "-" ++ padded 2 m ++ "-" ++ padded 2 d ++ "T"
       ++ padded 2 (r / 3600000) ++ ":" ++ padded 2 (r / 60000 mod 60) ++ ":"
       ++ padded 2 (r / 1000 mod 60) ++ "." ++ padded 3 (r mod 1000) ++ "Z".

(** [n.toString(16)] for an integer [n]. *)
Definition toString16 (n : Z) : string :=
  if n <? 0 then "-" ++ NilZero.string_of_uint (N.to_hex_uint (Z.to_N (- n)))
  else NilZero.string_of_uint (N.to_hex_uint (Z.to_N n)).

End Js.


(** ** js/utils.js: the storage helpers *)

Module Utils.

Section Storage.
(** What the page keeps under its key: [A] is the type of the values
    it stores there. *)
Context {A : Type}.

(** A stored text, by what [JSON.parse] makes of it.  [Json a] is a text
    that parses to [a].  Texts that parse to a value of another type
    than [A] have no constructor. *)
Inductive text : Type :=
| EmptyText                (* the empty string *)
| Malformed (raw : string) (* a non-empty text that [JSON.parse] rejects *)
| Json (a : A).            (* a text that parses to [a] *)

(** The browser's [localStorage]: the stored items, and the two ways
    it can refuse: every access throws (storage disabled), or writes
    throw (quota exceeded). *)
Record localStorage : Type := {
  items : gmap string text;
  blocked : bool;
  full : bool;
}.

Definition getItem (ls : localStorage) (key : string) : Js.result (option text) :=
  if blocked ls then Js.Throw "SecurityError" else Js.Ok (items ls !! key).

Definition setItem (ls : localStorage) (key : string) (t : text)
  : Js.result localStorage :=
  if blocked ls then Js.Throw "SecurityError"
  else if full ls then Js.Throw "QuotaExceededError"
  else Js.Ok {| items := <[key := t]> (items ls);
                blocked := blocked ls; full := full ls |}.

Definition JSON_parse (t : text) : Js.result A :=
  match t with
  | Json a => Js.Ok a
  | EmptyText | Malformed _ => Js.Throw "SyntaxError"
  end.

(** [JSON.stringify(a)], as the text [setItem] then stores.  What is
    written depends on the type of the value, and need not parse back to
    the value, so every type of stored values comes with its own
    [JSON.stringify] (for the arrays of records of the pages, below).
    It throws on a value it cannot write (a cycle); for [undefined] it
    gives [undefined], which is stored as a word that does not parse. *)
Class Stringify : Type := JSON_stringify : A -> Js.result text.
Context `{Stringify}.

(** [ToBoolean] of what [getItem] returned: [null] and the empty string
    are falsy. *)
Definition truthy_item (item : option text) : bool :=
  match item with
  | None | Some EmptyText => false
  | Some _ => true
  end.

(** [setStorage(key, value)]: the success flag and the storage after. *)
Definition setStorage (ls : localStorage) (key : string) (value : A)
  : bool * localStorage :=
  Js.try_catch
    (Js.bind (JSON_stringify value) (fun serialized =>
     Js.bind (setItem ls key serialized) (fun ls' => Js.Ok (true, ls'))))
    (fun error => (false, ls)).

(** [getStorage(key, defaultValue)] *)
Definition getStorage (ls : localStorage) (key : string) (defaultValue : A) : A :=
  Js.try_catch
    (Js.bind (getItem ls key) (fun item =>
     match item with
     | Some t => if truthy_item item then JSON_parse t else Js.Ok defaultValue
     | None => Js.Ok defaultValue
     end))
    (fun error => defaultValue).

End Storage.

Arguments text : clear implicits.
Arguments localStorage : clear implicits.
Arguments Stringify : clear implicits.

(** [JSON.stringify] of an array of records: the records hold strings,
    Numbers, booleans, [null] and [undefined], so there is no cycle and
    nothing is thrown; every record is written, each as [json_object]
    reads it back. *)
#[global] Instance stringify_records : Stringify (list Js.object) :=
  fun array => Js.Ok (Json (List.map Js.json_object array)).

End Utils.

(** ** js/pages/itinerarios.js *)

Module Itinerarios.
Import Js.

(** [CONFIG.STORAGE_KEYS.SAVED_ITINERARIES] *)
Definition STORAGE_KEY : string := "wanderlust_itineraries".

(** *** State *)

(** The module's [state] object; [null] is [None]. *)
Record State : Type := {
  itinerarios : list object;
  filtroActual : string;
  busqueda : string;
  editandoId : option string;
  eliminandoId : option string;
}.

(** The [value] of the seven inputs of the form. *)
Record Inputs : Type := {
  input_nombre : string;
  input_destino : string;
  input_fecha_inicio : string;
  input_fecha_fin : string;
  input_estado : string;
  input_budget : string;
  input_notas : string;
}.

(** Whether each form group carries the class [has-error]. *)
Record Errors : Type := {
  fg_nombre : bool;
  fg_destino : bool;
  fg_fecha_inicio : bool;
  fg_fecha_fin : bool;
}.

(** Everything the functions of the page read or write. *)
Record World : Type := {
  state : State;
  inputs : Inputs;
  errors : Errors;
  localStorage : Utils.localStorage (list object);
}.

Definition state0 : State :=
  {| itinerarios := []; filtroActual := "todos"; busqueda := "";
     editandoId := None; eliminandoId := None |}.

Definition set_state (f : State -> State) (w : World) : World :=
  {| state := f (state w); inputs := inputs w; errors := errors w;
     localStorage := localStorage w |}.

Definition set_itinerarios (l : list object) : World -> World :=
  set_state (fun s =>
    {| itinerarios := l; filtroActual := filtroActual s; busqueda := busqueda s;
       editandoId := editandoId s; eliminandoId := eliminandoId s |}).

Definition set_filtroActual (f : string) : World -> World :=
  set_state (fun s =>
    {| itinerarios := itinerarios s; filtroActual := f; busqueda := busqueda s;
       editandoId := editandoId s; eliminandoId := eliminandoId s |}).

Definition set_busqueda (q : string) : World -> World :=
  set_state (fun s =>
    {| itinerarios := itinerarios s; filtroActual := filtroActual s; busqueda := q;
       editandoId := editandoId s; eliminandoId := eliminandoId s |}).

Definition set_editandoId (i : option string) : World -> World :=
  set_state (fun s =>
    {| itinerarios := itinerarios s; filtroActual := filtroActual s;
       busqueda := busqueda s; editandoId := i; eliminandoId := eliminandoId s |}).

Definition set_eliminandoId (i : option string) : World -> World :=
  set_state (fun s =>
    {| itinerarios := itinerarios s; filtroActual := filtroActual s;
       busqueda := busqueda s; editandoId := editandoId s; eliminandoId := i |}).

Definition set_inputs (i : Inputs) (w : World) : World :=
  {| state := state w; inputs := i; errors := errors w;
     localStorage := localStorage w |}.

Definition set_errors (e : Errors) (w : World) : World :=
  {| state := state w; inputs := inputs w; errors := e;
     localStorage := localStorage w |}.

Definition set_localStorage (ls : Utils.localStorage (list object)) (w : World) : World :=
  {| state := state w; inputs := inputs w; errors := errors w;
     localStorage := ls |}.

(** [ToBoolean] of [state.editandoId] and [state.eliminandoId]. *)
Definition truthy_id (i : option string) : bool :=
  match i with
  | Some s => truthy_string s
  | None => false
  end.

(** *** Helpers *)

(** [calcularDias(fechaInicio, fechaFin)]; [None] is NaN.  The quotient
    [diff / (1000 * 60 * 60 * 24)] is taken as the exact rational. *)
Definition calcularDias (fechaInicio fechaFin : string) : option Z :=
  match Date_parse fechaInicio, Date_parse fechaFin with
  | Some inicio, Some fin =>
      let diff := fin - inicio in
      Some (Z.max 1 (Qceiling (diff # 86400000) + 1))
  | _, _ => None
  end.

(** *** CRUD *)

Definition cargarItinerarios (w : World) : World :=
  set_itinerarios (Utils.getStorage (localStorage w) STORAGE_KEY []) w.

Definition guardarItinerarios (w : World) : World :=
  let '(_, ls) := Utils.setStorage (localStorage w) STORAGE_KEY (itinerarios (state w)) in
  set_localStorage ls w.

(** [crearItinerario(datos)]; [t_id] is what [Date.now()] returns and
    [t_creado] the time of the [new Date()] after it. *)
Definition crearItinerario (datos : object) (t_id t_creado : Z) (w : World)
  : object * World :=
  let nuevo : object :=
    <["creadoEn" := VStr (toISOString t_creado)]>
      (spread {["id" := VStr ("it_" ++ toString16 t_id)]} datos) in
  let w := set_itinerarios (nuevo :: itinerarios (state w)) w in
  let w := guardarItinerarios w in
  (nuevo, w).

(** [array.findIndex(p)]; [None] is [-1]. *)
Fixpoint findIndex {A : Type} (p : A -> bool) (l : list A) : option nat :=
  match l with
  | [] => None
  | x :: l' => if p x then Some O else S <$> findIndex p l'
  end.

(** [editarItinerario(id, datos)]; [t] is the time of the [new Date()]. *)
Definition editarItinerario (id : string) (datos : object) (t : Z) (w : World)
  : bool * World :=
  match findIndex (fun it => strict_eq_str (get it "id") id) (itinerarios (state w)) with
  | None => (false, w)
  | Some index =>
      match itinerarios (state w) !! index with
      | None => (false, w)
      | Some actual =>
          let editado : object :=
            <["actualizadoEn" := VStr (toISOString t)]> (spread actual datos) in
          let w := set_itinerarios (<[index := editado]> (itinerarios (state w))) w in
          let w := guardarItinerarios w in
          (true, w)
      end
  end.

Definition eliminarItinerario (id : string) (w : World) : World :=
  let w :=
    set_itinerarios
      (List.filter (fun it => negb (strict_eq_str (get it "id") id))
                   (itinerarios (state w))) w in
  guardarItinerarios w.

(** *** The projection *)

(** [getItinerariosFiltrados()]: the list it returns, or the error the
    search callback throws on a record whose [destino] or [nombre] is
    not a string; and the world after the call. *)
Definition getItinerariosFiltrados (w : World) : result (list object) * World :=
  let lista := itinerarios (state w) in
  let lista :=
    if negb (String.eqb (filtroActual (state w)) "todos")
    then List.filter (fun it => strict_eq_str (get it "estado") (filtroActual (state w))) lista
    else lista in
  let lista :=
    if truthy_string (trim (busqueda (state w))) then
      let q := toLowerCase (busqueda (state w)) in
      filterM (fun it =>
        bind (call_toLowerCase (get it "destino")) (fun d =>
        if includes d q then Ok true
        else bind (call_toLowerCase (get it "nombre")) (fun n =>
             Ok (includes n q)))) lista
    else Ok lista in
  (lista, w).

(** *** The form *)

Definition limpiarErroresForm (w : World) : World :=
  set_errors {| fg_nombre := false; fg_destino := false;
                fg_fecha_inicio := false; fg_fecha_fin := false |} w.

Definition limpiarForm (w : World) : World :=
  let w := set_inputs {| input_nombre := ""; input_destino := "";
                         input_fecha_inicio := ""; input_fecha_fin := "";
                         input_estado := "planificando";
                         input_budget := ""; input_notas := "" |} w in
  limpiarErroresForm w.

Definition add_error_nombre (w : World) : World :=
  set_errors {| fg_nombre := true; fg_destino := fg_destino (errors w);
                fg_fecha_inicio := fg_fecha_inicio (errors w);
                fg_fecha_fin := fg_fecha_fin (errors w) |} w.

Definition add_error_destino (w : World) : World :=
  set_errors {| fg_nombre := fg_nombre (errors w); fg_destino := true;
                fg_fecha_inicio := fg_fecha_inicio (errors w);
                fg_fecha_fin := fg_fecha_fin (errors w) |} w.

Definition add_error_fecha_inicio (w : World) : World :=
  set_errors {| fg_nombre := fg_nombre (errors w); fg_destino := fg_destino (errors w);
                fg_fecha_inicio := true;
                fg_fecha_fin := fg_fecha_fin (errors w) |} w.

Definition add_error_fecha_fin (w : World) : World :=
  set_errors {| fg_nombre := fg_nombre (errors w); fg_destino := fg_destino (errors w);
                fg_fecha_inicio := fg_fecha_inicio (errors w);
                fg_fecha_fin := true |} w.

(** [validarForm()]: the verdict, and the world with the error classes
    it left on the form groups. *)
Definition validarForm (w : World) : bool * World :=
  let valido := true in
  let w := limpiarErroresForm w in
  let nombre := trim (input_nombre (inputs w)) in
  let destino := trim (input_destino (inputs w)) in
  let fechaInicio := input_fecha_inicio (inputs w) in
  let fechaFin := input_fecha_fin (inputs w) in
  let '(valido, w) :=
    if negb (truthy_string nombre) then (false, add_error_nombre w) else (valido, w) in
  let '(valido, w) :=
    if negb (truthy_string destino) then (false, add_error_destino w) else (valido, w) in
  let '(valido, w) :=
    if negb (truthy_string fechaInicio) then (false, add_error_fecha_inicio w)
    else (valido, w) in
  let '(valido, w) :=
    if negb (truthy_string fechaFin)
       || (truthy_string fechaInicio && lt fechaFin fechaInicio)
    then (false, add_error_fecha_fin w) else (valido, w) in
  (valido, w).

(** The [datos] object [handleGuardar] builds from the inputs. *)
Definition leerDatos (i : Inputs) : object :=
  <["nombre" := VStr (trim (input_nombre i))]>
  (<["destino" := VStr (trim (input_destino i))]>
  (<["fechaInicio" := VStr (input_fecha_inicio i)]>
  (<["fechaFin" := VStr (input_fecha_fin i)]>
  (<["estado" := VStr (input_estado i)]>
  (<["budget" := VNum (or_else (parseFloat (input_budget i)) (Dec false 1500 0))]>
  (<["notas" := VStr (trim (input_notas i))]> ∅)))))).

(** [handleGuardar()]; [t] and [t'] are the clock readings of the calls
    it makes ([t'] is read by the creation only). *)
Definition handleGuardar (t t' : Z) (w : World) : World :=
  let '(valido, w) := validarForm w in
  if negb valido then w
  else
    let datos := leerDatos (inputs w) in
    match editandoId (state w) with
    | Some id =>
        if truthy_string id then snd (editarItinerario id datos t w)
        else snd (crearItinerario datos t t' w)
    | None => snd (crearItinerario datos t t' w)
    end.

Definition abrirFormNuevo (w : World) : World :=
  let w := set_editandoId None w in
  limpiarForm w.

(** [array.find(p)] *)
Definition find {A : Type} (p : A -> bool) (l : list A) : option A := List.find p l.

(** [abrirFormEditar(id)].  The seven inputs are assigned properties of
    the record; [shown] is what they hold afterwards (the conversion of
    the assigned values to text is the browser's). *)
Definition abrirFormEditar (id : string) (shown : Inputs) (w : World) : World :=
  match find (fun it => strict_eq_str (get it "id") id) (itinerarios (state w)) with
  | None => w
  | Some it =>
      let w := set_editandoId (Some id) w in
      let w := set_inputs shown w in
      limpiarErroresForm w
  end.

Definition abrirConfirmEliminar (id : string) (w : World) : World :=
  match find (fun it => strict_eq_str (get it "id") id) (itinerarios (state w)) with
  | None => w
  | Some it => set_eliminandoId (Some id) w
  end.

Definition handleEliminar (w : World) : World :=
  match eliminandoId (state w) with
  | Some id =>
      if truthy_string id then
        let w := eliminarItinerario id w in
        set_eliminandoId None w
      else w
  | None => w
  end.

(** [init()] on a freshly loaded page: the module state is [state0], the
    form is as the document has it, the storage is the browser's. *)
Definition init (i : Inputs) (e : Errors) (ls : Utils.localStorage (list object))
  : World :=
  cargarItinerarios
    {| state := state0; inputs := i; errors := e; localStorage := ls |}.

(** *** The page as a transition system *)

(** What can happen to a loaded page: the listeners registered by
    [initFilters], [initModals] and [renderCards], the user typing into
    the form, a reload, and the browser changing whether the storage
    refuses accesses or writes. *)
Inductive event : Type :=
| ClickFiltro (filtro : string)
| InputBusqueda (q : string)
| ClickNuevo
| ClickEditar (id : string) (shown : Inputs)
| ClickEliminar (id : string)
| InputForm (i : Inputs)
| ClickGuardar (t t' : Z)
| ClickConfirmEliminar
| Reload (i : Inputs) (e : Errors)
| StorageMood (blocked full : bool).

Definition step (w : World) (ev : event) : World :=
  match ev with
  | ClickFiltro f => set_filtroActual f w
  | InputBusqueda q => set_busqueda q w
  | ClickNuevo => abrirFormNuevo w
  | ClickEditar id shown => abrirFormEditar id shown w
  | ClickEliminar id => abrirConfirmEliminar id w
  | InputForm i => set_inputs i w
  | ClickGuardar t t' => handleGuardar t t' w
  | ClickConfirmEliminar => handleEliminar w
  | Reload i e => init i e (localStorage w)
  | StorageMood b f =>
      set_localStorage {| Utils.items := Utils.items (localStorage w);
                          Utils.blocked := b; Utils.full := f |} w
  end.

Definition run (w : World) (evs : list event) : World := fold_left step evs w.

(** A browser that never held anything under the key. *)
Definition fresh_storage (blocked full : bool) : Utils.localStorage (list object) :=
  {| Utils.items := ∅; Utils.blocked := blocked; Utils.full := full |}.

End Itinerarios.

(** ** js/main.js: the search history *)

Module Main.
Import Js.

(** [CONFIG.STORAGE_KEYS.SEARCH_HISTORY] and [CONFIG.HISTORY.MAX_ITEMS] *)
Definition SEARCH_HISTORY : string := "wanderlust_search_history".
Definition MAX_ITEMS : nat := 10.

Record AppState : Type := {
  searchHistory : list object;
  isSearching : bool;
  currentQuery : string;
}.

Record World : Type := {
  appState : AppState;
  localStorage : Utils.localStorage (list object);
}.

Definition appState0 : AppState :=
  {| searchHistory := []; isSearching := false; currentQuery := "" |}.

(** The entry [{ query: normalizedQuery, timestamp: new Date().toISOString() }] *)
Definition entry (normalizedQuery : string) (t : Z) : object :=
  <["query" := VStr normalizedQuery]> (<["timestamp" := VStr (toISOString t)]> ∅).

(** [saveSearchToHistory(query)]; [t] is the time of the [new Date()]. *)
Definition saveSearchToHistory (query : string) (t : Z) (w : World) : World :=
  let normalizedQuery := toLowerCase (trim query) in
  let searchHistory := Utils.getStorage (localStorage w) SEARCH_HISTORY [] in
  let searchHistory :=
    List.filter (fun item => negb (strict_eq_str (get item "query") normalizedQuery))
                searchHistory in
  let searchHistory := entry normalizedQuery t :: searchHistory in
  let searchHistory := take MAX_ITEMS searchHistory in
  let '(_, ls) := Utils.setStorage (localStorage w) SEARCH_HISTORY searchHistory in
  {| appState := {| searchHistory := searchHistory;
                    isSearching := isSearching (appState w);
                    currentQuery := currentQuery (appState w) |};
     localStorage := ls |}.

(** The page over time: calls of [saveSearchToHistory], and the browser
    changing whether the storage refuses. *)
Inductive event : Type :=
| Save (query : string) (t : Z)
| StorageMood (blocked full : bool).

Definition step (w : World) (ev : event) : World :=
  match ev with
  | Save query t => saveSearchToHistory query t w
  | StorageMood b f =>
      {| appState := appState w;
         localStorage := {| Utils.items := Utils.items (localStorage w);
                            Utils.blocked := b; Utils.full := f |} |}
  end.

Definition run (w : World) (evs : list event) : World := fold_left step evs w.

(** What is persisted under the history key, when it is an array. *)
Definition persisted (w : World) : option (list object) :=
  match Utils.items (localStorage w) !! SEARCH_HISTORY with
  | Some (Utils.Json h) => Some h
  | _ => None
  end.

Definition fresh (blocked full : bool) : World :=
  {| appState := appState0;
     localStorage := {| Utils.items := ∅; Utils.blocked := blocked; Utils.full := full |} |}.

End Main.

(** ** The earlier main.js, which calls [localStorage] itself *)

Module MainInline.
Import Js.

Definition KEY : string := "searchHistory".

Record AppState : Type := {
  searchHistory : list object;
  recentSearches : list object;
}.

Record World : Type := {
  appState : AppState;
  localStorage : Utils.localStorage (list object);
}.

Definition appState0 : AppState := {| searchHistory := []; recentSearches := [] |}.

(** [JSON.parse(localStorage.getItem('searchHistory') || '[]')] *)
Definition loadHistory (ls : Utils.localStorage (list object)) : result (list object) :=
  bind (Utils.getItem ls KEY) (fun item =>
  match item with
  | Some t => if Utils.truthy_item item then Utils.JSON_parse t else Ok []
  | None => Ok []
  end).

(** [saveSearchToHistory(query)]: nothing catches what [localStorage]
    or [JSON.parse] throw. *)
Definition saveSearchToHistory (query : string) (t : Z) (w : World) : result World :=
  let normalizedQuery := toLowerCase (trim query) in
  bind (loadHistory (localStorage w)) (fun searchHistory =>
  let searchHistory :=
    List.filter (fun item => negb (strict_eq_str (get item "query") normalizedQuery))
                searchHistory in
  let searchHistory := Main.entry normalizedQuery t :: searchHistory in
  let searchHistory := take 10 searchHistory in
  bind (Utils.JSON_stringify searchHistory) (fun serialized =>
  bind (Utils.setItem (localStorage w) KEY serialized) (fun ls =>
  Ok {| appState := {| searchHistory := searchHistory;
                       recentSearches := recentSearches (appState w) |};
        localStorage := ls |}))).

(** The same events as for [Main]; a call that throws leaves the world as
    it was. *)
Definition step (w : World) (ev : Main.event) : World :=
  match ev with
  | Main.Save query t =>
      match saveSearchToHistory query t w with
      | Ok w' => w'
      | Throw _ => w
      end
  | Main.StorageMood b f =>
      {| appState := appState w;
         localStorage := {| Utils.items := Utils.items (localStorage w);
                            Utils.blocked := b; Utils.full := f |} |}
  end.

Definition run (w : World) (evs : list Main.event) : World := fold_left step evs w.

Definition persisted (w : World) : option (list object) :=
  match Utils.items (localStorage w) !! KEY with
  | Some (Utils.Json h) => Some h
  | _ => None
  end.

Definition fresh (blocked full : bool) : World :=
  {| appState := appState0;
     localStorage := {| Utils.items := ∅; Utils.blocked := blocked; Utils.full := full |} |}.

End MainInline.

(** ** js/config.js: the breakpoints *)

Module Config.

(** [CONFIG.BREAKPOINTS] *)
Definition XS : Z := 480.

(** [CONFIG.SEARCH.MIN_LENGTH] and [CONFIG.SEARCH.MAX_LENGTH] *)
Definition MIN_LENGTH : Z := 2.
Definition MAX_LENGTH : Z := 100.





End Config.

(** ** js/utils.js: strings, numbers, arrays, removing from the storage *)

Module UtilsMore.
Import Js.

(** The first [n] characters of [s]. *)
Fixpoint string_take (n : nat) (s : string) : string :=
  match n, s with
  | S n', String c s' => String c (string_take n' s')
  | _, _ => EmptyString
  end.

(** [s.substring(0, fin)] for an integer [fin]: a negative [fin] counts
    as 0 and one beyond the length as the length. *)
Definition substring0 (s : string) (fin : Z) : string :=
  string_take (Z.to_nat (Z.min (Z.max fin 0) (Z.of_nat (String.length s)))) s.

(** [truncate(str, maxLength, suffix)] for a string and an integer. *)
Definition truncate (str : string) (maxLength : Z) (suffix : string) : string :=
  if negb (truthy_string str) || (Z.of_nat (String.length str) <=? maxLength) then str
  else substring0 str (maxLength - Z.of_nat (String.length suffix)) ++ suffix.

(** [clamp(value, min, max)] on integers. *)
Definition clamp (value min max : Z) : Z := Z.min (Z.max value min) max.

Section Unique.
(** Values that [Set] compares by what they are: strings, integers,
    booleans. *)
Context {A : Type} `{EqDecision A}.

(** [new Set(array)], as the list of its elements in insertion order. *)
Definition Set_of (array : list A) : list A :=
  fold_left (fun set x => if bool_decide (x ∈ set) then set else (set ++ [x])%list)
            array [].

(** [unique(array)] *)
Definition unique (array : list A) : list A := Set_of array.

End Unique.

Section Removal.
Context {A : Type}.

Definition removeItem (ls : Utils.localStorage A) (key : string)
  : result (Utils.localStorage A) :=
  if Utils.blocked ls then Throw "SecurityError"
  else Ok {| Utils.items := delete key (Utils.items ls);
             Utils.blocked := Utils.blocked ls; Utils.full := Utils.full ls |}.

Definition clear (ls : Utils.localStorage A) : result (Utils.localStorage A) :=
  if Utils.blocked ls then Throw "SecurityError"
  else Ok {| Utils.items := ∅;
             Utils.blocked := Utils.blocked ls; Utils.full := Utils.full ls |}.

(** [removeStorage(key)]: the success flag and the storage after. *)
Definition removeStorage (ls : Utils.localStorage A) (key : string)
  : bool * Utils.localStorage A :=
  try_catch (bind (removeItem ls key) (fun ls' => Ok (true, ls')))
            (fun error => (false, ls)).

(** [clearStorage()] *)
Definition clearStorage (ls : Utils.localStorage A) : bool * Utils.localStorage A :=
  try_catch (bind (clear ls) (fun ls' => Ok (true, ls')))
            (fun error => (false, ls)).

End Removal.

End UtilsMore.

(** ** js/pages/itinerarios.js: what the cards and the counters show *)

Module ItinerariosView.
Import Js Itinerarios.

Definition COLORES : list string := ["blue"; "green"; "orange"; "purple"; "pink"].

(** [s.slice(-n)]: the last [n] characters, all of [s] when it is
    shorter. *)
Fixpoint string_drop (n : nat) (s : string) : string :=
  match n, s with
  | S n', String _ s' => string_drop n' s'
  | _, _ => s
  end.

Definition slice_last (n : nat) (s : string) : string :=
  string_drop (String.length s - n) s.

(** The value of a hexadecimal digit, in either case. *)
Definition hexDigit (c : ascii) : option Z :=
  let n := nat_of_ascii c in
  if Nat.leb 48 n && Nat.leb n 57 then Some (Z.of_nat n - 48)
  else if Nat.leb 97 n && Nat.leb n 102 then Some (Z.of_nat n - 87)
  else if Nat.leb 65 n && Nat.leb n 70 then Some (Z.of_nat n - 55)
  else None.

(** The longest run of hexadecimal digits at the front of [s]: its value
    on top of [acc], and how many digits there were. *)
Fixpoint readHex (s : string) (acc : Z) (cnt : nat) : Z * nat :=
  match s with
  | EmptyString => (acc, cnt)
  | String c s' =>
      match hexDigit c with
      | Some d => readHex s' (16 * acc + d) (S cnt)
      | None => (acc, cnt)
      end
  end.

(** A leading [0x] or [0X] is skipped when the radix is 16. *)
Definition strip0x (s : string) : string :=
  match s with
  | String a (String b r) =>
      if Ascii.eqb a "0" && (Ascii.eqb b "x" || Ascii.eqb b "X") then r else s
  | _ => s
  end.

(** [parseInt(input, 16)]; [None] is NaN.  Exact for the results below
    [2^53], which is all that four characters can give. *)
Definition parseInt16 (input : string) : option Z :=
  let s := trimStart input in
  let '(neg, s) := readSign s in
  let s := strip0x s in
  let '(v, n) := readHex s 0 0%nat in
  if Nat.eqb n 0 then None else Some (if neg then - v else v).

(** [array[index]] for an index that may be NaN or negative; [None] is
    [undefined]. *)
Definition at_index (array : list string) (index : option Z) : option string :=
  match index with
  | Some i => if i <? 0 then None else array !! Z.to_nat i
  | None => None
  end.

(** [getColorPorId(id)]; [%] is the remainder with the sign of the
    dividend. *)
Definition getColorPorId (id : string) : string :=
  let index := option_map (fun v => Z.rem v (Z.of_nat (List.length COLORES)))
                          (parseInt16 (slice_last 4 id)) in
  match at_index COLORES index with
  | Some color => if truthy_string color then color else "blue"
  | None => "blue"
  end.

(** [s.split(sep)] for a separator of one character. *)
Fixpoint split (sep : ascii) (s : string) : list string :=
  match s with
  | EmptyString => [EmptyString]
  | String c s' =>
      if Ascii.eqb c sep then EmptyString :: split sep s'
      else match split sep s' with
           | first :: others => String c first :: others
           | [] => [String c EmptyString]
           end
  end.

(** An element of a destructured array inside a template literal: a
    missing one prints as [undefined]. *)
Definition interpolate (parts : list string) (i : nat) : string :=
  nth i parts "undefined".

(** [formatearFecha(fecha)] *)
Definition formatearFecha (fecha : string) : string :=
  if negb (truthy_string fecha) then "-"
  else
    let parts := split "-" fecha in
    interpolate parts 2 ++ "/" ++ interpolate parts 1 ++ "/" ++ interpolate parts 0.

(** The four counters [renderStats()] writes into the document. *)
Record Stats : Type := {
  stat_total : nat;
  stat_planificando : nat;
  stat_confirmado : nat;
  stat_completado : nat;
}.

Definition renderStats (w : World) : Stats :=
  let total := List.length (itinerarios (state w)) in
  let planificando :=
    List.length (List.filter (fun it => strict_eq_str (get it "estado") "planificando")
                             (itinerarios (state w))) in
  let confirmado :=
    List.length (List.filter (fun it => strict_eq_str (get it "estado") "confirmado")
                             (itinerarios (state w))) in
  let completado :=
    List.length (List.filter (fun it => strict_eq_str (get it "estado") "completado")
                             (itinerarios (state w))) in
  {| stat_total := total; stat_planificando := planificando;
     stat_confirmado := confirmado; stat_completado := completado |}.

End ItinerariosView.

(** ** js/main.js: validating and submitting a search *)

Module MainPage.
Import Js.

(** The messages of [CONFIG.MESSAGES.ERRORS] the search form shows. *)
Inductive message : Type :=
| SEARCH_EMPTY
| SEARCH_TOO_SHORT
| SEARCH_TOO_LONG
| GENERIC.

(** [validateSearch(query)]: the fields [valid] and [error] of its
    result. *)
Definition validateSearch (query : string) : bool * option message :=
  if negb (truthy_string query) || String.eqb (trim query) "" then (false, Some SEARCH_EMPTY)
  else if Z.of_nat (String.length query) <? Config.MIN_LENGTH
  then (false, Some SEARCH_TOO_SHORT)
  else if Config.MAX_LENGTH <? Z.of_nat (String.length query)
  then (false, Some SEARCH_TOO_LONG)
  else (true, None).

(** The page: the module state and the storage, the text in the search
    input, the error element (its text and whether it has the class
    [show]), whether the button is disabled, and the query of the
    redirection that is waiting for its timer.  The form, the input, the
    error element and the button all exist: [init] registers no listener
    otherwise ([validateDOM]). *)
Record Page : Type := {
  world : Main.World;
  searchInput : string;
  errorText : option message;
  errorShown : bool;
  buttonDisabled : bool;
  redirecting : option string;
}.

Definition set_world (w : Main.World) (p : Page) : Page :=
  {| world := w; searchInput := searchInput p; errorText := errorText p;
     errorShown := errorShown p; buttonDisabled := buttonDisabled p;
     redirecting := redirecting p |}.

Definition set_appState (a : Main.AppState) (p : Page) : Page :=
  set_world {| Main.appState := a; Main.localStorage := Main.localStorage (world p) |} p.

Definition hideSearchError (p : Page) : Page :=
  {| world := world p; searchInput := searchInput p; errorText := errorText p;
     errorShown := false; buttonDisabled := buttonDisabled p;
     redirecting := redirecting p |}.

Definition showSearchError (m : message) (p : Page) : Page :=
  {| world := world p; searchInput := searchInput p; errorText := Some m;
     errorShown := true; buttonDisabled := buttonDisabled p;
     redirecting := redirecting p |}.

(** [redirectToResults(query)], up to the timer it sets. *)
Definition redirectToResults (query : string) (p : Page) : Page :=
  let p :=
    {| world := world p; searchInput := searchInput p; errorText := errorText p;
       errorShown := errorShown p; buttonDisabled := true;
       redirecting := Some query |} in
  set_appState {| Main.searchHistory := Main.searchHistory (Main.appState (world p));
                  Main.isSearching := true;
                  Main.currentQuery := Main.currentQuery (Main.appState (world p)) |} p.

(** [handleSearchSubmit(e)]; [t] is the time of the [new Date()] in
    [saveSearchToHistory].  Nothing in its [try] block throws here. *)
Definition handleSearchSubmit (t : Z) (p : Page) : Page :=
  if Main.isSearching (Main.appState (world p)) then p
  else
    let p := hideSearchError p in
    let query := trim (searchInput p) in
    let p :=
      set_appState {| Main.searchHistory := Main.searchHistory (Main.appState (world p));
                      Main.isSearching := Main.isSearching (Main.appState (world p));
                      Main.currentQuery := query |} p in
    let validation := validateSearch query in
    if negb (fst validation) then
      match snd validation with
      | Some m => showSearchError m p
      | None => p
      end
    else
      let p := set_world (Main.saveSearchToHistory query t (world p)) p in
      redirectToResults query p.

(** [array.slice(0, fin)] for an integer [fin]: a negative [fin] counts
    from the end. *)
Definition slice0 {A : Type} (array : list A) (fin : Z) : list A :=
  if fin <? 0 then take (Z.to_nat (Z.of_nat (List.length array) + fin)) array
  else take (Z.to_nat fin) array.

(** [getRecentSearches(limit)] *)
Definition getRecentSearches (limit : Z) (w : Main.World) : list object :=
  slice0 (Main.searchHistory (Main.appState w)) limit.

(** [loadSearchHistory()]: [getStorage] does not throw, so the [catch]
    is never entered. *)
Definition loadSearchHistory (w : Main.World) : Main.World :=
  let history := Utils.getStorage (Main.localStorage w) Main.SEARCH_HISTORY [] in
  {| Main.appState := {| Main.searchHistory := history;
                         Main.isSearching := Main.isSearching (Main.appState w);
                         Main.currentQuery := Main.currentQuery (Main.appState w) |};
     Main.localStorage := Main.localStorage w |}.

(** What happens on the page: the user types, submits, or the error
    timer hides the message. *)
Inductive event : Type :=
| Type_ (text : string)
| Submit (t : Z)
| ErrorTimeout.

Definition step (p : Page) (ev : event) : Page :=
  match ev with
  | Type_ text =>
      {| world := world p; searchInput := text; errorText := errorText p;
         errorShown := false; buttonDisabled := buttonDisabled p;
         redirecting := redirecting p |}
  | Submit t => handleSearchSubmit t p
  | ErrorTimeout => hideSearchError p
  end.

Definition run (p : Page) (evs : list event) : Page := fold_left step evs p.

(** The page after [init()]: the history is loaded, nothing is typed. *)
Definition loaded (ls : Utils.localStorage (list object)) : Page :=
  {| world := loadSearchHistory {| Main.appState := Main.appState0;
                                   Main.localStorage := ls |};
     searchInput := ""; errorText := None; errorShown := false;
     buttonDisabled := false; redirecting := None |}.

End MainPage.

(** ** The earlier main.js: validation and loading *)

Module MainInlinePage.
Import Js.

Definition validateSearch (query : string) : bool * option MainPage.message :=
  if negb (truthy_string query) || String.eqb (trim query) "" then
    (false, Some MainPage.SEARCH_EMPTY)
  else if Z.of_nat (String.length query) <? 2 then (false, Some MainPage.SEARCH_TOO_SHORT)
  else if 100 <? Z.of_nat (String.length query) then (false, Some MainPage.SEARCH_TOO_LONG)
  else (true, None).

(** [loadSearchHistory()]: the [catch] absorbs what [localStorage] and
    [JSON.parse] throw. *)
Definition loadSearchHistory (w : MainInline.World) : MainInline.World :=
  let history :=
    try_catch (MainInline.loadHistory (MainInline.localStorage w)) (fun error => []) in
  {| MainInline.appState :=
       {| MainInline.searchHistory := history;
          MainInline.recentSearches := MainInline.recentSearches (MainInline.appState w) |};
     MainInline.localStorage := MainInline.localStorage w |}.

(** The page of the earlier version, on a document that has the form,
    the input, the error element and the button. *)
Record Page : Type := {
  world : MainInline.World;
  searchInput : string;
  errorText : option MainPage.message;
  errorShown : bool;
  buttonDisabled : bool;
  redirecting : option string;
}.

Definition hideSearchError (p : Page) : Page :=
  {| world := world p; searchInput := searchInput p; errorText := errorText p;
     errorShown := false; buttonDisabled := buttonDisabled p;
     redirecting := redirecting p |}.

Definition showSearchError (m : MainPage.message) (p : Page) : Page :=
  {| world := world p; searchInput := searchInput p; errorText := Some m;
     errorShown := true; buttonDisabled := buttonDisabled p;
     redirecting := redirecting p |}.

(** [handleSearchSubmit(e)] of the earlier version, up to the timer it
    sets.  What [saveSearchToHistory] throws leaves the listener, and
    nothing after the call runs. *)
Definition handleSearchSubmit (t : Z) (p : Page) : result unit * Page :=
  let p := hideSearchError p in
  let query := trim (searchInput p) in
  let validation := validateSearch query in
  if negb (fst validation) then
    match snd validation with
    | Some m => (Ok tt, showSearchError m p)
    | None => (Ok tt, p)
    end
  else
    match MainInline.saveSearchToHistory query t (world p) with
    | Throw error => (Throw error, p)
    | Ok w =>
        (Ok tt,
         {| world := w; searchInput := searchInput p; errorText := errorText p;
            errorShown := errorShown p; buttonDisabled := true;
            redirecting := Some query |})
    end.

End MainInlinePage.

(** * Properties *)

(** ** The built-ins on examples *)

Section BuiltinExamples.
Import Js.

Example trim_example : trim "  Tokio	 " = "Tokio" /\ trim " 	" = "".
Proof. split; reflexivity. Qed.

Example toLowerCase_example : toLowerCase "Tokyo Z[" = "tokyo z[".
Proof. reflexivity. Qed.

Example includes_example :
  includes "tokyo" "ky" = true /\ includes "tokyo" "yk" = false
  /\ includes "tokyo" "" = true.
Proof. repeat split. Qed.

Example lt_example :
  lt "2025-12-31" "2026-01-01" = true /\ lt "2026-01-01" "2026-01-01" = false
  /\ lt "" "a" = true.
Proof. repeat split. Qed.

Example parseFloat_example :
  parseFloat " +12.50e-1x" = Dec false 1250 (-3)
  /\ parseFloat "5." = Dec false 5 0
  /\ parseFloat ".5" = Dec false 5 (-1)
  /\ parseFloat "1e" = Dec false 1 0
  /\ parseFloat "-Infinity" = Infinity true
  /\ parseFloat "." = NaN /\ parseFloat "abc" = NaN /\ parseFloat "" = NaN.
Proof. repeat split. Qed.

Example toBoolean_example :
  toBoolean (parseFloat "0.0") = false /\ toBoolean (parseFloat "-0") = false
  /\ toBoolean (parseFloat "4.9e-324") = true
  /\ toBoolean (parseFloat "2.4e-324") = false
  /\ toBoolean (parseFloat "1500") = true.
Proof. vm_compute. repeat split. Qed.

Example Date_parse_example :
  Date_parse "1970-01-01" = Some 0
  /\ Date_parse "2000-01-01" = Some 946684800000
  /\ Date_parse "2024-02-29" = Some 1709164800000
  /\ Date_parse "2026-02-29" = None
  /\ Date_parse "2026-3-1" = None.
Proof. vm_compute. repeat split. Qed.

Example toISOString_example :
  toISOString 0 = "1970-01-01T00:00:00.000Z"
  /\ toISOString 1700000000000 = "2023-11-14T22:13:20.000Z"
  /\ toISOString (-1) = "1969-12-31T23:59:59.999Z".
Proof. vm_compute. repeat split. Qed.

Example toString16_example :
  toString16 255 = "ff" /\ toString16 0 = "0" /\ toString16 (-255) = "-ff"
  /\ toString16 1700000000000 = "18bcfe56800".
Proof. vm_compute. repeat split. Qed.

(** [civilFromDay] inverts [MakeDay], on a few days around the ends of
    months, leap days and the epoch. *)
Example civilFromDay_example :
  forallb (fun z => let '(y, m, d) := civilFromDay z in Z.eqb (MakeDay y m d) z)
          [-719468; -1; 0; 58; 59; 60; 364; 365; 789; 10956; 10957; 11015; 11016;
           11017; 11322; 19782; 19783; 20512; 20513; 47481; 2932896]
  = true.
Proof. vm_compute. reflexivity. Qed.

End BuiltinExamples.

(** ** Strings *)

Section StringFacts.
Import Js.

Lemma truthy_string_true (s : string) : truthy_string s = true <-> s <> "".
Proof. destruct s; simpl; split; intros; congruence. Qed.

Lemma truthy_string_false (s : string) : truthy_string s = false <-> s = "".
Proof. destruct s; simpl; split; intros; congruence. Qed.

Lemma startsWith_spec (s q : string) :
  startsWith s q = true <-> exists post, s = q ++ post.
Proof.
  revert s. induction q as [|b q IH]; intros s; simpl.
  - split; [intros _; exists s; reflexivity | reflexivity].
  - destruct s as [|a s].
    + split; [discriminate | intros [post H]; discriminate].
    + rewrite andb_true_iff, Ascii.eqb_eq, IH. split.
      * intros [-> [post ->]]. exists post. reflexivity.
      * intros [post H]. injection H as -> ->. split; [reflexivity | eauto].
Qed.

Lemma includes_spec (s q : string) :
  includes s q = true <-> exists pre post, s = pre ++ q ++ post.
Proof.
  induction s as [|a s IH]; simpl.
  - rewrite orb_false_r, startsWith_spec. split.
    + intros [post H]. exists "", post. exact H.
    + intros [pre [post H]]. destruct pre; [eauto | discriminate].
  - rewrite orb_true_iff, startsWith_spec, IH. split.
    + intros [[post H] | [pre [post H]]].
      * exists "", post. exact H.
      * exists (String a pre), post. simpl. now rewrite H.
    + intros [pre [post H]]. destruct pre as [|c pre]; simpl in H.
      * left. eauto.
      * right. injection H as -> ->. eauto.
Qed.

Lemma toLowerCase_app (a b : string) :
  toLowerCase (a ++ b) = toLowerCase a ++ toLowerCase b.
Proof. induction a as [|c a IH]; simpl; [reflexivity | now rewrite IH]. Qed.

(** A split of the lower-cased string comes from a split of the string. *)
Lemma toLowerCase_split (s x y : string) :
  toLowerCase s = x ++ y ->
  exists s1 s2, s = s1 ++ s2 /\ toLowerCase s1 = x /\ toLowerCase s2 = y.
Proof.
  revert s. induction x as [|c x IH]; intros s H; simpl in H.
  - exists "", s. auto.
  - destruct s as [|a s]; simpl in H; [discriminate |].
    injection H as Hc H. destruct (IH s H) as [s1 [s2 [-> [H1 H2]]]].
    exists (String a s1), s2. simpl. rewrite Hc, H1. auto.
Qed.

End StringFacts.

(** ** Objects and arrays *)

Section ObjectFacts.
Import Js.

Lemma strict_eq_str_true (v : value) (s : string) :
  strict_eq_str v s = true <-> v = VStr s.
Proof.
  destruct v; simpl; try (split; [discriminate | intros H; discriminate]).
  rewrite String.eqb_eq. split; [intros ->; reflexivity | intros H; now injection H].
Qed.

Lemma strict_eq_str_false (v : value) (s : string) :
  strict_eq_str v s = false <-> v <> VStr s.
Proof.
  rewrite <- strict_eq_str_true. destruct (strict_eq_str v s); split; congruence.
Qed.

Lemma findIndex_None {A : Type} (p : A -> bool) (l : list A) :
  Itinerarios.findIndex p l = None <-> (forall x, In x l -> p x = false).
Proof.
  induction l as [|x l IH]; simpl.
  - split; [intros _ y [] | reflexivity].
  - destruct (p x) eqn:Hx.
    + split; [discriminate | intros H; specialize (H x (or_introl eq_refl)); congruence].
    + destruct (Itinerarios.findIndex p l) as [i|]; simpl.
      * split; [discriminate |]. intros H.
        assert (Hn : Some i = None) by (apply IH; intros y Hy; apply H; now right).
        discriminate.
      * split; [| reflexivity]. intros _ y [<- | Hy]; [exact Hx |].
        now apply (proj1 IH).
Qed.

Lemma findIndex_Some {A : Type} (p : A -> bool) (l : list A) (i : nat) :
  Itinerarios.findIndex p l = Some i ->
  exists x, l !! i = Some x /\ p x = true /\
            forall j y, (j < i)%nat -> l !! j = Some y -> p y = false.
Proof.
  revert i. induction l as [|x l IH]; intros i; simpl; [discriminate |].
  destruct (p x) eqn:Hx.
  - intros H. injection H as <-. exists x. repeat split; [exact Hx |].
    intros j y Hj. lia.
  - destruct (Itinerarios.findIndex p l) as [i'|]; simpl; [| discriminate].
    intros H. injection H as <-.
    destruct (IH i' eq_refl) as [y [Hy [Hpy Hfirst]]].
    exists y. repeat split; [exact Hy | exact Hpy |].
    intros [|j] z Hj Hz; simpl in Hz.
    + injection Hz as <-. exact Hx.
    + apply (Hfirst j z); [lia | exact Hz].
Qed.

(** The object [{...a, ...b, k0: v}], property by property. *)
Lemma insert_spread_lookup (a b : object) (k0 : string) (v : value) (k : string) :
  (<[k0 := v]> (spread a b)) !! k =
  if String.eqb k k0 then Some v
  else match b !! k with
       | Some x => Some x
       | None => a !! k
       end.
Proof.
  unfold spread. destruct (String.eqb_spec k k0) as [-> | Hne].
  - apply lookup_insert_eq.
  - rewrite lookup_insert_ne by congruence.
    destruct (b !! k) as [x|] eqn:Hk.
    + now apply lookup_union_Some_l.
    + now apply lookup_union_r.
Qed.

End ObjectFacts.

(** ** What JSON keeps of a record *)

Section JsonFacts.
Import Js.

(** The record is read back from its JSON text as it is: it holds no
    [undefined], no Number that is not finite and no zero written in
    another way than the JSON text writes it. *)
Definition json_safe (o : object) : Prop :=
  forall k v, o !! k = Some v -> json_value v = Some v.

Lemma json_object_lookup (o : object) (k : string) :
  json_object o !! k = o !! k ≫= json_value.
Proof. unfold json_object. apply lookup_omap. Qed.

Lemma json_safe_object (o : object) : json_safe o -> json_object o = o.
Proof.
  intros H. apply map_eq. intros k. rewrite json_object_lookup.
  destruct (o !! k) as [v|] eqn:Hk; [| reflexivity]. cbn. exact (H k v Hk).
Qed.

Lemma json_safe_array (l : list object) :
  Forall json_safe l -> List.map json_object l = l.
Proof.
  induction 1 as [|o l Ho Hl IH]; cbn [List.map]; [reflexivity |].
  now rewrite (json_safe_object o Ho), IH.
Qed.

(** A property that holds a string holds it after the round trip. *)
Lemma json_get_str (o : object) (k s : string) :
  get o k = VStr s -> get (json_object o) k = VStr s.
Proof.
  unfold get. rewrite json_object_lookup.
  destruct (o !! k) as [v|]; cbn; [| discriminate]. now intros ->.
Qed.

Lemma json_safe_empty : json_safe ∅.
Proof. intros k v H. now rewrite lookup_empty in H. Qed.

Lemma json_safe_insert (o : object) (k : string) (v : value) :
  json_value v = Some v -> json_safe o -> json_safe (<[k := v]> o).
Proof.
  intros Hv Ho k' v' H. destruct (decide (k = k')) as [<- | Hne].
  - rewrite lookup_insert_eq in H. now injection H as <-.
  - rewrite lookup_insert_ne in H by exact Hne. exact (Ho k' v' H).
Qed.


Lemma json_safe_entry (q : string) (t : Z) : json_safe (Main.entry q t).
Proof.
  unfold Main.entry.
  apply json_safe_insert; [reflexivity |].
  apply json_safe_insert; [reflexivity | apply json_safe_empty].
Qed.

End JsonFacts.

(** ** The form *)

Section FormFacts.
Import Js Itinerarios.

(** The four rules of the form, on the values of its inputs. *)
Definition rule_nombre (i : Inputs) : Prop := trim (input_nombre i) <> "".
Definition rule_destino (i : Inputs) : Prop := trim (input_destino i) <> "".
Definition rule_fecha_inicio (i : Inputs) : Prop := input_fecha_inicio i <> "".
Definition rule_fecha_fin (i : Inputs) : Prop :=
  input_fecha_fin i <> "" /\
  (input_fecha_inicio i <> "" -> lt (input_fecha_fin i) (input_fecha_inicio i) = false).

Lemma flagged_iff (s : string) : negb (truthy_string s) = true <-> ~ s <> "".
Proof.
  rewrite negb_true_iff, truthy_string_false.
  destruct (String.eqb_spec s ""); tauto.
Qed.

(** What [validarForm] computes, in closed form: each group is flagged by
    its own rule, whatever the flags were before. *)
Lemma validarForm_eq (w : World) :
  validarForm w =
  (truthy_string (trim (input_nombre (inputs w)))
   && truthy_string (trim (input_destino (inputs w)))
   && truthy_string (input_fecha_inicio (inputs w))
   && negb (negb (truthy_string (input_fecha_fin (inputs w)))
            || (truthy_string (input_fecha_inicio (inputs w))
                && lt (input_fecha_fin (inputs w)) (input_fecha_inicio (inputs w)))),
   set_errors
     {| fg_nombre := negb (truthy_string (trim (input_nombre (inputs w))));
        fg_destino := negb (truthy_string (trim (input_destino (inputs w))));
        fg_fecha_inicio := negb (truthy_string (input_fecha_inicio (inputs w)));
        fg_fecha_fin :=
          negb (truthy_string (input_fecha_fin (inputs w)))
          || (truthy_string (input_fecha_inicio (inputs w))
              && lt (input_fecha_fin (inputs w)) (input_fecha_inicio (inputs w))) |}
     w).
Proof.
  unfold validarForm. destruct w as [st i e ls]. simpl.
  destruct (truthy_string (trim (input_nombre i)));
    destruct (truthy_string (trim (input_destino i)));
    destruct (truthy_string (input_fecha_inicio i));
    destruct (truthy_string (input_fecha_fin i));
    destruct (lt (input_fecha_fin i) (input_fecha_inicio i));
    reflexivity.
Qed.

Lemma rule_fecha_fin_bool (i : Inputs) :
  negb (truthy_string (input_fecha_fin i))
  || (truthy_string (input_fecha_inicio i)
      && lt (input_fecha_fin i) (input_fecha_inicio i)) = false
  <-> rule_fecha_fin i.
Proof.
  unfold rule_fecha_fin.
  rewrite orb_false_iff, negb_false_iff, andb_false_iff,
    truthy_string_true, truthy_string_false.
  split.
  - intros [Hf [Hi | Hlt]]; split; auto; intros Hne; congruence.
  - intros [Hf Himp]. split; [exact Hf |].
    destruct (String.eqb_spec (input_fecha_inicio i) ""); auto.
Qed.

(** C3. Form validation accepts exactly when the four rules hold (name
    and destination non-empty after trimming, start date present, end
    date present and, when the start date is present, not before it as a
    string); each form group is flagged exactly when its own rule is
    violated, whatever the other rules say and whatever was flagged
    before; nothing but the flags changes; and the inputs name "",
    destination "X", start "2026-01-01", end "2025-12-31" are rejected
    with exactly the name and the end date flagged. *)
Theorem C3_validarForm_flags_each_rule (w : World) :
  (fst (validarForm w) = true <->
     rule_nombre (inputs w) /\ rule_destino (inputs w) /\
     rule_fecha_inicio (inputs w) /\ rule_fecha_fin (inputs w))
  /\ (fg_nombre (errors (snd (validarForm w))) = true <-> ~ rule_nombre (inputs w))
  /\ (fg_destino (errors (snd (validarForm w))) = true <-> ~ rule_destino (inputs w))
  /\ (fg_fecha_inicio (errors (snd (validarForm w))) = true
      <-> ~ rule_fecha_inicio (inputs w))
  /\ (fg_fecha_fin (errors (snd (validarForm w))) = true <-> ~ rule_fecha_fin (inputs w))
  /\ state (snd (validarForm w)) = state w
  /\ inputs (snd (validarForm w)) = inputs w
  /\ localStorage (snd (validarForm w)) = localStorage w
  /\ (forall estado budget notas,
        let i := {| input_nombre := ""; input_destino := "X";
                    input_fecha_inicio := "2026-01-01"; input_fecha_fin := "2025-12-31";
                    input_estado := estado; input_budget := budget;
                    input_notas := notas |} in
        validarForm (set_inputs i w) =
        (false, set_errors {| fg_nombre := true; fg_destino := false;
                              fg_fecha_inicio := false; fg_fecha_fin := true |}
                           (set_inputs i w))).
Proof.
  rewrite validarForm_eq. cbn [fst snd].
  pose proof (rule_fecha_fin_bool (inputs w)) as Hfin.
  unfold rule_nombre, rule_destino, rule_fecha_inicio.
  split.
  { rewrite !andb_true_iff, negb_true_iff, Hfin, !truthy_string_true. tauto. }
  split; [apply flagged_iff |].
  split; [apply flagged_iff |].
  split; [apply flagged_iff |].
  split.
  { cbn. rewrite <- Hfin. now destruct (_ || _). }
  repeat split.
Qed.

End FormFacts.

(** ** The budget *)

Section BudgetFacts.
Import Js Itinerarios.

(** The budget [handleGuardar] stores is [parseFloat(input) || 1500]. *)
Lemma leerDatos_budget (i : Inputs) :
  get (leerDatos i) "budget"
  = VNum (or_else (parseFloat (input_budget i)) (Dec false 1500 0)).
Proof. reflexivity. Qed.

(** The verdict of the form does not look at the budget. *)
Lemma validarForm_ignores_budget (w : World) (b : string) :
  fst (validarForm
         (set_inputs {| input_nombre := input_nombre (inputs w);
                        input_destino := input_destino (inputs w);
                        input_fecha_inicio := input_fecha_inicio (inputs w);
                        input_fecha_fin := input_fecha_fin (inputs w);
                        input_estado := input_estado (inputs w);
                        input_budget := b;
                        input_notas := input_notas (inputs w) |} w))
  = fst (validarForm w).
Proof. rewrite !validarForm_eq. reflexivity. Qed.

(** An absent or non-numeric budget is replaced by 1500. *)
Lemma budget_fallback (i : Inputs) :
  parseFloat (input_budget i) = NaN ->
  get (leerDatos i) "budget" = VNum (Dec false 1500 0).
Proof. intros H. rewrite leerDatos_budget, H. reflexivity. Qed.

(** A budget that parses to a number other than zero is kept. *)
Lemma budget_kept (i : Inputs) :
  toBoolean (parseFloat (input_budget i)) = true ->
  get (leerDatos i) "budget" = VNum (parseFloat (input_budget i)).
Proof. intros H. rewrite leerDatos_budget. unfold or_else. now rewrite H. Qed.

(** The form of the failing input of C6: a valid trip with budget "0". *)
Definition form_budget_cero : Inputs :=
  {| input_nombre := "Escapada"; input_destino := "Lisboa";
     input_fecha_inicio := "2026-03-01"; input_fecha_fin := "2026-03-03";
     input_estado := "planificando"; input_budget := "0"; input_notas := "" |}.

(** C6 (the code at the failing input). The budget input "0" is numeric,
    [parseFloat] reads it as the number 0, and the form accepts it; yet the
    record that [handleGuardar] creates carries the budget 1500, because
    [0 || 1500] is 1500. *)
Theorem C6_budget_cero_becomes_1500 :
  let w0 := init form_budget_cero
                 {| fg_nombre := false; fg_destino := false;
                    fg_fecha_inicio := false; fg_fecha_fin := false |}
                 (fresh_storage false false) in
  parseFloat "0" = Dec false 0 0
  /\ fst (validarForm w0) = true
  /\ map (fun it => get it "budget")
         (itinerarios (state (handleGuardar 1772323200000 1772323200001 w0)))
     = [VNum (Dec false 1500 0)].
Proof. vm_compute. repeat split. Qed.

End BudgetFacts.

(** ** The store: create, edit, delete *)

Section StoreFacts.
Import Js Itinerarios.

Lemma guardarItinerarios_state (w : World) : state (guardarItinerarios w) = state w.
Proof.
  unfold guardarItinerarios.
  destruct (Utils.setStorage _ _ _) as [ok ls]. reflexivity.
Qed.

Lemma guardarItinerarios_inputs (w : World) : inputs (guardarItinerarios w) = inputs w.
Proof.
  unfold guardarItinerarios.
  destruct (Utils.setStorage _ _ _) as [ok ls]. reflexivity.
Qed.

Lemma guardarItinerarios_errors (w : World) : errors (guardarItinerarios w) = errors w.
Proof.
  unfold guardarItinerarios.
  destruct (Utils.setStorage _ _ _) as [ok ls]. reflexivity.
Qed.

(** C1. [editarItinerario(id, datos)]: when no record has the id it
    returns false and nothing changes; otherwise it returns true and
    replaces the first record with that id, at its place, by the merge:
    the properties of [datos] as supplied, [actualizadoEn] stamped with
    the time of the call, and every other property (in particular
    [nombre], [destino], [fechaInicio], [fechaFin] when [datos] lacks
    them) as it was.  The other records, the rest of the state and the
    form are untouched. *)
Theorem C1_editarItinerario_merges (id : string) (datos : object) (t : Z) (w : World) :
  ((forall it, In it (itinerarios (state w)) -> get it "id" <> VStr id) ->
   editarItinerario id datos t w = (false, w))
  /\
  ((exists it, In it (itinerarios (state w)) /\ get it "id" = VStr id) ->
   exists (index : nat) (actual editado : object),
     itinerarios (state w) !! index = Some actual
     /\ get actual "id" = VStr id
     /\ (forall j it, (j < index)%nat -> itinerarios (state w) !! j = Some it ->
                      get it "id" <> VStr id)
     /\ fst (editarItinerario id datos t w) = true
     /\ itinerarios (state (snd (editarItinerario id datos t w)))
        = <[index := editado]> (itinerarios (state w))
     /\ (forall k v, k <> "actualizadoEn" -> datos !! k = Some v -> editado !! k = Some v)
     /\ editado !! "actualizadoEn" = Some (VStr (toISOString t))
     /\ (forall k, k <> "actualizadoEn" -> datos !! k = None -> editado !! k = actual !! k)
     /\ (forall k, In k ["nombre"; "destino"; "fechaInicio"; "fechaFin"] ->
                   datos !! k = None -> get editado k = get actual k)
     /\ filtroActual (state (snd (editarItinerario id datos t w))) = filtroActual (state w)
     /\ busqueda (state (snd (editarItinerario id datos t w))) = busqueda (state w)
     /\ editandoId (state (snd (editarItinerario id datos t w))) = editandoId (state w)
     /\ eliminandoId (state (snd (editarItinerario id datos t w))) = eliminandoId (state w)
     /\ inputs (snd (editarItinerario id datos t w)) = inputs w
     /\ errors (snd (editarItinerario id datos t w)) = errors w).
Proof.
  split.
  - intros Hnone. unfold editarItinerario.
    replace (findIndex _ _) with (@None nat); [reflexivity |].
    symmetry. apply findIndex_None. intros it Hit.
    apply strict_eq_str_false. now apply Hnone.
  - intros [it [Hit Hid]]. unfold editarItinerario.
    destruct (findIndex _ _) as [index|] eqn:Hfind.
    + destruct (findIndex_Some _ _ _ Hfind) as [actual [Hact [Hp Hfirst]]].
      rewrite Hact.
      exists index, actual,
        (<["actualizadoEn" := VStr (toISOString t)]> (spread actual datos)).
      cbn [fst snd]. rewrite guardarItinerarios_state, guardarItinerarios_inputs,
        guardarItinerarios_errors. cbn.
      split; [exact Hact |].
      split; [now apply strict_eq_str_true |].
      split; [intros j y Hj Hy; apply strict_eq_str_false; eapply Hfirst; eauto |].
      split; [reflexivity |].
      split; [reflexivity |].
      split.
      { intros k v Hk Hd. rewrite insert_spread_lookup, Hd.
        destruct (String.eqb_spec k "actualizadoEn"); congruence. }
      split; [now rewrite insert_spread_lookup |].
      split.
      { intros k Hk Hd. rewrite insert_spread_lookup, Hd.
        destruct (String.eqb_spec k "actualizadoEn"); congruence. }
      split.
      { intros k Hk Hd. unfold get. rewrite insert_spread_lookup, Hd.
        destruct (String.eqb_spec k "actualizadoEn") as [-> | _]; [| reflexivity].
        simpl in Hk. intuition discriminate. }
      repeat split.
    + exfalso. rewrite findIndex_None in Hfind.
      specialize (Hfind it Hit). apply strict_eq_str_false in Hfind. contradiction.
Qed.

(** Two trips, and a world that holds a collection, to run the functions
    on. *)
Definition viaje (id nombre destino inicio fin estado : string) : object :=
  <["id" := VStr id]> (<["nombre" := VStr nombre]> (<["destino" := VStr destino]>
  (<["fechaInicio" := VStr inicio]> (<["fechaFin" := VStr fin]>
  (<["estado" := VStr estado]> ∅))))).

Definition mundo (l : list object) : World :=
  {| state := {| itinerarios := l; filtroActual := "todos"; busqueda := "";
                 editandoId := None; eliminandoId := None |};
     inputs := {| input_nombre := ""; input_destino := ""; input_fecha_inicio := "";
                  input_fecha_fin := ""; input_estado := "planificando";
                  input_budget := ""; input_notas := "" |};
     errors := {| fg_nombre := false; fg_destino := false;
                  fg_fecha_inicio := false; fg_fecha_fin := false |};
     localStorage := fresh_storage false false |}.

Definition dos_viajes : list object :=
  [viaje "it_1" "Playa" "Lisboa" "2026-03-01" "2026-03-03" "planificando";
   viaje "it_2" "Templos" "Tokyo" "2026-05-10" "2026-05-20" "planificando"].

End StoreFacts.

(** ** The filter and search projection *)

Section ProjectionFacts.
Import Js Itinerarios.

(** [text] contains [term] as a substring, letter case aside: some run of
    consecutive characters of [text] equals [term] once both are put in
    lower case. *)
Definition contains_ci (text term : string) : Prop :=
  exists pre mid post, text = pre ++ mid ++ post /\ toLowerCase mid = toLowerCase term.

(** The records the projection is specified to retain, for a status
    filter and a search term. *)
Definition retained (filtro term : string) (it : object) : Prop :=
  (filtro = "todos" \/ get it "estado" = VStr filtro)
  /\ (trim term = ""
      \/ (exists d, get it "destino" = VStr d /\ contains_ci d term)
      \/ (exists n, get it "nombre" = VStr n /\ contains_ci n term)).

(** A record whose [destino] and [nombre] are strings, as every record
    the form creates. *)
Definition has_texts (it : object) : Prop :=
  exists d n, get it "destino" = VStr d /\ get it "nombre" = VStr n.

Lemma contains_ci_includes (text term : string) :
  contains_ci text term <-> includes (toLowerCase text) (toLowerCase term) = true.
Proof.
  rewrite includes_spec. split.
  - intros [pre [mid [post [-> Hmid]]]].
    exists (toLowerCase pre), (toLowerCase post).
    now rewrite !toLowerCase_app, Hmid.
  - intros [x [y H]].
    destruct (toLowerCase_split _ _ _ H) as [pre [rest [-> [Hpre Hrest]]]].
    destruct (toLowerCase_split _ _ _ Hrest) as [mid [post [-> [Hmid Hpost]]]].
    exists pre, mid, post. split; [reflexivity | exact Hmid].
Qed.

(** The string a value holds, for the records with [has_texts]. *)
Definition text_of (v : value) : string :=
  match v with VStr s => s | _ => "" end.

(** The test the two [filter] calls of [getItinerariosFiltrados] apply in
    turn, as one boolean. *)
Definition keeps (filtro term : string) (it : object) : bool :=
  (String.eqb filtro "todos" || strict_eq_str (get it "estado") filtro)
  && (negb (truthy_string (trim term))
      || includes (toLowerCase (text_of (get it "destino"))) (toLowerCase term)
      || includes (toLowerCase (text_of (get it "nombre"))) (toLowerCase term)).

Lemma filterM_pure {A : Type} (p : A -> result bool) (pb : A -> bool) (l : list A) :
  (forall x, In x l -> p x = Ok (pb x)) ->
  filterM p l = Ok (List.filter pb l).
Proof.
  induction l as [|x l IH]; intros H; simpl; [reflexivity |].
  rewrite (H x (or_introl eq_refl)), IH by (intros y Hy; apply H; now right).
  simpl. now destruct (pb x).
Qed.

Lemma filter_filter {A : Type} (p q : A -> bool) (l : list A) :
  List.filter q (List.filter p l) = List.filter (fun x => p x && q x) l.
Proof.
  induction l as [|x l IH]; simpl; [reflexivity |].
  destruct (p x); simpl; [destruct (q x) |]; now rewrite IH.
Qed.

Lemma filter_all {A : Type} (l : list A) : List.filter (fun _ => true) l = l.
Proof. induction l as [|x l IH]; simpl; [reflexivity | now rewrite IH]. Qed.

(** On records with string [destino] and [nombre] the projection returns,
    and returns the collection filtered by [keeps]; the world is as
    before. *)
Lemma getItinerariosFiltrados_eq (w : World) :
  Forall has_texts (itinerarios (state w)) ->
  getItinerariosFiltrados w
  = (Ok (List.filter (keeps (filtroActual (state w)) (busqueda (state w)))
                     (itinerarios (state w))), w).
Proof.
  intros Hwf. rewrite Forall_forall in Hwf.
  unfold getItinerariosFiltrados. f_equal.
  set (f := filtroActual (state w)). set (q := busqueda (state w)).
  set (l := itinerarios (state w)) in *.
  assert (Hstatus :
    (if negb (String.eqb f "todos")
     then List.filter (fun it => strict_eq_str (get it "estado") f) l else l)
    = List.filter (fun it => String.eqb f "todos" || strict_eq_str (get it "estado") f) l).
  { destruct (String.eqb f "todos"); simpl; [now rewrite filter_all | reflexivity]. }
  rewrite Hstatus. unfold keeps.
  destruct (truthy_string (trim q)); simpl.
  - rewrite (filterM_pure _
      (fun it => includes (toLowerCase (text_of (get it "destino"))) (toLowerCase q)
                 || includes (toLowerCase (text_of (get it "nombre"))) (toLowerCase q))).
    + now rewrite filter_filter.
    + intros it Hit. apply filter_In in Hit. destruct Hit as [Hit _].
      destruct (Hwf it) as [d [n [Hd Hn]]]; [now apply list_elem_of_In |].
      rewrite Hd, Hn. simpl. now destruct (includes (toLowerCase d) (toLowerCase q)).
  - f_equal. apply filter_ext. intros it. now rewrite andb_true_r.
Qed.

Lemma keeps_retained (filtro term : string) (it : object) :
  has_texts it ->
  keeps filtro term it = true <-> retained filtro term it.
Proof.
  intros [d [n [Hd Hn]]]. unfold keeps, retained.
  rewrite Hd, Hn. simpl.
  rewrite andb_true_iff, !orb_true_iff, negb_true_iff, truthy_string_false,
    String.eqb_eq, strict_eq_str_true, <- !contains_ci_includes.
  split.
  - intros [Hs [[Ht | Hc] | Hc]]; split; auto.
    + right. left. eauto.
    + right. right. eauto.
  - intros [Hs [Ht | [[d' [Hd' Hc]] | [n' [Hn' Hc]]]]]; split; auto.
    + injection Hd' as <-. auto.
    + injection Hn' as <-. auto.
Qed.

Lemma filter_sublist {A : Type} (p : A -> bool) (l : list A) :
  sublist (List.filter p l) l.
Proof.
  induction l as [|x l IH]; simpl; [constructor |].
  destruct (p x); now constructor.
Qed.

(** On a collection whose records carry a destination and a name, the
    projection is the collection filtered by one test that holds exactly
    of the records specified as retained. *)
Lemma projection_retains_iff (w : World) :
  Forall has_texts (itinerarios (state w)) ->
  exists (lista : list object) (keep : object -> bool),
    getItinerariosFiltrados w = (Ok lista, w)
    /\ lista = List.filter keep (itinerarios (state w))
    /\ (forall it, In it (itinerarios (state w)) ->
          (keep it = true <-> retained (filtroActual (state w)) (busqueda (state w)) it))
    /\ (forall it, In it lista <->
          In it (itinerarios (state w))
          /\ retained (filtroActual (state w)) (busqueda (state w)) it)
    /\ sublist lista (itinerarios (state w)).
Proof.
  intros Hwf.
  exists (List.filter (keeps (filtroActual (state w)) (busqueda (state w)))
                      (itinerarios (state w))),
         (keeps (filtroActual (state w)) (busqueda (state w))).
  rewrite Forall_forall in Hwf.
  assert (Hk : forall it, In it (itinerarios (state w)) ->
            (keeps (filtroActual (state w)) (busqueda (state w)) it = true
             <-> retained (filtroActual (state w)) (busqueda (state w)) it)).
  { intros it Hit. apply keeps_retained, Hwf. now apply list_elem_of_In. }
  split; [apply getItinerariosFiltrados_eq; now apply Forall_forall |].
  split; [reflexivity |].
  split; [exact Hk |].
  split; [| apply filter_sublist].
  intros it. rewrite filter_In. split.
  - intros [Hit Hkeep]. split; [exact Hit | now apply Hk].
  - intros [Hit Hret]. split; [exact Hit | now apply Hk].
Qed.

(** The world of [dos_viajes] with a status filter and a search term. *)
Definition mundo_filtrado (l : list object) (filtro term : string) : World :=
  set_busqueda term (set_filtroActual filtro (mundo l)).

Lemma dos_viajes_has_texts : Forall has_texts dos_viajes.
Proof.
  repeat constructor.
  - exists "Lisboa", "Playa". split; reflexivity.
  - exists "Tokyo", "Templos". split; reflexivity.
Qed.

(** With a search input that is not blank, the search step matches
    against the lower-cased input as typed. *)
Lemma search_matches_untrimmed (w : World) :
  Forall has_texts (itinerarios (state w)) ->
  trim (busqueda (state w)) <> "" ->
  exists lista : list object,
    getItinerariosFiltrados w = (Ok lista, w)
    /\ forall it, In it lista <->
         In it (itinerarios (state w))
         /\ (filtroActual (state w) = "todos"
             \/ get it "estado" = VStr (filtroActual (state w)))
         /\ exists d n, get it "destino" = VStr d /\ get it "nombre" = VStr n
             /\ ((exists pre post,
                    toLowerCase d = pre ++ toLowerCase (busqueda (state w)) ++ post)
                 \/ (exists pre post,
                    toLowerCase n = pre ++ toLowerCase (busqueda (state w)) ++ post)).
Proof.
  intros Hwf Hq.
  exists (List.filter (keeps (filtroActual (state w)) (busqueda (state w)))
                      (itinerarios (state w))).
  split; [now apply getItinerariosFiltrados_eq |].
  rewrite Forall_forall in Hwf.
  intros it. rewrite filter_In. unfold keeps.
  apply truthy_string_true in Hq. rewrite Hq. simpl.
  rewrite andb_true_iff, !orb_true_iff, String.eqb_eq, strict_eq_str_true,
    !includes_spec.
  split.
  - intros [Hit [Hs Hc]]. split; [exact Hit |]. split; [exact Hs |].
    destruct (Hwf it) as [d [n [Hd Hn]]]; [now apply list_elem_of_In |].
    exists d, n. rewrite Hd, Hn in Hc. auto.
  - intros [Hit [Hs [d [n [Hd [Hn Hc]]]]]]. split; [exact Hit |]. split; [exact Hs |].
    now rewrite Hd, Hn.
Qed.

End ProjectionFacts.

(** ** Dates and the length of a trip *)

Section DateFacts.
Import Js Itinerarios.

Lemma DayFromYear_succ (y : Z) :
  DayFromYear (y + 1) = DayFromYear y + (if isLeapYear y then 366 else 365).
Proof.
  unfold DayFromYear, isLeapYear.
  destruct (Z.eqb_spec (y mod 4) 0), (Z.eqb_spec (y mod 100) 0),
    (Z.eqb_spec (y mod 400) 0); simpl; Z.div_mod_to_equations; lia.
Qed.

Lemma DayFromYear_mono (y y' : Z) : y <= y' -> DayFromYear y <= DayFromYear y'.
Proof. intros H. unfold DayFromYear. Z.div_mod_to_equations. lia. Qed.

(** A month and a day of the calendar of year [y]. *)
Definition valid_date (y m d : Z) : Prop :=
  1 <= m <= 12 /\ 1 <= d <= DaysInMonth y m.

Ltac each_month m :=
  let H := fresh in
  assert (H : m = 1 \/ m = 2 \/ m = 3 \/ m = 4 \/ m = 5 \/ m = 6 \/ m = 7 \/ m = 8
              \/ m = 9 \/ m = 10 \/ m = 11 \/ m = 12) by lia;
  repeat (destruct H as [H | H]); subst m.

(** The day within its year lies in the year. *)
Lemma day_in_year (y m d : Z) :
  valid_date y m d ->
  0 <= daysBeforeMonth y m + d - 1 < (if isLeapYear y then 366 else 365).
Proof.
  intros [Hm Hd]. each_month m;
    unfold daysBeforeMonth, DaysInMonth in *; simpl in *;
    destruct (isLeapYear y); lia.
Qed.

(** Within a year, a later month starts after the earlier month ends. *)
Lemma months_in_order (y m m' d : Z) :
  valid_date y m d -> 1 <= m' <= 12 -> m < m' ->
  daysBeforeMonth y m + d <= daysBeforeMonth y m'.
Proof.
  intros [Hm Hd] Hm' Hlt. each_month m; each_month m'; try lia;
    unfold daysBeforeMonth, DaysInMonth in *; simpl in *;
    destruct (isLeapYear y); lia.
Qed.

(** [MakeDay] is monotone on the dates of the calendar, ordered by year,
    then month, then day. *)
Lemma MakeDay_mono (y m d y' m' d' : Z) :
  valid_date y m d -> valid_date y' m' d' ->
  y < y' \/ (y = y' /\ (m < m' \/ (m = m' /\ d <= d'))) ->
  MakeDay y m d <= MakeDay y' m' d'.
Proof.
  intros Hv Hv' Hle. unfold MakeDay.
  destruct Hle as [Hy | [<- [Hm | [<- Hd]]]].
  - pose proof (day_in_year _ _ _ Hv) as Hin.
    pose proof (day_in_year _ _ _ Hv') as Hin'.
    pose proof (DayFromYear_succ y) as Hs.
    pose proof (DayFromYear_mono (y + 1) y') as Hmono.
    destruct (isLeapYear y); lia.
  - pose proof (months_in_order y m m' d Hv (proj1 Hv') Hm).
    destruct Hv' as [_ Hd']. lia.
  - lia.
Qed.

Lemma digitZ_spec (c : ascii) (v : Z) :
  digitZ c = Some v -> 0 <= v <= 9 /\ Z.of_N (N_of_ascii c) = v + 48.
Proof.
  unfold digitZ, isDigit, digitVal, nat_of_ascii.
  destruct (Nat.leb 48 _ && Nat.leb _ 57) eqn:H; [| discriminate].
  intros Hv. injection Hv as <-.
  apply andb_true_iff in H. destruct H as [H1 H2].
  apply Nat.leb_le in H1, H2. lia.
Qed.

Lemma compare_digits (a b : ascii) (va vb : Z) :
  digitZ a = Some va -> digitZ b = Some vb -> Ascii.compare a b = (va ?= vb).
Proof.
  intros Ha Hb. apply digitZ_spec in Ha, Hb. unfold Ascii.compare.
  rewrite <- N2Z.inj_compare. destruct Ha as [_ ->], Hb as [_ ->].
  now rewrite (Z.add_comm va), (Z.add_comm vb), Z.add_compare_mono_l.
Qed.

Lemma DaysInMonth_le_31 (y m : Z) : DaysInMonth y m <= 31.
Proof.
  unfold DaysInMonth.
  destruct (m =? 2); [destruct (isLeapYear y); lia |].
  destruct ((m =? 4) || (m =? 6) || (m =? 9) || (m =? 11)); lia.
Qed.

(** A date-only string, split into its characters and their values. *)
Ltac split_iso s H :=
  unfold parseISODate in H;
  do 10 (destruct s as [|? s]; [discriminate H |]);
  destruct s; [| discriminate H];
  cbn [list_ascii_of_string] in H;
  unfold digits4, digits2 in H;
  repeat match type of H with
         | context [digitZ ?c] =>
             let v := fresh "v" in
             let E := fresh "E" in
             destruct (digitZ c) as [v|] eqn:E; [| discriminate H]
         end;
  repeat match type of H with
         | context [Ascii.eqb ?c ?k] =>
             destruct (Ascii.eqb_spec c k); [subst c | discriminate H]
         end;
  cbn [andb] in H;
  match type of H with
  | (if ?c then _ else _) = _ =>
      let V := fresh "V" in
      destruct c eqn:V; [| discriminate H]
  end;
  injection H as ? ? ?;
  repeat match goal with
         | E : digitZ _ = Some _ |- _ => pose proof (digitZ_spec _ _ E); revert E
         end;
  intros.

Lemma parseISODate_valid (s : string) (y m d : Z) :
  parseISODate s = Some (y, m, d) -> 0 <= y <= 9999 /\ valid_date y m d.
Proof.
  intros H. split_iso s H. subst.
  rewrite !andb_true_iff, !Z.leb_le in V. unfold valid_date. lia.
Qed.

(** The order of two date-only strings, as JavaScript compares strings,
    is the order of their dates by year, month and day. *)
Lemma iso_compare (s e : string) (y m d y' m' d' : Z) :
  parseISODate s = Some (y, m, d) -> parseISODate e = Some (y', m', d') ->
  String.compare s e = (y * 10000 + m * 100 + d ?= y' * 10000 + m' * 100 + d').
Proof.
  intros Hs He.
  pose proof (parseISODate_valid _ _ _ _ Hs) as [_ [Hm Hd]].
  pose proof (parseISODate_valid _ _ _ _ He) as [_ [Hm' Hd']].
  assert (Hd31 : d <= 31) by (pose proof (DaysInMonth_le_31 y m); lia).
  assert (Hd31' : d' <= 31) by (pose proof (DaysInMonth_le_31 y' m'); lia).
  clear Hd Hd'.
  split_iso s Hs. split_iso e He. subst. clear V V0.
  cbn [String.compare].
  repeat match goal with
         | Ea : digitZ ?a = Some _, Eb : digitZ ?b = Some _
           |- context [Ascii.compare ?a ?b] =>
             rewrite (compare_digits a b _ _ Ea Eb)
         end.
  change (Ascii.compare "-" "-") with Eq. cbv iota.
  repeat match goal with
         | |- context [?a ?= ?b] =>
             is_var a; is_var b;
             destruct (Z.compare_spec a b);
             [subst | symmetry; apply Z.compare_lt_iff; lia
                    | symmetry; apply Z.compare_gt_iff; lia]
         end.
  symmetry. apply Z.compare_eq_iff. lia.
Qed.

(** The day number a date-only string names. *)
Definition dayNumber (s : string) : option Z :=
  match parseISODate s with
  | Some (y, m, d) => Some (MakeDay y m d)
  | None => None
  end.

(** The trip length as specified, from the calendar days between the two
    dates: their ceiling plus one, and at least one. *)
Definition trip_length (days_between : Q) : Z := Z.max 1 (Qceiling days_between + 1).

Lemma Qceiling_days (k : Z) : Qceiling (k * msPerDay # 86400000) = k.
Proof.
  unfold Qceiling, Qfloor, Qopp, msPerDay. cbn [Qnum Qden].
  rewrite <- Z.mul_opp_l, Z.div_mul by discriminate. lia.
Qed.

Lemma Qceiling_inject (k : Z) : Qceiling (inject_Z k) = k.
Proof.
  unfold Qceiling, Qfloor, Qopp, inject_Z. cbn [Qnum Qden].
  rewrite Z.div_1_r. lia.
Qed.

(** A date-only string that is not smaller, as a string, names a day that
    is not earlier. *)
Lemma iso_order (inicio fin : string) (a b : Z) :
  dayNumber inicio = Some a -> dayNumber fin = Some b ->
  lt fin inicio = false -> a <= b.
Proof.
  unfold dayNumber, lt, String.ltb. intros Ha Hb Hlt.
  destruct (parseISODate inicio) as [[[y m] d]|] eqn:Hi; [| discriminate].
  destruct (parseISODate fin) as [[[y' m'] d']|] eqn:Hf; [| discriminate].
  injection Ha as <-. injection Hb as <-.
  rewrite (iso_compare _ _ _ _ _ _ _ _ Hf Hi) in Hlt.
  destruct (parseISODate_valid _ _ _ _ Hi) as [_ Hv].
  destruct (parseISODate_valid _ _ _ _ Hf) as [_ Hv'].
  apply MakeDay_mono; [exact Hv | exact Hv' |].
  pose proof (DaysInMonth_le_31 y m). pose proof (DaysInMonth_le_31 y' m').
  destruct (Z.compare_spec (y' * 10000 + m' * 100 + d') (y * 10000 + m * 100 + d));
    [| discriminate |];
    destruct Hv as [? [? ?]], Hv' as [? [? ?]]; lia.
Qed.

(** C4. For two date-only ISO strings naming days [a] and [b] of the
    calendar, the end not smaller than the start as a string,
    [calcularDias] returns the specified length for [b - a] calendar days
    between them, which is [b - a + 1] and at least 1; a trip from
    2026-03-01 to 2026-03-01 has 1 day and one to 2026-03-03 has 3. *)
Theorem C4_calcularDias_counts_both_ends (inicio fin : string) (a b : Z) :
  dayNumber inicio = Some a -> dayNumber fin = Some b ->
  lt fin inicio = false ->
  calcularDias inicio fin = Some (trip_length (inject_Z (b - a)))
  /\ trip_length (inject_Z (b - a)) = b - a + 1
  /\ 1 <= b - a + 1
  /\ calcularDias "2026-03-01" "2026-03-01" = Some 1
  /\ calcularDias "2026-03-01" "2026-03-03" = Some 3.
Proof.
  intros Ha Hb Hlt.
  pose proof (iso_order _ _ _ _ Ha Hb Hlt) as Hle.
  unfold trip_length. rewrite Qceiling_inject.
  split; [| split; [lia | split; [lia | split; vm_compute; reflexivity]]].
  unfold calcularDias, Date_parse. unfold dayNumber in Ha, Hb.
  destruct (parseISODate inicio) as [[[y m] d]|]; [| discriminate].
  destruct (parseISODate fin) as [[[y' m'] d']|]; [| discriminate].
  injection Ha as ->. injection Hb as ->.
  rewrite <- Z.mul_sub_distr_r, Qceiling_days. reflexivity.
Qed.

(** *** Dates with longer years *)

Fixpoint decimal_from (s : string) (acc : Z) : option Z :=
  match s with
  | EmptyString => Some acc
  | String c s' =>
      match digitZ c with
      | Some v => decimal_from s' (10 * acc + v)
      | None => None
      end
  end.

(** The number a non-empty text of decimal digits denotes. *)
Definition decimal (s : string) : option Z :=
  match s with
  | EmptyString => None
  | _ => decimal_from s 0
  end.

(** The calendar day a date string names, read as the value of a date
    input is written: a year of four or more digits, a month and a day
    of two digits each, joined by hyphens; in days since the epoch. *)
Definition calendar_day (s : string) : option Z :=
  match ItinerariosView.split "-" s with
  | [year; month; day] =>
      match decimal year, decimal month, decimal day with
      | Some y, Some m, Some d =>
          if Nat.leb 4 (String.length year) && Nat.eqb (String.length month) 2
             && Nat.eqb (String.length day) 2
             && (1 <=? m) && (m <=? 12) && (1 <=? d) && (d <=? DaysInMonth y m)
          then Some (MakeDay y m d) else None
      | _, _, _ => None
      end
  | _ => None
  end.

Lemma digit_not_hyphen (c : ascii) (v : Z) :
  digitZ c = Some v -> Ascii.eqb c "-" = false.
Proof.
  intros H. destruct (digitZ_spec c v H) as [Hv Hc].
  destruct (Ascii.eqb_spec c "-") as [-> | _]; [| reflexivity].
  cbn in Hc. lia.
Qed.

(** On the date-only strings with a year of four digits [calendar_day]
    is the day number [Date] gives them. *)
Lemma calendar_day_dayNumber (s : string) (a : Z) :
  dayNumber s = Some a -> calendar_day s = Some a.
Proof.
  unfold dayNumber. destruct (parseISODate s) as [[[y m] d]|] eqn:H; [| discriminate].
  intros Ha. injection Ha as <-.
  split_iso s H. subst.
  repeat match goal with
         | E : digitZ ?c = Some _ |- _ =>
             lazymatch goal with
             | _ : Ascii.eqb c "-" = false |- _ => fail
             | _ => pose proof (digit_not_hyphen _ _ E)
             end
         end.
  unfold calendar_day. cbn [ItinerariosView.split].
  repeat match goal with
         | Hh : Ascii.eqb _ "-" = false |- _ => rewrite Hh; clear Hh
         end.
  cbn [Ascii.eqb Bool.eqb decimal decimal_from String.length Nat.leb Nat.eqb andb].
  repeat match goal with
         | E : digitZ _ = Some _ |- _ => rewrite E; clear E
         end.
  cbn [decimal_from].
  repeat match goal with
         | |- context [10 * 0 + ?x] => replace (10 * 0 + x) with x by lia
         end.
  match goal with
  | V : _ && (_ <=? DaysInMonth ?yy _) = true
    |- context [DaysInMonth ?yy' _] =>
      replace yy' with yy by lia; now rewrite V
  end.
Qed.

End DateFacts.

(** ** Loading the collection *)

Section LoadFacts.
Import Js Itinerarios.

(** [getStorage] by cases on what the storage does. *)
Lemma getStorage_cases {A : Type} (ls : Utils.localStorage A) (key : string) (dflt : A) :
  Utils.getStorage ls key dflt =
  match Utils.getItem ls key with
  | Ok (Some (Utils.Json a)) => a
  | _ => dflt
  end.
Proof.
  unfold Utils.getStorage.
  destruct (Utils.getItem ls key) as [[[| raw | a]|]|msg]; reflexivity.
Qed.

(** C9. [cargarItinerarios()] always returns, and sets the in-memory
    collection: to the stored collection when the item under the key is
    read and parses; to the empty array when there is no item, when the
    item is the empty string, when it does not parse, and when reading
    the storage throws.  The rest of the state, the form and the storage
    are as before. *)
Theorem C9_cargarItinerarios_absorbs_failures (w : World) :
  (forall l, Utils.getItem (localStorage w) STORAGE_KEY = Ok (Some (Utils.Json l)) ->
             itinerarios (state (cargarItinerarios w)) = l)
  /\ (Utils.getItem (localStorage w) STORAGE_KEY = Ok None ->
      itinerarios (state (cargarItinerarios w)) = [])
  /\ (forall t msg, Utils.getItem (localStorage w) STORAGE_KEY = Ok (Some t) ->
                    Utils.JSON_parse t = Throw msg ->
                    itinerarios (state (cargarItinerarios w)) = [])
  /\ (forall msg, Utils.getItem (localStorage w) STORAGE_KEY = Throw msg ->
                  itinerarios (state (cargarItinerarios w)) = [])
  /\ filtroActual (state (cargarItinerarios w)) = filtroActual (state w)
  /\ busqueda (state (cargarItinerarios w)) = busqueda (state w)
  /\ editandoId (state (cargarItinerarios w)) = editandoId (state w)
  /\ eliminandoId (state (cargarItinerarios w)) = eliminandoId (state w)
  /\ inputs (cargarItinerarios w) = inputs w
  /\ errors (cargarItinerarios w) = errors w
  /\ localStorage (cargarItinerarios w) = localStorage w.
Proof.
  unfold cargarItinerarios. cbn. rewrite getStorage_cases.
  split; [intros l ->; reflexivity |].
  split; [intros ->; reflexivity |].
  split; [intros t msg -> Ht; destruct t; [reflexivity | reflexivity | discriminate] |].
  split; [intros msg ->; reflexivity |].
  repeat split.
Qed.

End LoadFacts.

(** ** The search history *)

Section HistoryFacts.
Import Js.

(** [filter] on a list that has at most one element failing the test
    drops at most one element, so the first [n] survivors are already
    among the first [n + 1] elements. *)
Definition at_most_one_out {A : Type} (p : A -> bool) (l : list A) : Prop :=
  forall i j x y, l !! i = Some x -> l !! j = Some y ->
                  p x = false -> p y = false -> i = j.

Lemma at_most_one_out_tail {A : Type} (p : A -> bool) (x : A) (l : list A) :
  at_most_one_out p (x :: l) -> at_most_one_out p l.
Proof.
  intros H i j a b Ha Hb Hpa Hpb.
  assert (S i = S j) by (apply (H (S i) (S j) a b); assumption). lia.
Qed.

Lemma filter_none_out {A : Type} (p : A -> bool) (l : list A) :
  (forall x, In x l -> p x = true) -> List.filter p l = l.
Proof.
  induction l as [|x l IH]; intros H; simpl; [reflexivity |].
  rewrite (H x (or_introl eq_refl)), IH; [reflexivity |].
  intros y Hy. apply H. now right.
Qed.

Lemma take_filter_take {A : Type} (p : A -> bool) (l : list A) (n : nat) :
  at_most_one_out p l ->
  take n (List.filter p (take (S n) l)) = take n (List.filter p l).
Proof.
  revert n. induction l as [|x l IH]; intros n Hone; [reflexivity |].
  cbn [take List.filter]. destruct (p x) eqn:Hx.
  - destruct n as [|m]; [reflexivity |]. cbn [take]. f_equal.
    apply IH. now apply at_most_one_out_tail in Hone.
  - assert (Hall : forall y, In y l -> p y = true).
    { intros y Hy. destruct (p y) eqn:Hy'; [reflexivity |].
      apply list_elem_of_In, list_elem_of_lookup in Hy. destruct Hy as [j Hj].
      assert (O = S j) by (apply (Hone O (S j) x y); auto). discriminate. }
    rewrite (filter_none_out p l Hall).
    rewrite filter_none_out.
    + apply take_idemp.
    + intros y Hy. apply Hall. apply list_elem_of_In in Hy.
      apply elem_of_take in Hy. destruct Hy as [i [Hi _]].
      apply list_elem_of_In, list_elem_of_lookup. eauto.
Qed.

(** [query.trim().toLowerCase()] *)
Definition normalize (query : string) : string := toLowerCase (trim query).

(** The callback of the [filter] in [saveSearchToHistory]. *)
Definition keeps_other (nq : string) (item : object) : bool :=
  negb (strict_eq_str (get item "query") nq).

(** The array [saveSearchToHistory] computes from the array it loaded. *)
Definition updated (nq : string) (t : Z) (h : list object) : list object :=
  take 10 (Main.entry nq t :: List.filter (keeps_other nq) h).

(** The history as specified.  A save is its normalized query and its
    time.  From the saves listed newest first, each query is kept at its
    newest save only, in that order; the history holds the first ten of
    them, as entries. *)
Fixpoint newest_first (saves : list (string * Z)) : list (string * Z) :=
  match saves with
  | [] => []
  | s :: older =>
      s :: List.filter (fun o => negb (String.eqb (fst o) (fst s))) (newest_first older)
  end.

Definition as_entry (s : string * Z) : object := Main.entry (fst s) (snd s).

Definition recent (saves : list (string * Z)) : list object :=
  take 10 (map as_entry (newest_first (rev saves))).

(** The saves that reached the storage, oldest first: those made while
    the storage refused neither reads nor writes. *)
Fixpoint written (blocked full : bool) (evs : list Main.event) : list (string * Z) :=
  match evs with
  | [] => []
  | Main.Save query t :: evs' =>
      (if negb blocked && negb full then [(normalize query, t)] else [])
      ++ written blocked full evs'
  | Main.StorageMood b f :: evs' => written b f evs'
  end.

Lemma entry_query (q : string) (t : Z) : get (Main.entry q t) "query" = VStr q.
Proof. unfold get, Main.entry. now rewrite lookup_insert_eq. Qed.

Lemma keeps_other_entry (nq : string) (s : string * Z) :
  keeps_other nq (as_entry s) = negb (String.eqb (fst s) nq).
Proof. unfold keeps_other, as_entry. now rewrite entry_query. Qed.

Lemma filter_as_entry (nq : string) (l : list (string * Z)) :
  List.filter (keeps_other nq) (map as_entry l)
  = map as_entry (List.filter (fun o => negb (String.eqb (fst o) nq)) l).
Proof.
  induction l as [|s l IH]; simpl; [reflexivity |].
  rewrite keeps_other_entry. destruct (negb _); simpl; now rewrite IH.
Qed.

Lemma newest_first_NoDup (l : list (string * Z)) : NoDup (map fst (newest_first l)).
Proof.
  induction l as [|s l IH]; simpl; constructor.
  - rewrite list_elem_of_In, in_map_iff. intros [o [Ho Hin]].
    apply filter_In in Hin. destruct Hin as [_ Hne].
    rewrite Ho, String.eqb_refl in Hne. discriminate.
  - clear -IH. induction (newest_first l) as [|o l' IH']; simpl; [constructor |].
    inversion IH as [|? ? Hnotin Hnd]; subst.
    destruct (negb _); simpl; [constructor |]; auto.
    rewrite list_elem_of_In, in_map_iff. intros [o' [Ho' Hin]].
    apply filter_In in Hin. destruct Hin as [Hin _].
    apply Hnotin. rewrite list_elem_of_In, in_map_iff. eauto.
Qed.

Lemma as_entry_one_out (nq : string) (l : list (string * Z)) :
  NoDup (map fst l) -> at_most_one_out (keeps_other nq) (map as_entry l).
Proof.
  intros Hnd i j x y Hx Hy Hpx Hpy.
  rewrite list_lookup_fmap in Hx, Hy.
  destruct (l !! i) as [a|] eqn:Ha; [| discriminate].
  destruct (l !! j) as [b|] eqn:Hb; [| discriminate].
  simpl in Hx, Hy. injection Hx as <-. injection Hy as <-.
  rewrite keeps_other_entry, negb_false_iff, String.eqb_eq in Hpx, Hpy.
  apply (NoDup_lookup (map fst l) i j nq Hnd).
  - rewrite list_lookup_fmap. change (fst <$> l !! i = Some nq). now rewrite Ha, <- Hpx.
  - rewrite list_lookup_fmap. change (fst <$> l !! j = Some nq). now rewrite Hb, <- Hpy.
Qed.

(** One more save: the array the code computes from the stored history
    is the specified history of the saves with that one added. *)
Lemma updated_recent (nq : string) (t : Z) (saves : list (string * Z)) :
  updated nq t (recent saves) = recent (saves ++ [(nq, t)]).
Proof.
  unfold updated, recent. rewrite rev_app_distr. simpl.
  rewrite <- filter_as_entry. f_equal.
  apply (take_filter_take (keeps_other nq) _ 9).
  apply as_entry_one_out, newest_first_NoDup.
Qed.

(** The specified history is written and read back as it is. *)
Lemma json_recent (saves : list (string * Z)) :
  List.map json_object (recent saves) = recent saves.
Proof.
  apply json_safe_array, Forall_forall. intros item Hin.
  apply list_elem_of_In in Hin. unfold recent in Hin.
  apply list_elem_of_In in Hin.
  pose proof (elem_of_sublist _ _ _ Hin (sublist_take _ _)) as H.
  apply list_elem_of_In, in_map_iff in H. destruct H as [[q t] [<- _]].
  exact (json_safe_entry q t).
Qed.

(** What the storage holds under [key] after the saves [saves] reached
    it: nothing before the first one, their specified history after. *)
Definition holds (ls : Utils.localStorage (list object)) (key : string)
  (saves : list (string * Z)) : Prop :=
  Utils.items ls !! key =
  match saves with
  | [] => None
  | _ => Some (Utils.Json (recent saves))
  end.

Lemma holds_load (ls : Utils.localStorage (list object)) (key : string)
  (saves : list (string * Z)) :
  holds ls key saves -> Utils.blocked ls = false ->
  Utils.getStorage ls key [] = recent saves
  /\ Utils.getItem ls key
     = Ok (match saves with [] => None | _ => Some (Utils.Json (recent saves)) end).
Proof.
  intros H Hb. rewrite getStorage_cases. unfold Utils.getItem. rewrite Hb, H.
  destruct saves; split; reflexivity.
Qed.

Lemma holds_snoc (ls : Utils.localStorage (list object)) (key : string)
  (saves : list (string * Z)) (s : string * Z) :
  holds {| Utils.items := <[key := Utils.Json (recent (saves ++ [s]))]> (Utils.items ls);
           Utils.blocked := Utils.blocked ls; Utils.full := Utils.full ls |}
        key (saves ++ [s]).
Proof.
  unfold holds. cbn [Utils.items]. rewrite lookup_insert_eq.
  destruct saves; reflexivity.
Qed.

(** The storage after one call of [saveSearchToHistory]: untouched when
    it refuses, and else the updated history under the key. *)
Lemma Main_save_storage (query : string) (t : Z) (w : Main.World) :
  Main.localStorage (Main.saveSearchToHistory query t w) =
  if Utils.blocked (Main.localStorage w) || Utils.full (Main.localStorage w)
  then Main.localStorage w
  else {| Utils.items :=
            <[Main.SEARCH_HISTORY :=
                Utils.Json (List.map json_object
                              (updated (normalize query) t
                                 (Utils.getStorage (Main.localStorage w)
                                                   Main.SEARCH_HISTORY [])))]>
              (Utils.items (Main.localStorage w));
          Utils.blocked := Utils.blocked (Main.localStorage w);
          Utils.full := Utils.full (Main.localStorage w) |}.
Proof.
  unfold Main.saveSearchToHistory, Utils.setStorage, Utils.setItem.
  destruct (Utils.blocked (Main.localStorage w)); [reflexivity |].
  destruct (Utils.full (Main.localStorage w)); reflexivity.
Qed.

Lemma MainInline_save_storage (query : string) (t : Z) (w : MainInline.World) :
  MainInline.localStorage (MainInline.step w (Main.Save query t)) =
  if Utils.blocked (MainInline.localStorage w) || Utils.full (MainInline.localStorage w)
  then MainInline.localStorage w
  else match Utils.items (MainInline.localStorage w) !! MainInline.KEY with
       | Some (Utils.Malformed _) => MainInline.localStorage w
       | item =>
           {| Utils.items :=
                <[MainInline.KEY :=
                    Utils.Json (List.map json_object
                                  (updated (normalize query) t
                                     (match item with
                                      | Some (Utils.Json h) => h
                                      | _ => []
                                      end)))]>
                  (Utils.items (MainInline.localStorage w));
              Utils.blocked := Utils.blocked (MainInline.localStorage w);
              Utils.full := Utils.full (MainInline.localStorage w) |}
       end.
Proof.
  cbn [MainInline.step].
  unfold MainInline.saveSearchToHistory, MainInline.loadHistory,
    Utils.getItem, Utils.setItem.
  destruct (Utils.blocked (MainInline.localStorage w)); [reflexivity |].
  cbn [bind orb].
  destruct (Utils.items (MainInline.localStorage w) !! MainInline.KEY)
    as [[| raw | h]|]; cbn;
    destruct (Utils.full (MainInline.localStorage w)); reflexivity.
Qed.

(** One event keeps the storage in step with the saves that reached it. *)
Lemma Main_step_holds (w : Main.World) (ev : Main.event) (saves : list (string * Z)) :
  holds (Main.localStorage w) Main.SEARCH_HISTORY saves ->
  holds (Main.localStorage (Main.step w ev)) Main.SEARCH_HISTORY
        (saves ++ written (Utils.blocked (Main.localStorage w))
                          (Utils.full (Main.localStorage w)) [ev]).
Proof.
  intros H. destruct ev as [query t | b f]; cbn [Main.step written].
  - rewrite Main_save_storage, app_nil_r.
    destruct (Utils.blocked (Main.localStorage w)) eqn:Hb;
      [now rewrite app_nil_r |].
    destruct (Utils.full (Main.localStorage w)) eqn:Hf;
      [now rewrite app_nil_r |].
    cbn [orb negb andb].
    destruct (holds_load _ _ _ H Hb) as [Hload _].
    rewrite Hload, updated_recent, json_recent.
    pose proof (holds_snoc (Main.localStorage w) Main.SEARCH_HISTORY saves
                           (normalize query, t)) as Hs.
    now rewrite Hb, Hf in Hs.
  - rewrite app_nil_r. exact H.
Qed.

Lemma MainInline_step_holds (w : MainInline.World) (ev : Main.event)
  (saves : list (string * Z)) :
  holds (MainInline.localStorage w) MainInline.KEY saves ->
  holds (MainInline.localStorage (MainInline.step w ev)) MainInline.KEY
        (saves ++ written (Utils.blocked (MainInline.localStorage w))
                          (Utils.full (MainInline.localStorage w)) [ev]).
Proof.
  intros H. destruct ev as [query t | b f]; cbn [written].
  - rewrite MainInline_save_storage, app_nil_r.
    destruct (Utils.blocked (MainInline.localStorage w)) eqn:Hb;
      [now rewrite app_nil_r |].
    destruct (Utils.full (MainInline.localStorage w)) eqn:Hf;
      [now rewrite app_nil_r |].
    cbn [orb negb andb].
    pose proof (holds_snoc (MainInline.localStorage w) MainInline.KEY saves
                           (normalize query, t)) as Hs.
    rewrite Hb, Hf in Hs. unfold holds in H. rewrite H.
    rewrite <- json_recent, <- updated_recent in Hs.
    destruct saves as [|s saves']; exact Hs.
  - rewrite app_nil_r. exact H.
Qed.

(** The storage refuses after an event as the event left it. *)
Lemma written_cons (b f : bool) (ev : Main.event) (evs : list Main.event) :
  written b f (ev :: evs)
  = (written b f [ev]
     ++ match ev with
        | Main.Save _ _ => written b f evs
        | Main.StorageMood b' f' => written b' f' evs
        end)%list.
Proof. destruct ev; simpl; now rewrite ?app_nil_r. Qed.

Lemma Main_step_mood (w : Main.World) (ev : Main.event) :
  (Utils.blocked (Main.localStorage (Main.step w ev)),
   Utils.full (Main.localStorage (Main.step w ev)))
  = match ev with
    | Main.Save _ _ =>
        (Utils.blocked (Main.localStorage w), Utils.full (Main.localStorage w))
    | Main.StorageMood b f => (b, f)
    end.
Proof.
  destruct ev as [query t | b f]; [| reflexivity].
  cbn [Main.step]. rewrite Main_save_storage.
  destruct (Utils.blocked (Main.localStorage w)) eqn:Hb,
    (Utils.full (Main.localStorage w)) eqn:Hf; cbn; now rewrite ?Hb, ?Hf.
Qed.

Lemma MainInline_step_mood (w : MainInline.World) (ev : Main.event) :
  (Utils.blocked (MainInline.localStorage (MainInline.step w ev)),
   Utils.full (MainInline.localStorage (MainInline.step w ev)))
  = match ev with
    | Main.Save _ _ =>
        (Utils.blocked (MainInline.localStorage w),
         Utils.full (MainInline.localStorage w))
    | Main.StorageMood b f => (b, f)
    end.
Proof.
  destruct ev as [query t | b f]; [| reflexivity].
  rewrite MainInline_save_storage.
  destruct (Utils.blocked (MainInline.localStorage w)) eqn:Hb,
    (Utils.full (MainInline.localStorage w)) eqn:Hf; cbn; rewrite ?Hb, ?Hf;
    try reflexivity.
  destruct (Utils.items _ !! _) as [[| raw | h]|]; cbn; now rewrite ?Hb, ?Hf.
Qed.

Lemma Main_run_holds (evs : list Main.event) :
  forall (w : Main.World) (saves : list (string * Z)),
    holds (Main.localStorage w) Main.SEARCH_HISTORY saves ->
    holds (Main.localStorage (Main.run w evs)) Main.SEARCH_HISTORY
          (saves ++ written (Utils.blocked (Main.localStorage w))
                            (Utils.full (Main.localStorage w)) evs).
Proof.
  unfold Main.run.
  induction evs as [|ev evs IH]; intros w saves H; cbn [fold_left].
  - cbn. now rewrite app_nil_r.
  - rewrite written_cons, app_assoc.
    pose proof (Main_step_holds w ev saves H) as Hstep.
    pose proof (Main_step_mood w ev) as Hmood.
    specialize (IH _ _ Hstep).
    destruct ev; apply pair_equal_spec in Hmood; destruct Hmood as [Hb Hf];
      rewrite Hb, Hf in IH; exact IH.
Qed.

Lemma MainInline_run_holds (evs : list Main.event) :
  forall (w : MainInline.World) (saves : list (string * Z)),
    holds (MainInline.localStorage w) MainInline.KEY saves ->
    holds (MainInline.localStorage (MainInline.run w evs)) MainInline.KEY
          (saves ++ written (Utils.blocked (MainInline.localStorage w))
                            (Utils.full (MainInline.localStorage w)) evs).
Proof.
  unfold MainInline.run.
  induction evs as [|ev evs IH]; intros w saves H; cbn [fold_left].
  - cbn. now rewrite app_nil_r.
  - rewrite written_cons, app_assoc.
    pose proof (MainInline_step_holds w ev saves H) as Hstep.
    pose proof (MainInline_step_mood w ev) as Hmood.
    specialize (IH _ _ Hstep).
    destruct ev; apply pair_equal_spec in Hmood; destruct Hmood as [Hb Hf];
      rewrite Hb, Hf in IH; exact IH.
Qed.

Lemma written_In (blocked full : bool) (evs : list Main.event) (nq : string) (t : Z) :
  In (nq, t) (written blocked full evs) ->
  exists query, nq = normalize query /\ In (Main.Save query t) evs.
Proof.
  revert blocked full. induction evs as [|ev evs IH]; intros b f H; [destruct H |].
  destruct ev as [query t' | b' f']; simpl in H.
  - apply in_app_or in H. destruct H as [H | H].
    + destruct (negb b && negb f); [| destruct H].
      destruct H as [H | []]. injection H as <- <-.
      exists query. split; [reflexivity | now left].
    + destruct (IH _ _ H) as [q [Hq Hin]]. exists q. split; [exact Hq | now right].
  - destruct (IH _ _ H) as [q [Hq Hin]]. exists q. split; [exact Hq | now right].
Qed.

Lemma newest_first_In (l : list (string * Z)) (s : string * Z) :
  In s (newest_first l) -> In s l.
Proof.
  induction l as [|x l IH]; simpl; [tauto |].
  intros [H | H]; [now left |]. apply filter_In in H. right. apply IH, H.
Qed.

Lemma recent_In (saves : list (string * Z)) (item : object) :
  In item (recent saves) -> exists s, In s saves /\ item = as_entry s.
Proof.
  unfold recent. intros H. apply list_elem_of_In in H.
  pose proof (elem_of_sublist _ _ _ H (sublist_take _ _)) as H'.
  apply list_elem_of_In, in_map_iff in H'. destruct H' as [s [Hs Hin]].
  exists s. split; [| now symmetry].
  apply newest_first_In in Hin. now apply in_rev.
Qed.

Lemma recent_queries_NoDup (saves : list (string * Z)) :
  NoDup (map (fun item => get item "query") (recent saves)).
Proof.
  unfold recent. rewrite firstn_map, map_map.
  rewrite (map_ext _ (fun s => VStr (fst s))) by (intros s; apply entry_query).
  rewrite <- (map_map fst VStr).
  assert (Hinj : Inj eq eq VStr) by (intros a b Hab; now injection Hab).
  apply (NoDup_fmap_2 VStr).
  rewrite <- firstn_map.
  apply (sublist_NoDup _ (map fst (newest_first (rev saves)))).
  - apply newest_first_NoDup.
  - apply sublist_take.
Qed.

(** C8. Start from a browser that holds no history, and let any calls of
    [saveSearchToHistory] and any changes of the storage's willingness
    follow.  The saves that reached the storage are those made while it
    accepted reads and writes.  In both versions of main.js the array
    persisted is then absent before the first such save and afterwards
    the specified history of those saves: newest first, each query at its
    newest save only, the first ten.  That array has at most ten entries;
    each is an object with exactly a [query], the normalized text of one
    of the saved queries, and a [timestamp], the ISO time of that save;
    no two entries have the same query; and the entry of the last save
    that reached the storage is at position 0. *)
Theorem C8_history_capped_unique_newest_first
  (blocked full : bool) (evs : list Main.event) :
  let saves := written blocked full evs in
  let stored := match saves with [] => None | _ => Some (recent saves) end in
  Main.persisted (Main.run (Main.fresh blocked full) evs) = stored
  /\ MainInline.persisted (MainInline.run (MainInline.fresh blocked full) evs) = stored
  /\ (List.length (recent saves) <= 10)%nat
  /\ (forall item, In item (recent saves) ->
        exists query t,
          In (Main.Save query t) evs
          /\ item = <["query" := VStr (toLowerCase (trim query))]>
                      (<["timestamp" := VStr (toISOString t)]> ∅))
  /\ NoDup (map (fun item => get item "query") (recent saves))
  /\ (forall older nq t, saves = (older ++ [(nq, t)])%list ->
        recent saves !! 0%nat
        = Some (<["query" := VStr nq]> (<["timestamp" := VStr (toISOString t)]> ∅))).
Proof.
  intros saves stored.
  split.
  { pose proof (Main_run_holds evs (Main.fresh blocked full) [] (lookup_empty _)) as H.
    unfold holds in H. cbn [app Main.fresh Main.localStorage Utils.blocked Utils.full] in H.
    unfold Main.persisted. rewrite H. subst stored saves.
    now destruct (written blocked full evs). }
  split.
  { pose proof (MainInline_run_holds evs (MainInline.fresh blocked full) []
                                     (lookup_empty _)) as H.
    unfold holds in H.
    cbn [app MainInline.fresh MainInline.localStorage Utils.blocked Utils.full] in H.
    unfold MainInline.persisted. rewrite H. subst stored saves.
    now destruct (written blocked full evs). }
  split; [unfold recent; rewrite length_take; lia |].
  split.
  { intros item Hin. apply recent_In in Hin. destruct Hin as [[nq t] [Hs ->]].
    apply written_In in Hs. destruct Hs as [query [-> Hev]].
    exists query, t. split; [exact Hev | reflexivity]. }
  split; [apply recent_queries_NoDup |].
  intros older nq t ->. unfold recent. now rewrite rev_app_distr.
Qed.

End HistoryFacts.

(** ** The page over time *)

Section PageFacts.
Import Js Itinerarios.

(** The record [crearItinerario] builds and the record [editarItinerario]
    puts in the place of [actual]. *)
Definition nuevo_de (datos : object) (t_id t_creado : Z) : object :=
  <["creadoEn" := VStr (toISOString t_creado)]>
    (spread {["id" := VStr ("it_" ++ toString16 t_id)]} datos).

Definition editado_de (actual datos : object) (t : Z) : object :=
  <["actualizadoEn" := VStr (toISOString t)]> (spread actual datos).

(** [handleGuardar] goes on to create a record: the form is valid and no
    record is being edited. *)
Definition creates (w : World) : bool :=
  fst (validarForm w) && negb (truthy_id (editandoId (state w))).

Lemma validarForm_frame (w : World) :
  state (snd (validarForm w)) = state w
  /\ inputs (snd (validarForm w)) = inputs w
  /\ localStorage (snd (validarForm w)) = localStorage w.
Proof. rewrite validarForm_eq. repeat split. Qed.

Lemma validarForm_dates (w : World) :
  fst (validarForm w) = true ->
  lt (input_fecha_fin (inputs w)) (input_fecha_inicio (inputs w)) = false.
Proof.
  rewrite validarForm_eq. cbn [fst].
  rewrite !andb_true_iff, negb_true_iff, orb_false_iff, andb_false_iff.
  intros [[_ Hi] [_ [Hi' | Hlt]]]; [congruence | exact Hlt].
Qed.

(** What [guardarItinerarios] leaves under the key: what was there, or
    the collection in memory as JSON writes it. *)
Lemma guardarItinerarios_items (w : World) :
  Utils.items (localStorage (guardarItinerarios w)) !! STORAGE_KEY
  = Utils.items (localStorage w) !! STORAGE_KEY
  \/ Utils.items (localStorage (guardarItinerarios w)) !! STORAGE_KEY
     = Some (Utils.Json (List.map json_object (itinerarios (state w)))).
Proof.
  unfold guardarItinerarios, Utils.setStorage, Utils.setItem.
  destruct (Utils.blocked (localStorage w)); [left; reflexivity |].
  destruct (Utils.full (localStorage w)); [left; reflexivity |].
  right. cbn. apply lookup_insert_eq.
Qed.

(** How one event changes the collection in memory. *)
Lemma step_collection (w : World) (ev : event) :
  itinerarios (state (step w ev)) = itinerarios (state w)
  \/ (exists i e, ev = Reload i e /\
        itinerarios (state (step w ev)) = Utils.getStorage (localStorage w) STORAGE_KEY [])
  \/ (exists t t', ev = ClickGuardar t t' /\ creates w = true /\
        itinerarios (state (step w ev))
        = nuevo_de (leerDatos (inputs w)) t t' :: itinerarios (state w))
  \/ (exists t t' index actual, ev = ClickGuardar t t' /\
        fst (validarForm w) = true /\
        itinerarios (state w) !! index = Some actual /\
        itinerarios (state (step w ev))
        = <[index := editado_de actual (leerDatos (inputs w)) t]> (itinerarios (state w)))
  \/ (exists id, ev = ClickConfirmEliminar /\
        itinerarios (state (step w ev))
        = List.filter (fun it => negb (strict_eq_str (get it "id") id))
                      (itinerarios (state w))).
Proof.
  destruct ev as [f | q | | id shown | id | i | t t' | | i e | b f]; cbn [step].
  - left. reflexivity.
  - left. reflexivity.
  - left. reflexivity.
  - left. unfold abrirFormEditar. now destruct (find _ _).
  - left. unfold abrirConfirmEliminar. now destruct (find _ _).
  - left. reflexivity.
  - unfold handleGuardar, creates.
    destruct (validarForm_frame w) as [Hst [Hin Hls]].
    destruct (validarForm w) as [valido w'] eqn:Hv. cbn [fst snd] in *.
    destruct valido; cbn [negb andb]; [| left; now rewrite Hst].
    rewrite Hin, Hst.
    assert (Hcrear :
      itinerarios (state (snd (crearItinerario (leerDatos (inputs w)) t t' w')))
      = nuevo_de (leerDatos (inputs w)) t t' :: itinerarios (state w)).
    { unfold crearItinerario, nuevo_de. cbn [snd]. rewrite guardarItinerarios_state.
      cbn [set_itinerarios set_state state itinerarios]. rewrite Hst. reflexivity. }
    destruct (editandoId (state w)) as [id|] eqn:Hed; cbn [truthy_id].
    + destruct (truthy_string id) eqn:Hid; cbn [negb].
      * unfold editarItinerario. rewrite Hst.
        destruct (findIndex _ _) as [index|]; [| left; cbn [snd]; now rewrite ?Hst].
        destruct (itinerarios (state w) !! index) as [actual|] eqn:Hact;
          [| left; cbn [snd]; now rewrite ?Hst].
        right. right. right. left. exists t, t', index, actual.
        cbn [snd]. rewrite guardarItinerarios_state.
        cbn [set_itinerarios set_state state itinerarios]. unfold editado_de.
        split; [reflexivity |]. split; [reflexivity |]. split; [exact Hact |].
        rewrite ?Hst. reflexivity.
      * right. right. left. exists t, t'.
        split; [reflexivity |]. split; [reflexivity | exact Hcrear].
    + right. right. left. exists t, t'.
      split; [reflexivity |]. split; [reflexivity | exact Hcrear].
  - unfold handleEliminar.
    destruct (eliminandoId (state w)) as [id|]; [| left; reflexivity].
    destruct (truthy_string id); [| left; reflexivity].
    right. right. right. right. exists id. split; [reflexivity |].
    unfold eliminarItinerario. cbn [set_eliminandoId set_state state itinerarios].
    rewrite guardarItinerarios_state. reflexivity.
  - right. left. exists i, e. split; reflexivity.
  - left. reflexivity.
Qed.

(** How one event changes what is stored under the key. *)
Lemma step_stored (w : World) (ev : event) :
  Utils.items (localStorage (step w ev)) !! STORAGE_KEY
  = Utils.items (localStorage w) !! STORAGE_KEY
  \/ Utils.items (localStorage (step w ev)) !! STORAGE_KEY
     = Some (Utils.Json (List.map json_object (itinerarios (state (step w ev))))).
Proof.
  destruct ev as [f | q | | id shown | id | i | t t' | | i e | b f]; cbn [step];
    try (left; reflexivity).
  - left. unfold abrirFormEditar. now destruct (find _ _).
  - left. unfold abrirConfirmEliminar. now destruct (find _ _).
  - unfold handleGuardar.
    destruct (validarForm_frame w) as [Hst [Hin Hls]].
    destruct (validarForm w) as [valido w'] eqn:Hv. cbn [fst snd] in *.
    destruct valido; cbn [negb]; [| left; now rewrite Hls].
    assert (Hcrear : forall datos,
      Utils.items (localStorage (snd (crearItinerario datos t t' w'))) !! STORAGE_KEY
      = Utils.items (localStorage w) !! STORAGE_KEY
      \/ Utils.items (localStorage (snd (crearItinerario datos t t' w'))) !! STORAGE_KEY
         = Some (Utils.Json (List.map json_object
                               (itinerarios (state (snd (crearItinerario datos t t' w'))))))).
    { intros datos. unfold crearItinerario. cbn [snd]. cbv zeta.
      rewrite guardarItinerarios_state.
      match goal with
      | |- context [guardarItinerarios ?w1] =>
          destruct (guardarItinerarios_items w1) as [H | H]
      end; [left | right; exact H].
      rewrite H. cbn [set_itinerarios set_state localStorage]. now rewrite Hls. }
    destruct (editandoId (state w')) as [id|]; [| apply Hcrear].
    destruct (truthy_string id); [| apply Hcrear].
    unfold editarItinerario.
    destruct (findIndex _ _) as [index|]; [| left; cbn [snd]; now rewrite ?Hls].
    destruct (itinerarios (state w') !! index) as [actual|];
      [| left; cbn [snd]; now rewrite ?Hls].
    cbn [snd]. rewrite guardarItinerarios_state.
    match goal with
    | |- context [guardarItinerarios ?w1] =>
        destruct (guardarItinerarios_items w1) as [H | H]
    end; [left | right; exact H].
    rewrite H. cbn [set_itinerarios set_state localStorage]. now rewrite Hls.
  - unfold handleEliminar.
    destruct (eliminandoId (state w)) as [id|]; [| left; reflexivity].
    destruct (truthy_string id); [| left; reflexivity].
    unfold eliminarItinerario. cbn [set_eliminandoId set_state localStorage state itinerarios].
    rewrite guardarItinerarios_state.
    match goal with
    | |- context [guardarItinerarios ?w1] =>
        destruct (guardarItinerarios_items w1) as [H | H]
    end; [left | right]; exact H.
Qed.

(** A property of collections holds of what is stored under the key. *)
Definition stored_ok (P : list object -> Prop) (w : World) : Prop :=
  forall l, Utils.items (localStorage w) !! STORAGE_KEY = Some (Utils.Json l) -> P l.

Lemma getStorage_ok (P : list object -> Prop) (w : World) :
  P [] -> stored_ok P w -> P (Utils.getStorage (localStorage w) STORAGE_KEY []).
Proof.
  intros Hnil Hst. rewrite getStorage_cases. unfold Utils.getItem.
  destruct (Utils.blocked (localStorage w)); [exact Hnil |].
  destruct (Utils.items (localStorage w) !! STORAGE_KEY) as [[| raw | l]|] eqn:Hl;
    auto.
Qed.

(** *** The dates of the records *)

(** The end date of a record is not before its start date, as strings. *)
Definition dates_ok (it : object) : Prop :=
  exists inicio fin,
    get it "fechaInicio" = VStr inicio /\ get it "fechaFin" = VStr fin
    /\ lt fin inicio = false.

Lemma leerDatos_fechas (i : Inputs) :
  leerDatos i !! "fechaInicio" = Some (VStr (input_fecha_inicio i))
  /\ leerDatos i !! "fechaFin" = Some (VStr (input_fecha_fin i)).
Proof. split; reflexivity. Qed.

(** A record built over the [datos] of a valid form has its dates in
    order, whatever it is spread over. *)
Lemma valid_datos_dates_ok (w : World) (base : object) (k0 : string) (v : value) :
  fst (validarForm w) = true ->
  k0 <> "fechaInicio" -> k0 <> "fechaFin" ->
  dates_ok (<[k0 := v]> (spread base (leerDatos (inputs w)))).
Proof.
  intros Hv H1 H2. apply validarForm_dates in Hv.
  destruct (leerDatos_fechas (inputs w)) as [Hi Hf].
  exists (input_fecha_inicio (inputs w)), (input_fecha_fin (inputs w)).
  unfold get. rewrite !insert_spread_lookup, Hi, Hf.
  destruct (String.eqb_spec "fechaInicio" k0); [congruence |].
  destruct (String.eqb_spec "fechaFin" k0); [congruence |].
  auto.
Qed.

Lemma Forall_filter_bool {A : Type} (P : A -> Prop) (p : A -> bool) (l : list A) :
  Forall P l -> Forall P (List.filter p l).
Proof.
  induction 1 as [|x l Hx Hl IH]; simpl; [constructor |].
  destruct (p x); [constructor |]; auto.
Qed.

(** A property of records that every record built over the [datos] of a
    valid form has is an invariant of the page. *)
Definition from_valid_form (Q : object -> Prop) : Prop :=
  forall (w : World) (base : object) (k0 : string) (v : value),
    fst (validarForm w) = true ->
    k0 = "creadoEn" \/ k0 = "actualizadoEn" ->
    Q (<[k0 := v]> (spread base (leerDatos (inputs w)))).

(** A property of records that survives the writing to JSON and the
    reading back. *)
Definition kept_by_json (Q : object -> Prop) : Prop :=
  forall it, Q it -> Q (json_object it).

Lemma Forall_json (Q : object -> Prop) (l : list object) :
  kept_by_json Q -> Forall Q l -> Forall Q (List.map json_object l).
Proof.
  intros HQ. induction 1 as [|it l Hit Hl IH]; cbn [List.map]; constructor; auto.
Qed.

Lemma step_records_ok (Q : object -> Prop) (w : World) (ev : event) :
  from_valid_form Q -> kept_by_json Q ->
  Forall Q (itinerarios (state w)) -> stored_ok (Forall Q) w ->
  Forall Q (itinerarios (state (step w ev))) /\ stored_ok (Forall Q) (step w ev).
Proof.
  intros HQ HJ Hmem Hsto.
  assert (Hmem' : Forall Q (itinerarios (state (step w ev)))).
  { destruct (step_collection w ev)
      as [H | [[i [e [_ H]]] | [[t [t' [_ [Hc H]]]] | [[t [t' [ix [act [_ [Hv [Hact H]]]]]]]
                                                     | [id [_ H]]]]]];
      rewrite H.
    - exact Hmem.
    - apply getStorage_ok; [constructor | exact Hsto].
    - constructor; [| exact Hmem].
      unfold creates in Hc. apply andb_true_iff in Hc. destruct Hc as [Hv _].
      apply HQ; [exact Hv | now left].
    - apply Forall_insert; [exact Hmem |].
      apply HQ; [exact Hv | now right].
    - now apply Forall_filter_bool. }
  split; [exact Hmem' |].
  intros l Hl. destruct (step_stored w ev) as [H | H]; rewrite H in Hl.
  - now apply Hsto.
  - injection Hl as <-. now apply Forall_json.
Qed.

Lemma run_records_ok (Q : object -> Prop) (evs : list event) :
  from_valid_form Q -> kept_by_json Q ->
  forall w, Forall Q (itinerarios (state w)) -> stored_ok (Forall Q) w ->
            Forall Q (itinerarios (state (run w evs)))
            /\ stored_ok (Forall Q) (run w evs).
Proof.
  intros HQ HJ. unfold run.
  induction evs as [|ev evs IH]; intros w Hmem Hsto; cbn [fold_left].
  - split; assumption.
  - destruct (step_records_ok Q w ev HQ HJ Hmem Hsto) as [Hmem' Hsto']. now apply IH.
Qed.

(** From a browser that never stored a collection, the property holds of
    every record in memory and in the storage. *)
Lemma reachable_records_ok (Q : object -> Prop)
  (i : Inputs) (e : Errors) (blocked full : bool) (evs : list event) :
  from_valid_form Q -> kept_by_json Q ->
  Forall Q (itinerarios (state (run (init i e (fresh_storage blocked full)) evs)))
  /\ stored_ok (Forall Q) (run (init i e (fresh_storage blocked full)) evs).
Proof.
  intros HQ HJ. apply run_records_ok; [exact HQ | exact HJ | |].
  - unfold init, cargarItinerarios. cbn [set_itinerarios set_state state itinerarios].
    apply getStorage_ok; [constructor |]. intros l Hl. discriminate Hl.
  - intros l Hl. discriminate Hl.
Qed.

Lemma dates_ok_from_valid_form : from_valid_form dates_ok.
Proof.
  intros w base k0 v Hv [-> | ->];
    (apply valid_datos_dates_ok; [exact Hv | discriminate | discriminate]).
Qed.

Lemma dates_ok_json : kept_by_json dates_ok.
Proof.
  intros it [inicio [fin [Hi [Hf Hlt]]]]. exists inicio, fin.
  split; [now apply json_get_str |]. split; [now apply json_get_str | exact Hlt].
Qed.

(** The calendar reading of the invariant.  [calendar_order] is the
    invariant as the claim words it: the end date, as a calendar day,
    is not before the start date.  [calendar_ok] restricts it to the
    records whose two dates are date-only strings with a year of four
    digits. *)
Definition calendar_order (it : object) : Prop :=
  forall inicio fin a b,
    get it "fechaInicio" = VStr inicio -> get it "fechaFin" = VStr fin ->
    calendar_day inicio = Some a -> calendar_day fin = Some b -> a <= b.

Definition calendar_ok (it : object) : Prop :=
  forall inicio fin a b,
    get it "fechaInicio" = VStr inicio -> get it "fechaFin" = VStr fin ->
    dayNumber inicio = Some a -> dayNumber fin = Some b ->
    calendar_day inicio = Some a /\ calendar_day fin = Some b /\ a <= b.

Lemma dates_ok_calendar_ok (it : object) : dates_ok it -> calendar_ok it.
Proof.
  intros [inicio [fin [Hi [Hf Hlt]]]] inicio' fin' a b Hi' Hf' Ha Hb.
  rewrite Hi in Hi'. rewrite Hf in Hf'. injection Hi' as <-. injection Hf' as <-.
  split; [now apply calendar_day_dayNumber |].
  split; [now apply calendar_day_dayNumber |].
  exact (iso_order inicio fin a b Ha Hb Hlt).
Qed.

(** C5, as amended. Load the page in a browser that never stored a
    collection, and let any events follow: filter and search input,
    opening the form for a new or an existing record, typing into the
    form, saving (which creates or edits), confirming a deletion,
    reloading the page, the storage starting or ceasing to refuse.  Then
    every record in memory, and every record of the collection stored
    under the key, has an end date that is not smaller than its start
    date in the order of strings, the order [validarForm] tests; and
    whenever the two dates of a record are date-only strings with a year
    of four digits, the end date is not before the start date in the
    calendar. *)
Theorem C5_fechaFin_not_before_fechaInicio
  (i : Inputs) (e : Errors) (blocked full : bool) (evs : list event) :
  Forall dates_ok (itinerarios (state (run (init i e (fresh_storage blocked full)) evs)))
  /\ Forall calendar_ok
            (itinerarios (state (run (init i e (fresh_storage blocked full)) evs)))
  /\ (forall l,
        Utils.items (localStorage (run (init i e (fresh_storage blocked full)) evs))
          !! STORAGE_KEY = Some (Utils.Json l) ->
        Forall dates_ok l /\ Forall calendar_ok l).
Proof.
  destruct (reachable_records_ok dates_ok i e blocked full evs
              dates_ok_from_valid_form dates_ok_json) as [Hmem Hsto].
  split; [exact Hmem |].
  split; [apply (Forall_impl _ _ _ Hmem), dates_ok_calendar_ok |].
  intros l Hl. specialize (Hsto l Hl).
  split; [exact Hsto | apply (Forall_impl _ _ _ Hsto), dates_ok_calendar_ok].
Qed.

(** *** The ids of the records *)

(** The id [crearItinerario] assigns at the clock reading [t]. *)
Definition make_id (t : Z) : string := "it_" ++ toString16 t.

Definition id_of (it : object) : value := get it "id".

Lemma hex_parse (n : N) :
  NilZero.uint_of_string (NilZero.string_of_uint (N.to_hex_uint n))
  = Some (N.to_hex_uint n).
Proof.
  apply NilZero.usu. destruct n as [|p]; [discriminate |].
  apply HexadecimalPos.Unsigned.to_uint_nonnil.
Qed.

Lemma hex_inj (a b : N) :
  NilZero.string_of_uint (N.to_hex_uint a) = NilZero.string_of_uint (N.to_hex_uint b) ->
  a = b.
Proof.
  intros H. apply (f_equal NilZero.uint_of_string) in H.
  rewrite !hex_parse in H. injection H as H.
  now apply HexadecimalN.Unsigned.to_uint_inj.
Qed.

Lemma minus_not_hex (s : string) : NilZero.uint_of_string ("-" ++ s) = None.
Proof.
  change (uint_of_char "-" (NilEmpty.uint_of_string s) = None).
  destruct (NilEmpty.uint_of_string s); reflexivity.
Qed.

(** [toString(16)] gives different integers different strings. *)
Lemma toString16_inj (a b : Z) : toString16 a = toString16 b -> a = b.
Proof.
  unfold toString16.
  destruct (Z.ltb_spec a 0) as [Ha | Ha], (Z.ltb_spec b 0) as [Hb | Hb]; intros H.
  - injection H as H. apply hex_inj in H. lia.
  - apply (f_equal NilZero.uint_of_string) in H.
    rewrite minus_not_hex, hex_parse in H. discriminate.
  - apply (f_equal NilZero.uint_of_string) in H.
    rewrite minus_not_hex, hex_parse in H. discriminate.
  - apply hex_inj in H. lia.
Qed.

Lemma make_id_inj (a b : Z) : make_id a = make_id b -> a = b.
Proof. unfold make_id. intros H. injection H as H. now apply toString16_inj. Qed.

(** The clock readings [Date.now()] of the events that create a record,
    in order, when the events [evs] follow the world [w]. *)
Fixpoint creation_times (w : World) (evs : list event) : list Z :=
  match evs with
  | [] => []
  | ev :: evs' =>
      match ev with
      | ClickGuardar t _ => if creates w then [t] else []
      | _ => []
      end ++ creation_times (step w ev) evs'
  end.

(** The ids of a collection are pairwise distinct, and each was assigned
    at one of the clock readings [times]. *)
Definition ids_ok (times : list Z) (l : list object) : Prop :=
  NoDup (map id_of l)
  /\ forall it, In it l -> exists t, In t times /\ id_of it = VStr (make_id t).

Lemma ids_ok_more (times more : list Z) (l : list object) :
  ids_ok times l -> ids_ok (times ++ more) l.
Proof.
  intros [Hnd Hin]. split; [exact Hnd |].
  intros it Hit. destruct (Hin it Hit) as [t [Ht Hid]].
  exists t. split; [apply in_or_app; now left | exact Hid].
Qed.

Lemma leerDatos_no_id (i : Inputs) : leerDatos i !! "id" = None.
Proof. reflexivity. Qed.

Lemma nuevo_de_id (i : Inputs) (t t' : Z) :
  id_of (nuevo_de (leerDatos i) t t') = VStr (make_id t).
Proof.
  unfold id_of, get, nuevo_de. rewrite insert_spread_lookup, leerDatos_no_id.
  cbn [String.eqb]. now rewrite lookup_singleton_eq.
Qed.

Lemma editado_de_id (actual : object) (i : Inputs) (t : Z) :
  id_of (editado_de actual (leerDatos i) t) = id_of actual.
Proof.
  unfold id_of, get, editado_de. now rewrite insert_spread_lookup, leerDatos_no_id.
Qed.

Lemma ids_ok_filter (times : list Z) (p : object -> bool) (l : list object) :
  ids_ok times l -> ids_ok times (List.filter p l).
Proof.
  intros [Hnd Hin]. split.
  - apply (sublist_NoDup _ (map id_of l)); [exact Hnd |].
    clear. induction l as [|x l IH]; simpl; [constructor |].
    destruct (p x); simpl; now constructor.
  - intros it Hit. apply filter_In in Hit. now apply Hin.
Qed.

Lemma ids_ok_insert (times : list Z) (l : list object) (index : nat)
  (actual editado : object) :
  l !! index = Some actual -> id_of editado = id_of actual ->
  ids_ok times l -> ids_ok times (<[index := editado]> l).
Proof.
  intros Hact Hid [Hnd Hin].
  assert (Hmap : map id_of (<[index := editado]> l) = map id_of l).
  { change (id_of <$> <[index := editado]> l = id_of <$> l).
    rewrite list_fmap_insert, Hid. apply list_insert_id.
    now rewrite list_lookup_fmap, Hact. }
  split; [now rewrite Hmap |].
  intros it Hit. apply list_elem_of_In, list_elem_of_lookup in Hit.
  destruct Hit as [j Hj].
  destruct (Nat.eq_dec index j) as [<- | Hne].
  - rewrite list_lookup_insert_eq in Hj by (now apply lookup_lt_Some in Hact).
    injection Hj as <-. rewrite Hid.
    apply Hin, list_elem_of_In, list_elem_of_lookup. eauto.
  - rewrite list_lookup_insert_ne in Hj by exact Hne.
    apply Hin, list_elem_of_In, list_elem_of_lookup. eauto.
Qed.

Lemma ids_ok_cons (times : list Z) (l : list object) (nuevo : object) (t : Z) :
  id_of nuevo = VStr (make_id t) -> ~ In t times ->
  ids_ok times l -> ids_ok (times ++ [t]) (nuevo :: l).
Proof.
  intros Hid Hfresh [Hnd Hin]. split.
  - cbn [map]. constructor; [| exact Hnd].
    rewrite list_elem_of_In, in_map_iff. intros [it [Hit Hl]].
    destruct (Hin it Hl) as [t0 [Ht0 Hid0]].
    rewrite Hid0, Hid in Hit.
    assert (Hm : make_id t0 = make_id t) by congruence.
    apply make_id_inj in Hm. congruence.
  - intros it [<- | Hit].
    + exists t. split; [apply in_or_app; right; now left | exact Hid].
    + destruct (Hin it Hit) as [t0 [Ht0 Hid0]].
      exists t0. split; [apply in_or_app; now left | exact Hid0].
Qed.

Lemma ids_ok_json (times : list Z) (l : list object) :
  ids_ok times l -> ids_ok times (List.map json_object l).
Proof.
  intros [Hnd Hin].
  assert (Hid : forall it, In it l -> id_of (json_object it) = id_of it).
  { intros it Hit. destruct (Hin it Hit) as [t [_ Ht]].
    unfold id_of in *. rewrite Ht. now apply json_get_str. }
  split.
  - rewrite map_map. rewrite (map_ext_in _ id_of) by exact Hid. exact Hnd.
  - intros it' Hit'. apply in_map_iff in Hit'. destruct Hit' as [it [<- Hit]].
    rewrite (Hid it Hit). now apply Hin.
Qed.

Lemma creation_times_one (w : World) (ev : event) :
  creation_times w [ev]
  = match ev with
    | ClickGuardar t _ => if creates w then [t] else []
    | _ => []
    end.
Proof. cbn. apply app_nil_r. Qed.

Lemma step_ids_ok (w : World) (ev : event) (times : list Z) :
  NoDup (times ++ creation_times w [ev]) ->
  ids_ok times (itinerarios (state w)) -> stored_ok (ids_ok times) w ->
  ids_ok (times ++ creation_times w [ev]) (itinerarios (state (step w ev)))
  /\ stored_ok (ids_ok (times ++ creation_times w [ev])) (step w ev).
Proof.
  intros Hnd Hmem Hsto. rewrite creation_times_one in *.
  assert (Hmem' : ids_ok (times ++ match ev with
                                   | ClickGuardar t _ => if creates w then [t] else []
                                   | _ => []
                                   end)
                         (itinerarios (state (step w ev)))).
  { destruct (step_collection w ev)
      as [H | [[i [e [_ H]]] | [[t [t' [Hev [Hc H]]]] | [[t [t' [ix [act [_ [Hv [Hact H]]]]]]]
                                                       | [id [_ H]]]]]];
      rewrite H.
    - now apply ids_ok_more.
    - apply ids_ok_more. apply (getStorage_ok (ids_ok times)); [| exact Hsto].
      split; [constructor | intros it []].
    - subst ev. rewrite Hc in *. apply ids_ok_cons; [apply nuevo_de_id | | exact Hmem].
      apply NoDup_app in Hnd. destruct Hnd as [_ [Hdisj _]].
      intros Hin. apply (Hdisj t); [now apply list_elem_of_In | left].
    - apply ids_ok_more. eapply ids_ok_insert; [exact Hact | apply editado_de_id | exact Hmem].
    - apply ids_ok_more. now apply ids_ok_filter. }
  split; [exact Hmem' |].
  intros l Hl. destruct (step_stored w ev) as [H | H]; rewrite H in Hl.
  - apply ids_ok_more. now apply Hsto.
  - injection Hl as <-. now apply ids_ok_json.
Qed.

Lemma run_ids_ok (evs : list event) :
  forall (w : World) (times : list Z),
    NoDup (times ++ creation_times w evs) ->
    ids_ok times (itinerarios (state w)) -> stored_ok (ids_ok times) w ->
    ids_ok (times ++ creation_times w evs) (itinerarios (state (run w evs))).
Proof.
  unfold run. induction evs as [|ev evs IH]; intros w times Hnd Hmem Hsto.
  - cbn. now rewrite app_nil_r.
  - cbn [fold_left].
    assert (Hsplit : creation_times w (ev :: evs)
                     = (creation_times w [ev] ++ creation_times (step w ev) evs)%list).
    { rewrite creation_times_one. reflexivity. }
    rewrite Hsplit, app_assoc in *.
    destruct (step_ids_ok w ev times) as [Hmem' Hsto']; [| exact Hmem | exact Hsto |].
    + apply NoDup_app in Hnd. tauto.
    + now apply IH.
Qed.

Lemma make_ids_NoDup (times : list Z) : NoDup times -> NoDup (map make_id times).
Proof.
  intros H. apply (NoDup_fmap_2_strong make_id); [| exact H].
  intros a b _ _. apply make_id_inj.
Qed.

(** C7, as amended. Load the page in a browser that never stored a
    collection and let any events follow.  If no two of the events that
    create a record read the same [Date.now()], then the ids of the
    records in memory are pairwise distinct, each is ["it_"] followed by
    the hexadecimal clock reading of the creation that assigned it, and
    no two creations assigned the same id. *)
Theorem C7_ids_distinct_for_distinct_clock_readings
  (i : Inputs) (e : Errors) (blocked full : bool) (evs : list event) :
  NoDup (creation_times (init i e (fresh_storage blocked full)) evs) ->
  NoDup (map id_of (itinerarios (state (run (init i e (fresh_storage blocked full)) evs))))
  /\ (forall it,
        In it (itinerarios (state (run (init i e (fresh_storage blocked full)) evs))) ->
        exists t, In t (creation_times (init i e (fresh_storage blocked full)) evs)
                  /\ get it "id" = VStr ("it_" ++ toString16 t))
  /\ NoDup (map make_id (creation_times (init i e (fresh_storage blocked full)) evs)).
Proof.
  intros Hnd.
  destruct (run_ids_ok evs (init i e (fresh_storage blocked full)) [] Hnd) as [H1 H2].
  - unfold init, cargarItinerarios. cbn [set_itinerarios set_state state itinerarios].
    apply (getStorage_ok (ids_ok [])).
    + split; [constructor | intros it []].
    + intros l Hl. discriminate Hl.
  - intros l Hl. discriminate Hl.
  - split; [exact H1 |]. split; [exact H2 |]. now apply make_ids_NoDup.
Qed.

(** Two trips saved one after the other, the second a millisecond later. *)
Definition sin_errores : Errors :=
  {| fg_nombre := false; fg_destino := false;
     fg_fecha_inicio := false; fg_fecha_fin := false |}.

Lemma C7_witness :
  NoDup (creation_times (init form_budget_cero sin_errores (fresh_storage false false))
                        [ClickGuardar 1772323200000 1772323200000;
                         ClickGuardar 1772323200001 1772323200001])
  /\ NoDup (map id_of
              (itinerarios
                 (state (run (init form_budget_cero sin_errores (fresh_storage false false))
                             [ClickGuardar 1772323200000 1772323200000;
                              ClickGuardar 1772323200001 1772323200001])))).
Proof.
  assert (H : NoDup (creation_times
                       (init form_budget_cero sin_errores (fresh_storage false false))
                       [ClickGuardar 1772323200000 1772323200000;
                        ClickGuardar 1772323200001 1772323200001])).
  { apply (bool_decide_unpack _). vm_compute. exact I. }
  split; [exact H |].
  exact (proj1 (C7_ids_distinct_for_distinct_clock_readings
                  form_budget_cero sin_errores false false _ H)).
Defined.

(** C7, as stated, fails: two records created at the same clock reading
    get the same id. *)
Lemma C7_same_clock_reading_same_id :
  map id_of
      (itinerarios
         (state (run (init form_budget_cero sin_errores (fresh_storage false false))
                     [ClickGuardar 1772323200000 1772323200000;
                      ClickGuardar 1772323200000 1772323200000])))
  = [VStr "it_19ca6b1dc00"; VStr "it_19ca6b1dc00"]
  /\ ~ NoDup (map id_of
                 (itinerarios
                    (state (run (init form_budget_cero sin_errores
                                      (fresh_storage false false))
                                [ClickGuardar 1772323200000 1772323200000;
                                 ClickGuardar 1772323200000 1772323200000])))).
Proof.
  assert (H : map id_of
      (itinerarios
         (state (run (init form_budget_cero sin_errores (fresh_storage false false))
                     [ClickGuardar 1772323200000 1772323200000;
                      ClickGuardar 1772323200000 1772323200000])))
    = [VStr "it_19ca6b1dc00"; VStr "it_19ca6b1dc00"]) by (vm_compute; reflexivity).
  split; [exact H |]. rewrite H. intros Hnd.
  apply NoDup_cons in Hnd. destruct Hnd as [Hnotin _].
  apply Hnotin. left.
Qed.

(** A valid form whose start date has a year of five digits. *)
Definition form_year_10000 : Inputs :=
  {| input_nombre := "Crucero"; input_destino := "Lisboa";
     input_fecha_inicio := "10000-01-01"; input_fecha_fin := "9999-12-31";
     input_estado := "planificando"; input_budget := ""; input_notas := "" |}.

(** C5, as stated, fails: [validarForm] compares the two dates as
    strings, and "9999-12-31" is not smaller than "10000-01-01".  The
    form is accepted and the record is stored with an end date that is a
    day before its start date. *)
Lemma C5_end_before_start_with_a_five_digit_year :
  fst (validarForm (init form_year_10000 sin_errores (fresh_storage false false))) = true
  /\ map (fun it => (get it "fechaInicio", get it "fechaFin"))
         (itinerarios
            (state (run (init form_year_10000 sin_errores (fresh_storage false false))
                        [ClickGuardar 1772323200000 1772323200000])))
     = [(VStr "10000-01-01", VStr "9999-12-31")]
  /\ calendar_day "10000-01-01" = Some 2932897
  /\ calendar_day "9999-12-31" = Some 2932896
  /\ ~ Forall calendar_order
         (itinerarios
            (state (run (init form_year_10000 sin_errores (fresh_storage false false))
                        [ClickGuardar 1772323200000 1772323200000]))).
Proof.
  assert (Hi : calendar_day "10000-01-01" = Some 2932897) by (vm_compute; reflexivity).
  assert (Hf : calendar_day "9999-12-31" = Some 2932896) by (vm_compute; reflexivity).
  assert (Hmap : map (fun it => (get it "fechaInicio", get it "fechaFin"))
                     (itinerarios
                        (state (run (init form_year_10000 sin_errores
                                          (fresh_storage false false))
                                    [ClickGuardar 1772323200000 1772323200000])))
                 = [(VStr "10000-01-01", VStr "9999-12-31")])
    by (vm_compute; reflexivity).
  split; [vm_compute; reflexivity |].
  split; [exact Hmap |].
  split; [exact Hi |]. split; [exact Hf |].
  revert Hmap.
  generalize (itinerarios
                (state (run (init form_year_10000 sin_errores (fresh_storage false false))
                            [ClickGuardar 1772323200000 1772323200000]))).
  intros l Hmap Hall.
  destruct l as [|it l]; [discriminate Hmap |].
  cbn [map] in Hmap. injection Hmap as Hgi Hgf _.
  apply Forall_cons in Hall. destruct Hall as [Hit _].
  pose proof (Hit _ _ _ _ Hgi Hgf Hi Hf) as Hle. lia.
Qed.

End PageFacts.

(** ** The projection, on any collection and on the page's *)

Section ProjectionOnThePage.
Import Js Itinerarios.

Lemma has_texts_json : kept_by_json has_texts.
Proof.
  intros it [d [n [Hd Hn]]]. exists d, n.
  split; now apply json_get_str.
Qed.

Lemma has_texts_from_valid_form : from_valid_form has_texts.
Proof.
  intros w base k0 v _ Hk0.
  exists (trim (input_destino (inputs w))), (trim (input_nombre (inputs w))).
  unfold get. rewrite !insert_spread_lookup.
  destruct Hk0 as [-> | ->]; split; reflexivity.
Qed.

(** C2. On every collection whose records carry a destination and a
    name, for every status filter and search term, the projection returns
    the source collection filtered by one test, and that test holds of a
    record exactly when (the status filter is "todos" or equals the
    record's status) and (the search term is empty after trimming, or the
    destination or the name contains the term as a substring, letter case
    aside).  So a record is in the result iff it is in the collection and
    passes both; the result is a subsequence of the collection, in its
    order; and the world after the call is the world before it.  Every
    collection the page can reach from an empty store is of that kind. *)
Theorem C2_projection_retains_iff :
  (forall w : World,
     Forall has_texts (itinerarios (state w)) ->
     exists (lista : list object) (keep : object -> bool),
       getItinerariosFiltrados w = (Ok lista, w)
       /\ lista = List.filter keep (itinerarios (state w))
       /\ (forall it, In it (itinerarios (state w)) ->
             (keep it = true <-> retained (filtroActual (state w)) (busqueda (state w)) it))
       /\ (forall it, In it lista <->
             In it (itinerarios (state w))
             /\ retained (filtroActual (state w)) (busqueda (state w)) it)
       /\ sublist lista (itinerarios (state w)))
  /\ (forall (i : Inputs) (e : Errors) (blocked full : bool) (evs : list event),
        Forall has_texts
               (itinerarios (state (run (init i e (fresh_storage blocked full)) evs)))).
Proof.
  split; [exact projection_retains_iff |].
  intros i e blocked full evs.
  apply reachable_records_ok; [apply has_texts_from_valid_form | apply has_texts_json].
Qed.

(** C10. When the search input is not blank, the projection keeps a
    record iff it is in the collection, passes the status filter, and its
    lower-cased destination or its lower-cased name contains the
    lower-cased input as typed, white space included.  The trimmed input
    only decides whether the search step runs: among two trips, the input
    "tokyo" finds the trip to Tokyo and the input "tokyo " (with a
    trailing space) finds nothing, though both trim to the same term. *)
Theorem C10_search_matches_untrimmed :
  (forall w : World,
     Forall has_texts (itinerarios (state w)) ->
     trim (busqueda (state w)) <> "" ->
     exists lista : list object,
       getItinerariosFiltrados w = (Ok lista, w)
       /\ forall it, In it lista <->
            In it (itinerarios (state w))
            /\ (filtroActual (state w) = "todos"
                \/ get it "estado" = VStr (filtroActual (state w)))
            /\ exists d n, get it "destino" = VStr d /\ get it "nombre" = VStr n
                /\ ((exists pre post,
                       toLowerCase d = pre ++ toLowerCase (busqueda (state w)) ++ post)
                    \/ (exists pre post,
                       toLowerCase n = pre ++ toLowerCase (busqueda (state w)) ++ post)))
  /\ trim "tokyo " = trim "tokyo"
  /\ fst (getItinerariosFiltrados (mundo_filtrado dos_viajes "todos" "tokyo"))
     = Ok [viaje "it_2" "Templos" "Tokyo" "2026-05-10" "2026-05-20" "planificando"]
  /\ fst (getItinerariosFiltrados (mundo_filtrado dos_viajes "todos" "tokyo "))
     = Ok [].
Proof.
  split; [exact search_matches_untrimmed |]. repeat split.
Qed.

End ProjectionOnThePage.

(** ** The theorems with hypotheses, at concrete inputs *)

Section Witnesses.
Import Js Itinerarios.

(** C1 on [dos_viajes]: no record has the id "it_9"; the record "it_2"
    is edited with a payload that only sets the status. *)
Lemma C1_witness :
  editarItinerario "it_9" {["estado" := VStr "confirmado"]} 1772323200000 (mundo dos_viajes)
  = (false, mundo dos_viajes)
  /\ exists (index : nat) (actual editado : object),
       dos_viajes !! index = Some actual
       /\ fst (editarItinerario "it_2" {["estado" := VStr "confirmado"]} 1772323200000
                                (mundo dos_viajes)) = true
       /\ itinerarios (state (snd (editarItinerario "it_2" {["estado" := VStr "confirmado"]}
                                                    1772323200000 (mundo dos_viajes))))
          = <[index := editado]> dos_viajes
       /\ get editado "estado" = VStr "confirmado"
       /\ get editado "nombre" = get actual "nombre"
       /\ get editado "destino" = get actual "destino"
       /\ get editado "fechaInicio" = get actual "fechaInicio"
       /\ get editado "fechaFin" = get actual "fechaFin".
Proof.
  pose proof (C1_editarItinerario_merges "it_9" {["estado" := VStr "confirmado"]}
                1772323200000 (mundo dos_viajes)) as [Hnone _].
  pose proof (C1_editarItinerario_merges "it_2" {["estado" := VStr "confirmado"]}
                1772323200000 (mundo dos_viajes)) as [_ Hsome].
  split.
  - apply Hnone. intros it [<- | [<- | []]]; vm_compute; discriminate.
  - destruct Hsome as [index [actual [editado H]]].
    { exists (viaje "it_2" "Templos" "Tokyo" "2026-05-10" "2026-05-20" "planificando").
      split; [right; left; reflexivity | reflexivity]. }
    destruct H as [Hact [_ [_ [Hret [Hcol [Hdatos [_ [_ [Hkeep _]]]]]]]]].
    exists index, actual, editado.
    split; [exact Hact |]. split; [exact Hret |]. split; [exact Hcol |].
    split.
    { unfold get. rewrite (Hdatos "estado" (VStr "confirmado"));
        [reflexivity | discriminate | reflexivity]. }
    repeat split; apply Hkeep; try reflexivity; simpl; tauto.
Defined.

(** C2 on [dos_viajes], filtered by status "planificando" and searched
    for "TOKYO". *)
Lemma C2_witness :
  Forall has_texts (itinerarios (state (mundo_filtrado dos_viajes "planificando" "TOKYO")))
  /\ exists (lista : list object) (keep : object -> bool),
       getItinerariosFiltrados (mundo_filtrado dos_viajes "planificando" "TOKYO")
       = (Ok lista, mundo_filtrado dos_viajes "planificando" "TOKYO")
       /\ lista = List.filter keep dos_viajes
       /\ (forall it, In it dos_viajes ->
             (keep it = true <-> retained "planificando" "TOKYO" it))
       /\ (forall it, In it lista <-> In it dos_viajes /\ retained "planificando" "TOKYO" it)
       /\ sublist lista dos_viajes.
Proof.
  split; [exact dos_viajes_has_texts |].
  exact (proj1 C2_projection_retains_iff
               (mundo_filtrado dos_viajes "planificando" "TOKYO")
               dos_viajes_has_texts).
Defined.

(** C4 on a trip from 2026-03-01 to 2026-03-03. *)
Lemma C4_witness :
  dayNumber "2026-03-01" = Some 20513 /\ dayNumber "2026-03-03" = Some 20515
  /\ lt "2026-03-03" "2026-03-01" = false
  /\ calcularDias "2026-03-01" "2026-03-03" = Some (trip_length (inject_Z (20515 - 20513)))
  /\ trip_length (inject_Z (20515 - 20513)) = 20515 - 20513 + 1.
Proof.
  assert (Ha : dayNumber "2026-03-01" = Some 20513) by (vm_compute; reflexivity).
  assert (Hb : dayNumber "2026-03-03" = Some 20515) by (vm_compute; reflexivity).
  assert (Hlt : lt "2026-03-03" "2026-03-01" = false) by (vm_compute; reflexivity).
  pose proof (C4_calcularDias_counts_both_ends _ _ _ _ Ha Hb Hlt) as [H1 [H2 _]].
  repeat split; assumption.
Defined.

(** C10 on [dos_viajes] searched for "tokyo " with a trailing space. *)
Lemma C10_witness :
  Forall has_texts (itinerarios (state (mundo_filtrado dos_viajes "todos" "tokyo ")))
  /\ trim (busqueda (state (mundo_filtrado dos_viajes "todos" "tokyo "))) <> ""
  /\ exists lista : list object,
       getItinerariosFiltrados (mundo_filtrado dos_viajes "todos" "tokyo ")
       = (Ok lista, mundo_filtrado dos_viajes "todos" "tokyo ")
       /\ forall it, In it lista <->
            In it dos_viajes
            /\ ("todos" = "todos" \/ get it "estado" = VStr "todos")
            /\ exists d n, get it "destino" = VStr d /\ get it "nombre" = VStr n
                /\ ((exists pre post, toLowerCase d = pre ++ "tokyo " ++ post)
                    \/ (exists pre post, toLowerCase n = pre ++ "tokyo " ++ post)).
Proof.
  assert (Hq : trim (busqueda (state (mundo_filtrado dos_viajes "todos" "tokyo "))) <> "")
    by (vm_compute; discriminate).
  split; [exact dos_viajes_has_texts |]. split; [exact Hq |].
  exact (proj1 C10_search_matches_untrimmed
               (mundo_filtrado dos_viajes "todos" "tokyo ")
               dos_viajes_has_texts Hq).
Defined.

End Witnesses.

(** * More of the code *)

(** ** The breakpoints *)

Section BreakpointFacts.
Import Config.


End BreakpointFacts.

(** ** Strings, numbers and arrays of utils.js *)

Section UtilsFacts.
Import Js UtilsMore.

Lemma string_take_length (n : nat) (s : string) :
  String.length (string_take n s) = Nat.min n (String.length s).
Proof.
  revert s. induction n as [|n IH]; intros s; [reflexivity |].
  destruct s as [|c s]; [reflexivity |]. simpl. now rewrite IH.
Qed.

Lemma string_app_length (a b : string) :
  String.length (a ++ b) = (String.length a + String.length b)%nat.
Proof. induction a as [|c a IH]; simpl; [reflexivity | now rewrite IH]. Qed.

(** [truncate]: a string within the limit comes back as it is.  A longer
    one is cut so that, with the suffix, it has exactly [maxLength]
    characters, when the suffix fits the limit; when the suffix is longer
    than the limit the result is the suffix alone, which exceeds the
    limit. *)
Theorem truncate_lengths (str : string) (maxLength : Z) (suffix : string) :
  (Z.of_nat (String.length str) <= maxLength -> truncate str maxLength suffix = str)
  /\ (maxLength < Z.of_nat (String.length str) ->
      Z.of_nat (String.length suffix) <= maxLength ->
      truncate str maxLength suffix
      = string_take (Z.to_nat (maxLength - Z.of_nat (String.length suffix))) str ++ suffix
      /\ Z.of_nat (String.length (truncate str maxLength suffix)) = maxLength)
  /\ (maxLength < Z.of_nat (String.length str) ->
      maxLength < Z.of_nat (String.length suffix) ->
      str <> "" ->
      truncate str maxLength suffix = suffix)
  /\ truncate "" maxLength suffix = "".
Proof.
  unfold truncate, substring0. repeat split.
  - intros H. apply Z.leb_le in H. rewrite H. now rewrite orb_true_r.
  - destruct str as [|c str]; [simpl in H; lia |]. cbn [truthy_string negb orb].
    destruct (Z.leb_spec (Z.of_nat (String.length (String c str))) maxLength); [lia |].
    do 2 f_equal. lia.
  - destruct str as [|c str]; [simpl in H; lia |]. cbn [truthy_string negb orb].
    destruct (Z.leb_spec (Z.of_nat (String.length (String c str))) maxLength); [lia |].
    rewrite string_app_length, string_take_length. lia.
  - intros Hlen Hsuf Hne. destruct str as [|c str]; [congruence |].
    cbn [truthy_string negb orb].
    destruct (Z.leb_spec (Z.of_nat (String.length (String c str))) maxLength); [lia |].
    replace (Z.to_nat _) with O by lia. reflexivity.
Qed.

Lemma truncate_witness :
  truncate "Marrakech" 6 "..." = "Mar..." /\ truncate "Marrakech" 2 "..." = "...".
Proof.
  destruct (truncate_lengths "Marrakech" 6 "...") as [_ [H6 _]].
  destruct (truncate_lengths "Marrakech" 2 "...") as [_ [_ [H2 _]]].
  split.
  - apply (proj1 (H6 ltac:(simpl; lia) ltac:(simpl; lia))).
  - apply H2; [simpl; lia | simpl; lia | discriminate].
Defined.

(** [clamp]: with [min <= max] the result lies between them and a value
    already between them is kept; with [min > max] the result is [max],
    whatever the value.  Clamping twice is clamping once. *)
Theorem clamp_bounds (value min max : Z) :
  (min <= max -> min <= clamp value min max <= max)
  /\ (min <= value <= max -> clamp value min max = value)
  /\ (max < min -> clamp value min max = max)
  /\ clamp (clamp value min max) min max = clamp value min max.
Proof. unfold clamp. repeat split; lia. Qed.

Section UniqueFacts.
Context {A : Type} `{EqDecision A}.

(** The elements a [Set] that already holds [seen] takes from [l]: each
    at its first occurrence. *)
Fixpoint firsts (seen l : list A) : list A :=
  match l with
  | [] => []
  | x :: l' =>
      if bool_decide (x ∈ seen) then firsts seen l'
      else x :: firsts (seen ++ [x]) l'
  end.

Lemma fold_firsts (l seen : list A) :
  fold_left (fun set x => if bool_decide (x ∈ set) then set else (set ++ [x])%list) l seen
  = (seen ++ firsts seen l)%list.
Proof.
  revert seen. induction l as [|x l IH]; intros seen; simpl.
  - now rewrite app_nil_r.
  - rewrite IH. destruct (bool_decide (x ∈ seen)); [reflexivity |].
    now rewrite <- app_assoc.
Qed.

Lemma firsts_sublist (l seen : list A) : sublist (firsts seen l) l.
Proof.
  revert seen. induction l as [|x l IH]; intros seen; simpl; [constructor |].
  destruct (bool_decide (x ∈ seen)); now constructor.
Qed.

Lemma firsts_elem (l seen : list A) (x : A) :
  x ∈ firsts seen l <-> x ∈ l /\ x ∉ seen.
Proof.
  revert seen. induction l as [|y l IH]; intros seen; simpl.
  - split; [intros H; inversion H | intros [H _]; inversion H].
  - destruct (bool_decide_reflect (y ∈ seen)) as [Hy | Hy].
    + rewrite IH, elem_of_cons. split; [tauto |].
      intros [[-> | Hl] Hn]; [contradiction | tauto].
    + rewrite !elem_of_cons, IH, elem_of_app, list_elem_of_singleton. split.
      * intros [-> | [Hl Hn]]; [tauto |]. split; [tauto |]. tauto.
      * intros [[-> | Hl] Hn]; [tauto |].
        destruct (decide (x = y)) as [-> | Hne]; [tauto | right; tauto].
Qed.

Lemma firsts_NoDup (l seen : list A) : NoDup (firsts seen l).
Proof.
  revert seen. induction l as [|x l IH]; intros seen; simpl; [constructor |].
  destruct (bool_decide_reflect (x ∈ seen)) as [Hx | Hx]; [apply IH |].
  constructor; [| apply IH].
  rewrite firsts_elem, elem_of_app, list_elem_of_singleton. tauto.
Qed.

Lemma firsts_id (l seen : list A) :
  NoDup l -> (forall x, x ∈ l -> x ∉ seen) -> firsts seen l = l.
Proof.
  revert seen. induction l as [|x l IH]; intros seen Hnd Hdis; simpl; [reflexivity |].
  apply NoDup_cons in Hnd. destruct Hnd as [Hx Hnd].
  destruct (bool_decide_reflect (x ∈ seen)) as [Hs | Hs].
  - exfalso. apply (Hdis x); [left | exact Hs].
  - f_equal. apply IH; [exact Hnd |].
    intros y Hy. rewrite elem_of_app, list_elem_of_singleton.
    intros [Hys | ->]; [| contradiction].
    apply (Hdis y); [now right | exact Hys].
Qed.

Lemma firsts_ext (l seen seen' : list A) :
  (forall y, y ∈ seen <-> y ∈ seen') -> firsts seen l = firsts seen' l.
Proof.
  revert seen seen'. induction l as [|x l IH]; intros seen seen' Hext; simpl;
    [reflexivity |].
  destruct (bool_decide_reflect (x ∈ seen)) as [Hx | Hx];
    destruct (bool_decide_reflect (x ∈ seen')) as [Hx' | Hx'].
  - now apply IH.
  - now apply Hext in Hx.
  - now apply Hext in Hx'.
  - f_equal. apply IH. intros y. rewrite !elem_of_app, Hext. tauto.
Qed.

(** A [Set] that holds more to begin with takes what the other takes,
    less what it already holds. *)
Lemma firsts_filter (l held seen : list A) :
  firsts (held ++ seen) l
  = List.filter (fun y => negb (bool_decide (y ∈ held))) (firsts seen l).
Proof.
  revert seen. induction l as [|x l IH]; intros seen; simpl; [reflexivity |].
  destruct (bool_decide_reflect (x ∈ seen)) as [Hs | Hs].
  - rewrite bool_decide_eq_true_2 by (rewrite elem_of_app; tauto). apply IH.
  - cbn [List.filter].
    destruct (bool_decide_reflect (x ∈ held)) as [Hh | Hh]; cbn [negb].
    + rewrite bool_decide_eq_true_2 by (rewrite elem_of_app; tauto).
      rewrite <- IH. apply firsts_ext. intros y.
      rewrite !elem_of_app, list_elem_of_singleton.
      split; [tauto |]. intros [Hy | [Hy | ->]]; tauto.
    + rewrite bool_decide_eq_false_2 by (rewrite elem_of_app; tauto).
      f_equal. rewrite <- IH. now rewrite <- app_assoc.
Qed.

(** Two elements the [Set] takes from [l] stand in it as their first
    occurrences stand in [l]. *)
Lemma firsts_order (l seen : list A) (i j : nat) (x y : A) :
  (i < j)%nat -> firsts seen l !! i = Some x -> firsts seen l !! j = Some y ->
  exists a b, (a < b)%nat /\ l !! a = Some x /\ l !! b = Some y /\ y ∉ take b l.
Proof.
  revert seen i j. induction l as [|x0 l IH]; intros seen i j Hij Hi Hj; simpl in Hi, Hj;
    [discriminate Hi |].
  assert (Hshift : forall seen' i' j',
            (i' < j')%nat -> firsts seen' l !! i' = Some x ->
            firsts seen' l !! j' = Some y -> y <> x0 ->
            exists a b, (a < b)%nat /\ (x0 :: l) !! a = Some x
                        /\ (x0 :: l) !! b = Some y /\ y ∉ take b (x0 :: l)).
  { intros seen' i' j' Hij' Hi' Hj' Hne.
    destruct (IH seen' i' j' Hij' Hi' Hj') as [a [b [Hab [Ha [Hb Hnot]]]]].
    exists (S a), (S b). split; [lia |]. split; [exact Ha |]. split; [exact Hb |].
    cbn [take]. rewrite elem_of_cons. tauto. }
  destruct (bool_decide_reflect (x0 ∈ seen)) as [Hs | Hs].
  - apply (Hshift seen i j Hij Hi Hj).
    intros ->. apply list_elem_of_lookup_2 in Hj. apply firsts_elem in Hj. tauto.
  - assert (Hy : forall j', firsts (seen ++ [x0]) l !! j' = Some y -> y ∈ l /\ y <> x0).
    { intros j' Hj'. apply list_elem_of_lookup_2 in Hj'. apply firsts_elem in Hj'.
      rewrite elem_of_app, list_elem_of_singleton in Hj'. tauto. }
    destruct j as [|j]; [lia |]. cbn [lookup list_lookup] in Hj.
    destruct (Hy j Hj) as [Hyl Hne].
    destruct i as [|i].
    + injection Hi as <-.
      destruct (list_elem_of_split_l l y Hyl) as [l1 [l2 [-> Hnot]]].
      exists 0%nat, (S (List.length l1)). split; [lia |]. split; [reflexivity |].
      split.
      * change ((l1 ++ y :: l2)%list !! List.length l1 = Some y).
        apply list_lookup_middle. reflexivity.
      * cbn [take]. rewrite take_app_length. apply not_elem_of_cons. now split.
    + cbn [lookup list_lookup] in Hi.
      apply (Hshift (seen ++ [x0])%list i j); [lia | exact Hi | exact Hj | exact Hne].
Qed.

(** [unique]: no element twice; the same elements as the array; in the
    order of their first occurrences in the array (of two elements of
    the result, the one that stands first has its first occurrence in
    the array before the first occurrence of the other; so the first
    element of the array comes first, followed by what [unique] gives
    for the rest of the array without that element); an array without
    repetitions is returned as it is, so [unique] of [unique] changes
    nothing. *)
Theorem unique_first_occurrences (array : list A) :
  NoDup (unique array)
  /\ (forall x, x ∈ unique array <-> x ∈ array)
  /\ sublist (unique array) array
  /\ (forall i j x y,
        (i < j)%nat -> unique array !! i = Some x -> unique array !! j = Some y ->
        exists a b, (a < b)%nat /\ array !! a = Some x /\ array !! b = Some y
                    /\ y ∉ take b array)
  /\ (forall x rest,
        array = x :: rest ->
        unique array
        = x :: List.filter (fun y => negb (bool_decide (y = x))) (unique rest))
  /\ (NoDup array -> unique array = array)
  /\ unique (unique array) = unique array
  /\ (List.length (unique array) <= List.length array)%nat.
Proof.
  unfold unique, Set_of. rewrite !fold_firsts. cbn [app].
  assert (Hid : forall l : list A, NoDup l -> firsts [] l = l).
  { intros l Hl. apply firsts_id; [exact Hl |]. intros x _ Hx. inversion Hx. }
  split; [apply firsts_NoDup |].
  split.
  { intros x. rewrite firsts_elem. split; [tauto |].
    intros Hx. split; [exact Hx |]. intros Hn. inversion Hn. }
  split; [apply firsts_sublist |].
  split; [intros i j x y; apply firsts_order |].
  split.
  { intros x rest ->. rewrite fold_firsts. cbn [app firsts].
    rewrite bool_decide_eq_false_2 by (intros Hn; inversion Hn).
    f_equal. pose proof (firsts_filter rest [x] []) as Hf. cbn [app] in Hf. rewrite Hf.
    apply List.filter_ext. intros y.
    destruct (bool_decide_reflect (y ∈ [x])) as [Hy | Hy];
      destruct (bool_decide_reflect (y = x)) as [He | He]; try reflexivity.
    - apply list_elem_of_singleton in Hy. contradiction.
    - subst y. exfalso. apply Hy. left. }
  split; [apply Hid |].
  split; [apply Hid, firsts_NoDup |].
  apply sublist_length, firsts_sublist.
Qed.

End UniqueFacts.

End UtilsFacts.

(** ** Writing, reading and removing in the storage *)

Section StorageFacts.
Import Js UtilsMore.
Context {A : Type} `{Utils.Stringify A}.

Lemma getStorage_items (ls : Utils.localStorage A) (key : string) (dflt : A) :
  Utils.getStorage ls key dflt =
  if Utils.blocked ls then dflt
  else match Utils.items ls !! key with
       | Some (Utils.Json a) => a
       | _ => dflt
       end.
Proof.
  rewrite getStorage_cases. unfold Utils.getItem.
  destruct (Utils.blocked ls); reflexivity.
Qed.

(** [setStorage] by cases on what [JSON.stringify] and the storage
    do. *)
Lemma setStorage_cases (ls : Utils.localStorage A) (key : string) (value : A) :
  Utils.setStorage ls key value =
  match Utils.JSON_stringify value with
  | Ok t =>
      if Utils.blocked ls || Utils.full ls then (false, ls)
      else (true, {| Utils.items := <[key := t]> (Utils.items ls);
                     Utils.blocked := Utils.blocked ls; Utils.full := Utils.full ls |})
  | Throw _ => (false, ls)
  end.
Proof.
  unfold Utils.setStorage, Utils.setItem.
  destruct (Utils.JSON_stringify value) as [t | msg]; [| reflexivity].
  cbn [bind]. destruct (Utils.blocked ls); [reflexivity |].
  destruct (Utils.full ls); reflexivity.
Qed.

Lemma setStorage_written (ls : Utils.localStorage A) (key : string) (value : A) :
  (fst (Utils.setStorage ls key value) = true
   <-> Utils.blocked ls = false /\ Utils.full ls = false
       /\ exists t, Utils.JSON_stringify value = Ok t)
  /\ (forall t, Utils.JSON_stringify value = Ok t ->
        fst (Utils.setStorage ls key value) = true ->
        (forall dflt, Utils.getStorage (snd (Utils.setStorage ls key value)) key dflt
                      = match t with Utils.Json a => a | _ => dflt end)
        /\ (forall other dflt, other <> key ->
              Utils.getStorage (snd (Utils.setStorage ls key value)) other dflt
              = Utils.getStorage ls other dflt))
  /\ (fst (Utils.setStorage ls key value) = false ->
      snd (Utils.setStorage ls key value) = ls).
Proof.
  rewrite setStorage_cases.
  destruct (Utils.JSON_stringify value) as [t | msg].
  2:{ cbn [fst snd]. split; [split; [discriminate | intros [_ [_ [t Ht]]]; discriminate] |].
      split; [discriminate | reflexivity]. }
  destruct (Utils.blocked ls) eqn:Hb; cbn [orb fst snd].
  { split; [split; [discriminate | intros [Hx _]; discriminate] |].
    split; [intros t' _ Hx; discriminate | reflexivity]. }
  destruct (Utils.full ls) eqn:Hf; cbn [fst snd].
  { split; [split; [discriminate | intros [_ [Hx _]]; discriminate] |].
    split; [intros t' _ Hx; discriminate | reflexivity]. }
  split; [split; [intros _; repeat split; now exists t | reflexivity] |].
  split; [| discriminate].
  intros t' Ht' _. injection Ht' as <-. split.
  - intros dflt. rewrite getStorage_items. cbn [Utils.blocked Utils.items].
    rewrite lookup_insert_eq. now destruct t.
  - intros other dflt Hne. rewrite !getStorage_items. cbn [Utils.blocked Utils.items].
    now rewrite ?Hb, lookup_insert_ne by congruence.
Qed.

(** [removeStorage] succeeds exactly when the storage does not refuse
    accesses; then [getStorage] under that key returns the default and
    the other keys are as before; a failure leaves the storage as it
    was.  [clearStorage] succeeds under the same condition and then every
    key reads as its default.  A value written and then removed is
    gone. *)
Theorem removeStorage_then_getStorage (ls : Utils.localStorage A) (key : string) :
  (fst (removeStorage ls key) = true <-> Utils.blocked ls = false)
  /\ (fst (removeStorage ls key) = true ->
      (forall dflt, Utils.getStorage (snd (removeStorage ls key)) key dflt = dflt)
      /\ (forall other dflt, other <> key ->
            Utils.getStorage (snd (removeStorage ls key)) other dflt
            = Utils.getStorage ls other dflt))
  /\ (fst (removeStorage ls key) = false -> snd (removeStorage ls key) = ls)
  /\ (fst (clearStorage ls) = true <-> Utils.blocked ls = false)
  /\ (forall other dflt, Utils.getStorage (snd (clearStorage ls)) other dflt
                         = if Utils.blocked ls then Utils.getStorage ls other dflt
                           else dflt)
  /\ (forall value dflt,
        fst (Utils.setStorage ls key value) = true ->
        Utils.getStorage
          (snd (removeStorage (snd (Utils.setStorage ls key value)) key)) key dflt
        = dflt).
Proof.
  assert (Hset : forall value dflt,
            fst (Utils.setStorage ls key value) = true ->
            Utils.getStorage
              (snd (removeStorage (snd (Utils.setStorage ls key value)) key)) key dflt
            = dflt).
  { intros value dflt. rewrite setStorage_cases.
    destruct (Utils.JSON_stringify value) as [t | msg]; [| discriminate].
    destruct (Utils.blocked ls) eqn:Hb; cbn [orb fst snd]; [discriminate |].
    destruct (Utils.full ls) eqn:Hf; cbn [fst snd]; [discriminate |]. intros _.
    unfold removeStorage, removeItem. cbn [Utils.blocked Utils.items Utils.full].
    cbn [bind try_catch snd]. rewrite getStorage_items. cbn [Utils.blocked Utils.items].
    now rewrite lookup_delete_eq. }
  unfold removeStorage, clearStorage, removeItem, clear.
  destruct (Utils.blocked ls) eqn:Hb; cbn [bind try_catch fst snd].
  - split; [split; discriminate |].
    split; [discriminate |].
    split; [reflexivity |].
    split; [split; discriminate |].
    split; [reflexivity | exact Hset].
  - split; [split; reflexivity |].
    split.
    { intros _. split.
      - intros dflt. rewrite getStorage_items. cbn [Utils.blocked Utils.items].
        now rewrite ?Hb, lookup_delete_eq.
      - intros other dflt Hne. rewrite !getStorage_items. cbn [Utils.blocked Utils.items].
        now rewrite ?Hb, lookup_delete_ne by congruence. }
    split; [discriminate |].
    split; [split; reflexivity |].
    split; [| exact Hset].
    intros other dflt. rewrite getStorage_items. cbn [Utils.blocked Utils.items].
    now rewrite ?Hb, lookup_empty.
Qed.

End StorageFacts.

Section RecordStorageFacts.
Import Js.

Lemma json_object_safe (o : object) : json_object o = o <-> json_safe o.
Proof.
  split; [| apply json_safe_object].
  intros Heq k v Hk. pose proof (json_object_lookup o k) as Hl.
  rewrite Heq, Hk in Hl. cbn in Hl. now symmetry.
Qed.

Lemma json_array_safe (l : list object) :
  List.map json_object l = l <-> Forall json_safe l.
Proof.
  split; [| apply json_safe_array].
  induction l as [|o l IH]; cbn [List.map]; intros Heq; [constructor |].
  injection Heq as Ho Hl. constructor; [now apply json_object_safe | now apply IH].
Qed.

(** [setStorage] and then [getStorage].  For every type of values:
    [setStorage] reports success exactly when [JSON.stringify] gives a
    text and the storage refuses neither accesses nor writes; after a
    success [getStorage] under that key returns what that text parses
    to (the default when it does not parse), and every other key reads
    as before; after a failure the storage is as before.  For an array
    of records: writing never fails on the side of JSON, and what is read
    back is the array with every record as JSON keeps it: a property
    holding a string, a boolean or [null] as it is, a Number that is
    NaN or an infinity as [null], a zero without its sign, any other
    Number as it is, a property holding [undefined] not at all.  It is
    the array itself exactly when every record is kept as it is. *)
Theorem setStorage_then_getStorage {A : Type} `{Utils.Stringify A}
  (ls : Utils.localStorage A) (key : string) (value : A)
  (rs : Utils.localStorage (list object)) (array : list object) :
  ((fst (Utils.setStorage ls key value) = true
    <-> Utils.blocked ls = false /\ Utils.full ls = false
        /\ exists t, Utils.JSON_stringify value = Ok t)
   /\ (forall t, Utils.JSON_stringify value = Ok t ->
         fst (Utils.setStorage ls key value) = true ->
         (forall dflt, Utils.getStorage (snd (Utils.setStorage ls key value)) key dflt
                       = match t with Utils.Json a => a | _ => dflt end)
         /\ (forall other dflt, other <> key ->
               Utils.getStorage (snd (Utils.setStorage ls key value)) other dflt
               = Utils.getStorage ls other dflt))
   /\ (fst (Utils.setStorage ls key value) = false ->
       snd (Utils.setStorage ls key value) = ls))
  /\ (fst (Utils.setStorage rs key array) = true
      <-> Utils.blocked rs = false /\ Utils.full rs = false)
  /\ (fst (Utils.setStorage rs key array) = true ->
      forall dflt, Utils.getStorage (snd (Utils.setStorage rs key array)) key dflt
                   = List.map json_object array)
  /\ (List.map json_object array = array <-> Forall json_safe array)
  /\ (forall (o : object) (k : string),
        json_object o !! k
        = match o !! k with
          | Some VUndefined => None
          | Some (VNum NaN) | Some (VNum (Infinity _)) => Some VNull
          | Some (VNum (Dec neg m e)) =>
              if overflows (Dec neg m e) then Some VNull
              else if toBoolean (Dec neg m e) then Some (VNum (Dec neg m e))
                   else Some (VNum (Dec false m e))
          | other => other
          end).
Proof.
  split; [apply setStorage_written |].
  destruct (setStorage_written rs key array) as [Hok [Hread _]].
  split.
  { rewrite Hok. split; [tauto |]. intros [Hb Hf]. repeat split; try assumption.
    eexists. reflexivity. }
  split.
  { intros Hs dflt.
    destruct (Hread (Utils.Json (List.map json_object array)) eq_refl Hs) as [Hkey _].
    apply Hkey. }
  split; [apply json_array_safe |].
  intros o k. rewrite json_object_lookup.
  destruct (o !! k) as [[| | b | [| neg | neg m e] | s]|]; try reflexivity.
  cbn [option_bind mbind json_value json_number].
  destruct (overflows (Dec neg m e)); [reflexivity |].
  destruct (toBoolean (Dec neg m e)); reflexivity.
Qed.

End RecordStorageFacts.

(** ** Creating, deleting and saving on the itinerary page *)

Section StoreMore.
Import Js Itinerarios.

Lemma filter_idem {A : Type} (p : A -> bool) (l : list A) :
  List.filter p (List.filter p l) = List.filter p l.
Proof.
  rewrite filter_filter. apply filter_ext. intros x. now destruct (p x).
Qed.

(** [eliminarItinerario(id)] keeps exactly the records whose id is not
    [id], in their order; when no record has the id the collection is as
    before; the rest of the state and the form are untouched; and
    deleting the same id again changes nothing more, in memory or in the
    storage. *)
Theorem eliminarItinerario_removes_exactly (id : string) (w : World) :
  (forall it, In it (itinerarios (state (eliminarItinerario id w))) <->
              In it (itinerarios (state w)) /\ get it "id" <> VStr id)
  /\ sublist (itinerarios (state (eliminarItinerario id w))) (itinerarios (state w))
  /\ ((forall it, In it (itinerarios (state w)) -> get it "id" <> VStr id) ->
      itinerarios (state (eliminarItinerario id w)) = itinerarios (state w))
  /\ eliminarItinerario id (eliminarItinerario id w) = eliminarItinerario id w
  /\ filtroActual (state (eliminarItinerario id w)) = filtroActual (state w)
  /\ busqueda (state (eliminarItinerario id w)) = busqueda (state w)
  /\ editandoId (state (eliminarItinerario id w)) = editandoId (state w)
  /\ eliminandoId (state (eliminarItinerario id w)) = eliminandoId (state w)
  /\ inputs (eliminarItinerario id w) = inputs w
  /\ errors (eliminarItinerario id w) = errors w.
Proof.
  assert (Hcol : itinerarios (state (eliminarItinerario id w))
                 = List.filter (fun it => negb (strict_eq_str (get it "id") id))
                               (itinerarios (state w))).
  { unfold eliminarItinerario. now rewrite guardarItinerarios_state. }
  split.
  { intros it. rewrite Hcol, filter_In, negb_true_iff, strict_eq_str_false. tauto. }
  split; [rewrite Hcol; apply filter_sublist |].
  split.
  { intros Hnone. rewrite Hcol. apply filter_none_out.
    intros it Hit. apply negb_true_iff, strict_eq_str_false. now apply Hnone. }
  split.
  { unfold eliminarItinerario, guardarItinerarios, Utils.setStorage, Utils.setItem.
    destruct w as [st i e [items blocked full]]. cbn.
    destruct blocked; cbn; [now rewrite filter_idem |].
    destruct full; cbn; [now rewrite filter_idem |].
    now rewrite filter_idem, insert_insert_eq. }
  unfold eliminarItinerario.
  rewrite guardarItinerarios_state, guardarItinerarios_inputs, guardarItinerarios_errors.
  repeat split.
Qed.

(** [crearItinerario(datos)] returns the record it puts at the front of
    the collection, before the records that were there.  The record has
    the properties of [datos] as given, so an [id] among them replaces
    the generated one; [creadoEn] is the time of the call even if [datos]
    has one; without an [id] in [datos] the id is ["it_"] and the clock
    reading in hexadecimal; and it has no other property. *)
Theorem crearItinerario_record (datos : object) (t t' : Z) (w : World) :
  itinerarios (state (snd (crearItinerario datos t t' w)))
  = fst (crearItinerario datos t t' w) :: itinerarios (state w)
  /\ fst (crearItinerario datos t t' w) !! "creadoEn" = Some (VStr (toISOString t'))
  /\ (forall k v, k <> "creadoEn" -> datos !! k = Some v ->
                  fst (crearItinerario datos t t' w) !! k = Some v)
  /\ (datos !! "id" = None ->
      fst (crearItinerario datos t t' w) !! "id" = Some (VStr ("it_" ++ toString16 t)))
  /\ (forall k, k <> "creadoEn" -> k <> "id" -> datos !! k = None ->
                fst (crearItinerario datos t t' w) !! k = None)
  /\ filtroActual (state (snd (crearItinerario datos t t' w))) = filtroActual (state w)
  /\ busqueda (state (snd (crearItinerario datos t t' w))) = busqueda (state w)
  /\ editandoId (state (snd (crearItinerario datos t t' w))) = editandoId (state w)
  /\ eliminandoId (state (snd (crearItinerario datos t t' w))) = eliminandoId (state w)
  /\ inputs (snd (crearItinerario datos t t' w)) = inputs w
  /\ errors (snd (crearItinerario datos t t' w)) = errors w.
Proof.
  unfold crearItinerario. cbn [fst snd].
  rewrite guardarItinerarios_state, guardarItinerarios_inputs, guardarItinerarios_errors.
  split; [reflexivity |].
  split; [now rewrite insert_spread_lookup |].
  split.
  { intros k v Hk Hd. rewrite insert_spread_lookup, Hd.
    destruct (String.eqb_spec k "creadoEn"); congruence. }
  split.
  { intros Hd. rewrite insert_spread_lookup, Hd. cbn [String.eqb].
    apply lookup_singleton_eq. }
  split.
  { intros k Hk Hid Hd. rewrite insert_spread_lookup, Hd.
    destruct (String.eqb_spec k "creadoEn"); [congruence |].
    apply lookup_singleton_ne. congruence. }
  repeat split.
Qed.

End StoreMore.

(** ** The save handler *)

Section GuardarFacts.
Import Js Itinerarios.

(** With a form that fails validation [handleGuardar] only sets the
    error flags: no record is created or edited and nothing is written
    to the storage. *)
Theorem handleGuardar_invalid_form (t t' : Z) (w : World) :
  fst (validarForm w) = false ->
  handleGuardar t t' w = snd (validarForm w)
  /\ state (handleGuardar t t' w) = state w
  /\ inputs (handleGuardar t t' w) = inputs w
  /\ localStorage (handleGuardar t t' w) = localStorage w.
Proof.
  intros Hv. destruct (validarForm_frame w) as [Hst [Hin Hls]].
  unfold handleGuardar. destruct (validarForm w) as [valido w'].
  cbn [fst snd] in *. subst valido. cbn [negb]. auto.
Qed.

Lemma handleGuardar_invalid_form_witness :
  fst (validarForm (mundo dos_viajes)) = false
  /\ state (handleGuardar 1772323200000 1772323200000 (mundo dos_viajes))
     = state (mundo dos_viajes).
Proof.
  assert (H : fst (validarForm (mundo dos_viajes)) = false) by reflexivity.
  split; [exact H |].
  exact (proj1 (proj2 (handleGuardar_invalid_form 1772323200000 1772323200000
                                                  (mundo dos_viajes) H))).
Defined.

Lemma leerDatos_lookup (i : Inputs) :
  leerDatos i !! "nombre" = Some (VStr (trim (input_nombre i)))
  /\ leerDatos i !! "destino" = Some (VStr (trim (input_destino i)))
  /\ leerDatos i !! "fechaInicio" = Some (VStr (input_fecha_inicio i))
  /\ leerDatos i !! "fechaFin" = Some (VStr (input_fecha_fin i))
  /\ leerDatos i !! "estado" = Some (VStr (input_estado i))
  /\ leerDatos i !! "budget"
     = Some (VNum (or_else (parseFloat (input_budget i)) (Dec false 1500 0)))
  /\ leerDatos i !! "notas" = Some (VStr (trim (input_notas i)))
  /\ leerDatos i !! "id" = None
  /\ leerDatos i !! "creadoEn" = None
  /\ leerDatos i !! "actualizadoEn" = None.
Proof. repeat split. Qed.

Lemma leerDatos_dom (i : Inputs) :
  dom (leerDatos i)
  = ({["nombre"; "destino"; "fechaInicio"; "fechaFin"; "estado"; "budget"; "notas"]}
     : gset string).
Proof. unfold leerDatos. rewrite !dom_insert_L, dom_empty_L. set_solver. Qed.

(** With a valid form and no record being edited, [handleGuardar] puts
    one new record in front of the collection and leaves the others as
    they were.  The record has exactly nine properties: the generated
    [id], [creadoEn], and the seven of the form, with the name, the
    destination and the notes trimmed.  The unfiltered projection then
    shows the new record first, followed by the others. *)
Theorem handleGuardar_creates (t t' : Z) (w : World) :
  creates w = true ->
  exists nuevo : object,
    itinerarios (state (handleGuardar t t' w)) = nuevo :: itinerarios (state w)
    /\ dom nuevo = ({["id"; "creadoEn"; "nombre"; "destino"; "fechaInicio"; "fechaFin";
                      "estado"; "budget"; "notas"]} : gset string)
    /\ nuevo !! "id" = Some (VStr ("it_" ++ toString16 t))
    /\ nuevo !! "creadoEn" = Some (VStr (toISOString t'))
    /\ nuevo !! "nombre" = Some (VStr (trim (input_nombre (inputs w))))
    /\ nuevo !! "destino" = Some (VStr (trim (input_destino (inputs w))))
    /\ nuevo !! "fechaInicio" = Some (VStr (input_fecha_inicio (inputs w)))
    /\ nuevo !! "fechaFin" = Some (VStr (input_fecha_fin (inputs w)))
    /\ nuevo !! "estado" = Some (VStr (input_estado (inputs w)))
    /\ nuevo !! "budget"
       = Some (VNum (or_else (parseFloat (input_budget (inputs w))) (Dec false 1500 0)))
    /\ nuevo !! "notas" = Some (VStr (trim (input_notas (inputs w))))
    /\ fst (getItinerariosFiltrados
              (set_busqueda "" (set_filtroActual "todos" (handleGuardar t t' w))))
       = Ok (nuevo :: itinerarios (state w)).
Proof.
  intros Hc.
  destruct (step_collection w (ClickGuardar t t'))
    as [H | [[i [e [Hev _]]] | [[t0 [t0' [Hev [_ H]]]]
       | [[t0 [t0' [ix [act [Hev [Hv [Hact H]]]]]]] | [id [Hev _]]]]]];
    try discriminate Hev.
  - (* the collection cannot have stayed as it was *)
    exfalso. cbn [step] in H. unfold handleGuardar, creates in *.
    destruct (validarForm_frame w) as [Hst [Hin Hls]].
    destruct (validarForm w) as [valido w']. cbn [fst snd] in *.
    apply andb_true_iff in Hc. destruct Hc as [-> Hed]. cbn [negb] in H.
    apply negb_true_iff in Hed. rewrite Hst in H.
    assert (Hlen : List.length (itinerarios (state (snd (crearItinerario
                     (leerDatos (inputs w')) t t' w'))))
                   = S (List.length (itinerarios (state w)))).
    { unfold crearItinerario. cbn [snd]. rewrite guardarItinerarios_state. cbn.
      now rewrite Hst. }
    destruct (editandoId (state w)) as [id|]; cbn [truthy_id] in Hed.
    + rewrite Hed in H. rewrite H in Hlen. lia.
    + rewrite H in Hlen. lia.
  - injection Hev as <- <-. cbn [step] in H.
    exists (nuevo_de (leerDatos (inputs w)) t t').
    destruct (leerDatos_lookup (inputs w))
      as [Hn [Hd [Hfi [Hff [He [Hb [Hno [Hid [Hcr Hac]]]]]]]]].
    split; [exact H |].
    split.
    { unfold nuevo_de, spread. rewrite dom_insert_L, dom_union_L, leerDatos_dom,
        dom_singleton_L. set_solver. }
    unfold nuevo_de. rewrite !insert_spread_lookup, Hn, Hd, Hfi, Hff, He, Hb, Hno, Hid.
    cbn [String.eqb Ascii.eqb Bool.eqb].
    repeat (split; [first [reflexivity | apply lookup_singleton_eq] |]).
    unfold getItinerariosFiltrados.
    cbn [set_busqueda set_filtroActual set_state state filtroActual busqueda
         itinerarios fst String.eqb Ascii.eqb Bool.eqb negb trim trimStart trimEnd
         truthy_string].
    now rewrite H.
  - (* an edit is not a creation *)
    exfalso. injection Hev as <- <-. cbn [step] in H.
    unfold handleGuardar, creates in *.
    destruct (validarForm_frame w) as [Hst [Hin Hls]].
    destruct (validarForm w) as [valido w']. cbn [fst snd] in *.
    apply andb_true_iff in Hc. destruct Hc as [-> Hed]. cbn [negb] in H.
    apply negb_true_iff in Hed. rewrite Hst in H.
    assert (Hlen : List.length (itinerarios (state (snd (crearItinerario
                     (leerDatos (inputs w')) t t' w'))))
                   = S (List.length (itinerarios (state w)))).
    { unfold crearItinerario. cbn [snd]. rewrite guardarItinerarios_state. cbn.
      now rewrite Hst. }
    assert (Hlen' : List.length (<[ix := editado_de act (leerDatos (inputs w)) t]>
                                   (itinerarios (state w)))
                    = List.length (itinerarios (state w))) by apply length_insert.
    destruct (editandoId (state w)) as [id|]; cbn [truthy_id] in Hed.
    + rewrite Hed in H. rewrite H in Hlen. lia.
    + rewrite H in Hlen. lia.
Qed.


End GuardarFacts.

(** ** The delete flow *)

Section DeleteFlow.
Import Js Itinerarios.

(** A click on a card's delete button and then on the confirmation:
    when some record has the id (and the id is not empty), the records
    with that id are removed and every other record stays, in its order;
    nothing stays marked for deletion, and a second click on the
    confirmation changes nothing.  When no record has the id, the click
    on the delete button changes nothing; and the confirmation does
    nothing while no id, or the empty id, is marked. *)
Theorem confirm_then_delete (id : string) (w : World) :
  ((forall it, In it (itinerarios (state w)) -> get it "id" <> VStr id) ->
   abrirConfirmEliminar id w = w)
  /\ ((exists it, In it (itinerarios (state w)) /\ get it "id" = VStr id) ->
      id <> "" ->
      let w' := handleEliminar (abrirConfirmEliminar id w) in
      (forall it, In it (itinerarios (state w')) <->
                  In it (itinerarios (state w)) /\ get it "id" <> VStr id)
      /\ sublist (itinerarios (state w')) (itinerarios (state w))
      /\ eliminandoId (state w') = None
      /\ editandoId (state w') = editandoId (state w)
      /\ handleEliminar w' = w')
  /\ (eliminandoId (state w) = None -> handleEliminar w = w)
  /\ (eliminandoId (state w) = Some "" -> handleEliminar w = w).
Proof.
  split.
  { intros Hnone. unfold abrirConfirmEliminar, find.
    destruct (List.find _ _) as [it|] eqn:Hfind; [| reflexivity].
    apply find_some in Hfind. destruct Hfind as [Hin Hp].
    apply strict_eq_str_true in Hp. now apply Hnone in Hin. }
  split.
  { intros [it [Hin Hit]] Hid.
    assert (Hopen : abrirConfirmEliminar id w = set_eliminandoId (Some id) w).
    { unfold abrirConfirmEliminar, find.
      destruct (List.find _ _) as [it'|] eqn:Hfind; [reflexivity |].
      pose proof (find_none _ _ Hfind it Hin) as Hp. cbn beta in Hp.
      apply strict_eq_str_false in Hp. contradiction. }
    rewrite Hopen. clear Hopen.
    apply truthy_string_true in Hid.
    unfold handleEliminar.
    cbn [set_eliminandoId set_state state eliminandoId]. rewrite Hid.
    cbn [set_eliminandoId set_state state eliminandoId editandoId itinerarios].
    unfold eliminarItinerario. rewrite guardarItinerarios_state.
    cbn [set_itinerarios set_state state itinerarios editandoId].
    split.
    { intros it'. rewrite filter_In, negb_true_iff, strict_eq_str_false. tauto. }
    split; [apply filter_sublist |].
    split; [reflexivity |].
    split; reflexivity. }
  split.
  - intros H. unfold handleEliminar. now rewrite H.
  - intros H. unfold handleEliminar. now rewrite H.
Qed.

End DeleteFlow.

(** ** Memory and storage *)

Section SyncFacts.
Import Js Itinerarios.





(** What one event does to the collection and the storage: nothing, or
    it ends in [guardarItinerarios] on the storage as it was; or it is a
    reload or a change of the storage's mood. *)
Lemma step_writes (w : World) (ev : event) :
  (itinerarios (state (step w ev)) = itinerarios (state w)
   /\ localStorage (step w ev) = localStorage w)
  \/ (exists w1, localStorage w1 = localStorage w
                 /\ itinerarios (state (step w ev)) = itinerarios (state (guardarItinerarios w1))
                 /\ localStorage (step w ev) = localStorage (guardarItinerarios w1))
  \/ (exists i e, ev = Reload i e)
  \/ (exists b f, ev = StorageMood b f).
Proof.
  destruct ev as [f | q | | id shown | id | i | t t' | | i e | b f]; cbn [step].
  - left. split; reflexivity.
  - left. split; reflexivity.
  - left. split; reflexivity.
  - left. unfold abrirFormEditar. destruct (find _ _); split; reflexivity.
  - left. unfold abrirConfirmEliminar. destruct (find _ _); split; reflexivity.
  - left. split; reflexivity.
  - unfold handleGuardar.
    destruct (validarForm_frame w) as [Hst [Hin Hls]].
    destruct (validarForm w) as [valido w'] eqn:Hv. cbn [fst snd] in *.
    destruct valido; cbn [negb]; [| left; now rewrite Hst, Hls].
    assert (Hcrear : forall datos,
      exists w1, localStorage w1 = localStorage w
        /\ itinerarios (state (snd (crearItinerario datos t t' w')))
           = itinerarios (state (guardarItinerarios w1))
        /\ localStorage (snd (crearItinerario datos t t' w'))
           = localStorage (guardarItinerarios w1)).
    { intros datos. unfold crearItinerario. cbn [snd]. cbv zeta.
      match goal with
      | |- context [guardarItinerarios ?w1] => exists w1
      end.
      split; [exact Hls |]. split; reflexivity. }
    destruct (editandoId (state w')) as [id|]; cbn [truthy_id].
    + destruct (truthy_string id).
      * unfold editarItinerario.
        destruct (findIndex _ _) as [index|]; [| left; cbn [snd]; now rewrite Hst, Hls].
        destruct (itinerarios (state w') !! index) as [actual|];
          [| left; cbn [snd]; now rewrite Hst, Hls].
        right. left. cbn [snd]. cbv zeta.
        match goal with
        | |- context [guardarItinerarios ?w1] => exists w1
        end.
        split; [exact Hls |]. split; reflexivity.
      * right. left. apply Hcrear.
    + right. left. apply Hcrear.
  - unfold handleEliminar.
    destruct (eliminandoId (state w)) as [id|]; [| left; split; reflexivity].
    destruct (truthy_string id); [| left; split; reflexivity].
    right. left. unfold eliminarItinerario. cbv zeta.
    match goal with
    | |- context [guardarItinerarios ?w1] => exists w1
    end.
    split; [reflexivity |]. split; reflexivity.
  - right. right. left. exists i, e. reflexivity.
  - right. right. right. exists b, f. reflexivity.
Qed.



(** *** Budgets that JSON keeps *)












(** While the storage refuses reads or writes, no handler changes what
    it holds: a record created, edited or deleted then exists in memory
    only, and the next reload brings back what the storage has. *)
Theorem refused_writes_are_lost (w : World) (ev : event) :
  Utils.blocked (localStorage w) || Utils.full (localStorage w) = true ->
  (forall b f, ev <> StorageMood b f) ->
  localStorage (step w ev) = localStorage w
  /\ forall i e, itinerarios (state (step (step w ev) (Reload i e)))
                 = Utils.getStorage (localStorage w) STORAGE_KEY [].
Proof.
  intros Hrefuse Hev.
  assert (Hg : forall w1, localStorage w1 = localStorage w ->
                          localStorage (guardarItinerarios w1) = localStorage w).
  { intros w1 H1. unfold guardarItinerarios. rewrite setStorage_cases.
    cbn [Utils.JSON_stringify Utils.stringify_records]. rewrite H1, Hrefuse.
    cbn [set_localStorage localStorage]. reflexivity. }
  assert (Hls : localStorage (step w ev) = localStorage w).
  { destruct (step_writes w ev) as [[_ Hls] | [[w1 [Hls1 [_ Hls]]] | [[i [e ->]] | [b [f ->]]]]].
    - exact Hls.
    - rewrite Hls. now apply Hg.
    - reflexivity.
    - now destruct (Hev b f). }
  split; [exact Hls |].
  intros i e. cbn [step]. unfold init, cargarItinerarios.
  cbn [set_itinerarios set_state state itinerarios localStorage]. now rewrite Hls.
Qed.

End SyncFacts.

(** ** The counters and the helpers of the cards *)

Section ViewFacts.
Import Js Itinerarios ItinerariosView.

Lemma count_disjoint {A : Type} (p q r : A -> bool) (l : list A) :
  (forall x, p x = true -> q x = false /\ r x = false) ->
  (forall x, q x = true -> r x = false) ->
  (List.length (List.filter p l) + List.length (List.filter q l)
   + List.length (List.filter r l) <= List.length l)%nat
  /\ ((List.length (List.filter p l) + List.length (List.filter q l)
       + List.length (List.filter r l) = List.length l)%nat
      <-> forall x, In x l -> p x || q x || r x = true).
Proof.
  intros Hp Hq. induction l as [|x l [IHle IHeq]]; cbn [List.filter List.length].
  - split; [lia |]. split; [intros _ x [] | reflexivity].
  - pose proof (Hp x) as Hpx. pose proof (Hq x) as Hqx.
    assert (Hall : (forall y, In y (x :: l) -> p y || q y || r y = true)
                   <-> p x || q x || r x = true
                       /\ forall y, In y l -> p y || q y || r y = true).
    { split.
      - intros H. split; [apply H; now left | intros y Hy; apply H; now right].
      - intros [Hx Hl] y [<- | Hy]; [exact Hx | now apply Hl]. }
    rewrite Hall, <- IHeq. clear Hall IHeq.
    destruct (p x).
    + destruct Hpx as [-> ->]; [reflexivity |]. cbn [List.length orb]. split; [lia |].
      split; [intros H; split; [reflexivity | lia] | intros [_ H]; lia].
    + destruct (q x).
      * rewrite Hqx by reflexivity. cbn [List.length orb]. split; [lia |].
        split; [intros H; split; [reflexivity | lia] | intros [_ H]; lia].
      * destruct (r x); cbn [List.length orb]; (split; [lia |]).
        -- split; [intros H; split; [reflexivity | lia] | intros [_ H]; lia].
        -- split; [intros H; lia | intros [H _]; discriminate].
Qed.

(** The counters under the cards: the total is the size of the
    collection; the counter of each status is the number of cards the
    page lists under that status filter with an empty search; the three
    status counters never add up to more than the total, and add up to
    it exactly when every record has one of the three statuses. *)
Theorem renderStats_counts (w : World) :
  stat_total (renderStats w) = List.length (itinerarios (state w))
  /\ (exists lista,
        fst (getItinerariosFiltrados (set_busqueda "" (set_filtroActual "planificando" w)))
        = Ok lista /\ stat_planificando (renderStats w) = List.length lista)
  /\ (exists lista,
        fst (getItinerariosFiltrados (set_busqueda "" (set_filtroActual "confirmado" w)))
        = Ok lista /\ stat_confirmado (renderStats w) = List.length lista)
  /\ (exists lista,
        fst (getItinerariosFiltrados (set_busqueda "" (set_filtroActual "completado" w)))
        = Ok lista /\ stat_completado (renderStats w) = List.length lista)
  /\ (exists lista,
        fst (getItinerariosFiltrados (set_busqueda "" (set_filtroActual "todos" w)))
        = Ok lista /\ stat_total (renderStats w) = List.length lista)
  /\ (stat_planificando (renderStats w) + stat_confirmado (renderStats w)
      + stat_completado (renderStats w) <= stat_total (renderStats w))%nat
  /\ ((stat_planificando (renderStats w) + stat_confirmado (renderStats w)
       + stat_completado (renderStats w) = stat_total (renderStats w))%nat
      <-> forall it, In it (itinerarios (state w)) ->
            get it "estado" = VStr "planificando"
            \/ get it "estado" = VStr "confirmado"
            \/ get it "estado" = VStr "completado").
Proof.
  split; [reflexivity |].
  split; [eexists; split; reflexivity |].
  split; [eexists; split; reflexivity |].
  split; [eexists; split; reflexivity |].
  split; [eexists; split; reflexivity |].
  unfold renderStats.
  cbn [stat_total stat_planificando stat_confirmado stat_completado].
  destruct (count_disjoint
              (fun it => strict_eq_str (get it "estado") "planificando")
              (fun it => strict_eq_str (get it "estado") "confirmado")
              (fun it => strict_eq_str (get it "estado") "completado")
              (itinerarios (state w))) as [Hle Heq].
  { intros it H. apply strict_eq_str_true in H.
    split; apply strict_eq_str_false; rewrite H; discriminate. }
  { intros it H. apply strict_eq_str_true in H.
    apply strict_eq_str_false. rewrite H. discriminate. }
  split; [exact Hle |].
  rewrite Heq. clear Hle Heq.
  split; intros H it Hit; specialize (H it Hit).
  - rewrite !orb_true_iff, !strict_eq_str_true in H. tauto.
  - rewrite !orb_true_iff, !strict_eq_str_true. tauto.
Qed.

(** For two date-only strings in either order [calcularDias] is the
    number of calendar days from the first to the second, both ends
    counted, and never less than one: a range that ends on or before
    its first day counts as one day. *)
Theorem calcularDias_either_order (inicio fin : string) (a b : Z) :
  dayNumber inicio = Some a -> dayNumber fin = Some b ->
  calcularDias inicio fin = Some (Z.max 1 (b - a + 1))
  /\ (b <= a -> calcularDias inicio fin = Some 1)
  /\ (a <= b -> calcularDias inicio fin = Some (b - a + 1))
  /\ exists n, calcularDias inicio fin = Some n /\ 1 <= n.
Proof.
  intros Ha Hb.
  assert (H : calcularDias inicio fin = Some (Z.max 1 (b - a + 1))).
  { unfold calcularDias, Date_parse. unfold dayNumber in Ha, Hb.
    destruct (parseISODate inicio) as [[[y m] d]|]; [| discriminate].
    destruct (parseISODate fin) as [[[y' m'] d']|]; [| discriminate].
    injection Ha as <-. injection Hb as <-. cbv zeta.
    rewrite <- Z.mul_sub_distr_r, Qceiling_days. reflexivity. }
  split; [exact H |].
  split; [intros Hle; rewrite H; f_equal; lia |].
  split; [intros Hle; rewrite H; f_equal; lia |].
  exists (Z.max 1 (b - a + 1)). split; [exact H | lia].
Qed.

End ViewFacts.

(** ** The search form of the home page *)

Section SearchFacts.
Import Js MainPage.

(** The string is empty or starts with a character that is not white
    space. *)
Definition starts_clean (s : string) : Prop :=
  match s with
  | EmptyString => True
  | String c _ => isWhiteSpace c = false
  end.

Lemma trimStart_clean (s : string) : starts_clean (trimStart s).
Proof.
  induction s as [|c s IH]; cbn [trimStart]; [exact I |].
  destruct (isWhiteSpace c) eqn:Hc; [exact IH | exact Hc].
Qed.

Lemma trimStart_fix (s : string) : starts_clean s -> trimStart s = s.
Proof. destruct s as [|c s]; cbn [starts_clean trimStart]; [reflexivity | now intros ->]. Qed.

Lemma trimEnd_clean (s : string) : starts_clean s -> starts_clean (trimEnd s).
Proof.
  destruct s as [|c s]; cbn [starts_clean trimEnd]; [trivial |].
  intros Hc. rewrite Hc. now destruct (trimEnd s).
Qed.

Lemma trimEnd_idem (s : string) : trimEnd (trimEnd s) = trimEnd s.
Proof.
  induction s as [|c s IH]; cbn [trimEnd]; [reflexivity |].
  destruct (trimEnd s) as [|d t] eqn:Ht.
  - destruct (isWhiteSpace c) eqn:Hc; cbn [trimEnd]; [reflexivity | now rewrite Hc].
  - change (trimEnd (String c (String d t))) with
      (match trimEnd (String d t) with
       | EmptyString => if isWhiteSpace c then EmptyString else String c EmptyString
       | u => String c u
       end).
    now rewrite IH.
Qed.

(** Trimming a trimmed text changes nothing. *)
Lemma trim_idem (s : string) : trim (trim s) = trim s.
Proof.
  unfold trim.
  rewrite (trimStart_fix (trimEnd (trimStart s))).
  - apply trimEnd_idem.
  - apply trimEnd_clean, trimStart_clean.
Qed.

Lemma toLowerCase_length (s : string) : String.length (toLowerCase s) = String.length s.
Proof. induction s as [|c s IH]; cbn [toLowerCase String.length]; congruence. Qed.

Lemma validateSearch_accepts (query : string) :
  (fst (validateSearch query) = true ->
   trim query <> "" /\ (2 <= String.length query <= 100)%nat)
  /\ (snd (validateSearch query) = None -> fst (validateSearch query) = true).
Proof.
  unfold validateSearch, Config.MIN_LENGTH, Config.MAX_LENGTH.
  destruct (negb (truthy_string query)); cbn [orb fst snd];
    [split; discriminate |].
  destruct (String.eqb_spec (trim query) "") as [Ht | Ht]; cbn [fst snd];
    [split; discriminate |].
  destruct (Z.ltb_spec (Z.of_nat (String.length query)) 2) as [Hs | Hs]; cbn [fst snd];
    [split; discriminate |].
  destruct (Z.ltb_spec 100 (Z.of_nat (String.length query))) as [Hl | Hl]; cbn [fst snd];
    [split; discriminate |].
  split; [intros _; split; [exact Ht | lia] | reflexivity].
Qed.

(** [validateSearch] accepts a query exactly when it is not blank and
    has between 2 and 100 characters, counted on the query as given;
    a blank query is reported as empty whatever its length, then a
    short one, then a long one; and the earlier version of the function
    gives the same verdicts. *)
Theorem validateSearch_verdicts (query : string) :
  (fst (validateSearch query) = true
   <-> trim query <> "" /\ (2 <= String.length query <= 100)%nat)
  /\ (snd (validateSearch query) = None <-> fst (validateSearch query) = true)
  /\ (snd (validateSearch query) = Some SEARCH_EMPTY <-> trim query = "")
  /\ (snd (validateSearch query) = Some SEARCH_TOO_SHORT
      <-> trim query <> "" /\ (String.length query < 2)%nat)
  /\ (snd (validateSearch query) = Some SEARCH_TOO_LONG
      <-> trim query <> "" /\ (100 < String.length query)%nat)
  /\ snd (validateSearch query) <> Some GENERIC
  /\ MainInlinePage.validateSearch query = validateSearch query.
Proof.
  assert (Hblank : negb (truthy_string query) || String.eqb (trim query) ""
                   = String.eqb (trim query) "").
  { destruct query; reflexivity. }
  unfold MainInlinePage.validateSearch, validateSearch.
  rewrite Hblank. unfold Config.MIN_LENGTH, Config.MAX_LENGTH.
  destruct (String.eqb_spec (trim query) "") as [Ht | Ht];
    [cbn [fst snd]; repeat split; try tauto; try congruence; try discriminate;
     try (intros [H _]; congruence) |].
  destruct (Z.ltb_spec (Z.of_nat (String.length query)) 2) as [Hs | Hs];
    [cbn [fst snd]; repeat split; try tauto; try congruence; try discriminate;
     try lia; try (intros [_ H]; lia) |].
  destruct (Z.ltb_spec 100 (Z.of_nat (String.length query))) as [Hl | Hl];
    cbn [fst snd]; repeat split; try tauto; try congruence; try discriminate;
    try lia; try (intros [_ H]; lia).
Qed.

(** What [saveSearchToHistory] leaves in the history and in the storage
    depends on the storage it finds, not on the rest of the state. *)
Lemma saveSearchToHistory_storage_only (query : string) (t : Z) (w1 w2 : Main.World) :
  Main.localStorage w1 = Main.localStorage w2 ->
  Main.searchHistory (Main.appState (Main.saveSearchToHistory query t w1))
  = Main.searchHistory (Main.appState (Main.saveSearchToHistory query t w2))
  /\ Main.localStorage (Main.saveSearchToHistory query t w1)
     = Main.localStorage (Main.saveSearchToHistory query t w2).
Proof.
  intros H. unfold Main.saveSearchToHistory. rewrite H.
  destruct (Utils.setStorage _ _ _) as [ok ls]. split; reflexivity.
Qed.

Lemma saveSearchToHistory_first (query : string) (t : Z) (w : Main.World) :
  Main.searchHistory (Main.appState (Main.saveSearchToHistory query t w)) !! 0%nat
  = Some (Main.entry (toLowerCase (trim query)) t).
Proof.
  unfold Main.saveSearchToHistory.
  destruct (Utils.setStorage _ _ _) as [ok ls]. reflexivity.
Qed.

(** The page between two loads: nothing is being searched, or the one
    accepted query is. *)
Definition searched_once (p0 p : Page) : Prop :=
  match redirecting p with
  | None =>
      Main.isSearching (Main.appState (world p)) = false
      /\ buttonDisabled p = buttonDisabled p0
      /\ Main.searchHistory (Main.appState (world p))
         = Main.searchHistory (Main.appState (world p0))
      /\ Main.localStorage (world p) = Main.localStorage (world p0)
  | Some q =>
      Main.isSearching (Main.appState (world p)) = true
      /\ buttonDisabled p = true
      /\ trim q = q
      /\ (2 <= String.length q <= 100)%nat
      /\ exists t,
           Main.searchHistory (Main.appState (world p))
           = Main.searchHistory (Main.appState (Main.saveSearchToHistory q t (world p0)))
           /\ Main.localStorage (world p)
              = Main.localStorage (Main.saveSearchToHistory q t (world p0))
           /\ Main.searchHistory (Main.appState (world p)) !! 0%nat
              = Some (Main.entry (toLowerCase q) t)
  end.

Lemma step_searched_once (p0 p : Page) (ev : event) :
  searched_once p0 p -> searched_once p0 (step p ev).
Proof.
  intros Hinv. destruct ev as [text | t |]; cbn [step].
  - exact Hinv.
  - unfold handleSearchSubmit.
    destruct (Main.isSearching (Main.appState (world p))) eqn:Hs; [exact Hinv |].
    unfold searched_once in Hinv.
    destruct (redirecting p) as [q|] eqn:Hr; [destruct Hinv as [H _]; congruence |].
    destruct Hinv as [_ [Hb [Hh Hl]]].
    set (query := trim (searchInput (hideSearchError p))).
    destruct (validateSearch_accepts query) as [Hvalid _].
    destruct (validateSearch query) as [valid error]. cbn [fst snd] in *.
    destruct valid; cbn [negb].
    + destruct (Hvalid eq_refl) as [_ Hlen].
      unfold searched_once, redirectToResults.
      cbn [redirecting set_appState set_world world buttonDisabled hideSearchError
           Main.appState Main.isSearching Main.searchHistory Main.localStorage].
      split; [reflexivity |]. split; [reflexivity |].
      split; [apply trim_idem |]. split; [exact Hlen |].
      exists t.
      match goal with
      | |- context [Main.saveSearchToHistory query t ?w1] =>
          destruct (saveSearchToHistory_storage_only query t w1 (world p0)) as [Hsh Hls];
            [exact Hl |];
          pose proof (saveSearchToHistory_first query t w1) as Hfirst
      end.
      split; [exact Hsh |]. split; [exact Hls |].
      rewrite Hfirst. unfold query. now rewrite trim_idem.
    + unfold searched_once.
      destruct error as [m|];
        cbn [redirecting showSearchError set_appState set_world world buttonDisabled
             hideSearchError Main.appState Main.isSearching Main.searchHistory
             Main.localStorage];
        rewrite Hr; repeat split; assumption.
  - exact Hinv.
Qed.

(** Between two loads of the home page at most one search is saved and
    sent.  As long as no query was accepted, the history and the storage
    are as the page found them.  Once a query is accepted it is the
    trimmed text of the input with 2 to 100 characters; it was saved
    once, on top of what the storage held at the load, with its
    lower-case form first in the history; the button is disabled, and no
    later submit saves or sends anything. *)
Theorem home_page_searches_once (ls : Utils.localStorage (list object))
  (evs : list event) :
  searched_once (loaded ls) (run (loaded ls) evs)
  /\ forall q more,
       redirecting (run (loaded ls) evs) = Some q ->
       world (run (run (loaded ls) evs) more) = world (run (loaded ls) evs)
       /\ redirecting (run (run (loaded ls) evs) more) = Some q.
Proof.
  assert (Hrun : forall evs p, searched_once (loaded ls) p ->
                               searched_once (loaded ls) (run p evs)).
  { intros l. induction l as [|ev l IH]; intros p Hp; cbn [run fold_left]; [exact Hp |].
    apply IH. now apply step_searched_once. }
  assert (H0 : searched_once (loaded ls) (loaded ls)).
  { unfold searched_once. cbn [redirecting loaded]. repeat split. }
  split; [apply Hrun; exact H0 |].
  intros q more Hq.
  pose proof (Hrun evs _ H0) as Hinv.
  generalize dependent (run (loaded ls) evs). intros p Hq Hinv.
  unfold searched_once in Hinv. rewrite Hq in Hinv. destruct Hinv as [Hs _].
  clear Hrun H0. revert p Hq Hs.
  induction more as [|ev more IH]; intros p Hq Hs; cbn [run fold_left];
    [split; [reflexivity | exact Hq] |].
  assert (Hstep : world (step p ev) = world p /\ redirecting (step p ev) = Some q).
  { destruct ev as [text | t |]; cbn [step].
    - split; [reflexivity | exact Hq].
    - unfold handleSearchSubmit. rewrite Hs. split; [reflexivity | exact Hq].
    - split; [reflexivity | exact Hq]. }
  destruct Hstep as [Hw Hr].
  destruct (IH (step p ev) Hr) as [Hw' Hr']; [now rewrite Hw |].
  split; [now rewrite <- Hw | exact Hr'].
Qed.

Lemma json_safe_history (q : string) (t : Z) (f : object -> bool) (n : nat)
  (h : list object) :
  Forall json_safe h -> Forall json_safe (take n (Main.entry q t :: List.filter f h)).
Proof.
  intros Hh. apply Forall_take. constructor.
  - exact (json_safe_entry q t).
  - now apply Forall_filter_bool.
Qed.

(** What [saveSearchToHistory] does, with the storage written out. *)
Lemma saveSearchToHistory_eq (query : string) (t : Z) (w : Main.World) :
  Main.saveSearchToHistory query t w
  = let h := take Main.MAX_ITEMS
               (Main.entry (toLowerCase (trim query)) t
                :: List.filter
                     (fun item => negb (strict_eq_str (get item "query")
                                                      (toLowerCase (trim query))))
                     (Utils.getStorage (Main.localStorage w) Main.SEARCH_HISTORY [])) in
    {| Main.appState := {| Main.searchHistory := h;
                           Main.isSearching := Main.isSearching (Main.appState w);
                           Main.currentQuery := Main.currentQuery (Main.appState w) |};
       Main.localStorage :=
         if Utils.blocked (Main.localStorage w) || Utils.full (Main.localStorage w)
         then Main.localStorage w
         else {| Utils.items := <[Main.SEARCH_HISTORY := Utils.Json (List.map json_object h)]>
                                  (Utils.items (Main.localStorage w));
                 Utils.blocked := Utils.blocked (Main.localStorage w);
                 Utils.full := Utils.full (Main.localStorage w) |} |}.
Proof.
  unfold Main.saveSearchToHistory, Utils.setStorage, Utils.setItem.
  cbn [Utils.JSON_stringify Utils.stringify_records bind].
  destruct (Utils.blocked (Main.localStorage w)); [reflexivity |].
  destruct (Utils.full (Main.localStorage w)); reflexivity.
Qed.

(** After [saveSearchToHistory] the history in memory starts with the
    new entry and has at most ten entries.  When the storage accepted
    the write, the storage holds that history as JSON keeps it (a
    property that is an infinity as [null], no property that is
    [undefined]) and [loadSearchHistory] reads that back; it is the
    history in memory itself, and a load changes nothing, when JSON
    keeps the entries found in the storage as they are.  When the
    storage refused, it is as before and a load brings back what it
    held. *)
Theorem save_then_load (query : string) (t : Z) (w : Main.World) :
  Main.searchHistory (Main.appState (Main.saveSearchToHistory query t w)) !! 0%nat
  = Some (Main.entry (toLowerCase (trim query)) t)
  /\ (List.length (Main.searchHistory (Main.appState (Main.saveSearchToHistory query t w)))
      <= 10)%nat
  /\ (Utils.blocked (Main.localStorage w) = false ->
      Utils.full (Main.localStorage w) = false ->
      Main.persisted (Main.saveSearchToHistory query t w)
      = Some (List.map json_object
                (Main.searchHistory (Main.appState (Main.saveSearchToHistory query t w))))
      /\ Main.searchHistory
           (Main.appState (loadSearchHistory (Main.saveSearchToHistory query t w)))
         = List.map json_object
             (Main.searchHistory (Main.appState (Main.saveSearchToHistory query t w)))
      /\ (Forall json_safe
            (Utils.getStorage (Main.localStorage w) Main.SEARCH_HISTORY []) ->
          Main.persisted (Main.saveSearchToHistory query t w)
          = Some (Main.searchHistory (Main.appState (Main.saveSearchToHistory query t w)))
          /\ loadSearchHistory (Main.saveSearchToHistory query t w)
             = Main.saveSearchToHistory query t w))
  /\ (Utils.blocked (Main.localStorage w) || Utils.full (Main.localStorage w) = true ->
      Main.localStorage (Main.saveSearchToHistory query t w) = Main.localStorage w
      /\ Main.searchHistory
           (Main.appState (loadSearchHistory (Main.saveSearchToHistory query t w)))
         = Utils.getStorage (Main.localStorage w) Main.SEARCH_HISTORY []).
Proof.
  split; [apply saveSearchToHistory_first |].
  rewrite saveSearchToHistory_eq. cbv zeta.
  cbn [Main.appState Main.searchHistory Main.localStorage].
  split; [rewrite length_take; unfold Main.MAX_ITEMS; lia |].
  split.
  - intros Hb Hf. rewrite Hb, Hf. cbn [orb].
    unfold Main.persisted, loadSearchHistory, Utils.getStorage, Utils.getItem.
    cbn [Main.localStorage Main.appState Main.searchHistory Main.isSearching
         Main.currentQuery Utils.items Utils.blocked].
    rewrite lookup_insert_eq.
    cbn [bind Utils.truthy_item Utils.JSON_parse try_catch].
    split; [reflexivity |]. split; [reflexivity |].
    intros Hsafe.
    rewrite json_safe_array by now apply json_safe_history.
    split; reflexivity.
  - intros Hr. rewrite Hr. split; reflexivity.
Qed.

(** A storage that holds one search with a property [1e999], which
    [JSON.parse] reads as an infinity. *)
Definition historia_con_infinito : Main.World :=
  {| Main.appState := Main.appState0;
     Main.localStorage :=
       {| Utils.items :=
            {[ Main.SEARCH_HISTORY :=
                 Utils.Json [ <["query" := VStr "roma"]>
                                (<["peso" := VNum (Infinity false)]> ∅) ] ]};
          Utils.blocked := false; Utils.full := false |} |}.

(** After a save over that storage the history in memory has the
    infinity and the stored one has [null] in its place. *)
Lemma saved_history_without_infinity :
  map (fun item => get item "peso")
      (Main.searchHistory
         (Main.appState
            (Main.saveSearchToHistory "Lisboa" 1772323200000 historia_con_infinito)))
  = [VUndefined; VNum (Infinity false)]
  /\ option_map (map (fun item => get item "peso"))
        (Main.persisted
           (Main.saveSearchToHistory "Lisboa" 1772323200000 historia_con_infinito))
     = Some [VUndefined; VNull].
Proof. split; vm_compute; reflexivity. Qed.

(** [getRecentSearches(limit)] is a prefix of the history: its first
    [limit] entries, all of them when there are fewer; a negative limit
    leaves out that many entries from the end. *)
Theorem getRecentSearches_prefix (limit : Z) (w : Main.World) :
  getRecentSearches limit w `prefix_of` Main.searchHistory (Main.appState w)
  /\ (0 <= limit ->
      List.length (getRecentSearches limit w)
      = Nat.min (Z.to_nat limit) (List.length (Main.searchHistory (Main.appState w))))
  /\ (limit < 0 ->
      List.length (getRecentSearches limit w)
      = (List.length (Main.searchHistory (Main.appState w)) - Z.to_nat (- limit))%nat)
  /\ (forall query t, 1 <= limit ->
      getRecentSearches limit (Main.saveSearchToHistory query t w) !! 0%nat
      = Some (Main.entry (toLowerCase (trim query)) t)).
Proof.
  unfold getRecentSearches, slice0.
  split.
  { destruct (limit <? 0); apply prefix_take. }
  split.
  { intros H. destruct (Z.ltb_spec limit 0); [lia |]. apply length_take. }
  split.
  { intros H. destruct (Z.ltb_spec limit 0); [| lia]. rewrite length_take. lia. }
  intros query t H. destruct (Z.ltb_spec limit 0); [lia |].
  rewrite lookup_take_lt by lia. apply saveSearchToHistory_first.
Qed.

(** One submit of the search form.  While a search is on its way the
    submit does nothing.  Otherwise, with a text that [validateSearch]
    accepts once trimmed, the search is saved and sent whether or not
    the storage takes the write; with any other text the matching
    message is shown, nothing is saved and nothing is sent. *)
Theorem handleSearchSubmit_outcome (t : Z) (p : Page) :
  (Main.isSearching (Main.appState (world p)) = true -> handleSearchSubmit t p = p)
  /\ (Main.isSearching (Main.appState (world p)) = false ->
      fst (validateSearch (trim (searchInput p))) = true ->
      redirecting (handleSearchSubmit t p) = Some (trim (searchInput p))
      /\ buttonDisabled (handleSearchSubmit t p) = true
      /\ errorShown (handleSearchSubmit t p) = false
      /\ Main.isSearching (Main.appState (world (handleSearchSubmit t p))) = true
      /\ Main.currentQuery (Main.appState (world (handleSearchSubmit t p)))
         = trim (searchInput p)
      /\ Main.searchHistory (Main.appState (world (handleSearchSubmit t p))) !! 0%nat
         = Some (Main.entry (toLowerCase (trim (searchInput p))) t))
  /\ (Main.isSearching (Main.appState (world p)) = false ->
      fst (validateSearch (trim (searchInput p))) = false ->
      redirecting (handleSearchSubmit t p) = redirecting p
      /\ buttonDisabled (handleSearchSubmit t p) = buttonDisabled p
      /\ errorShown (handleSearchSubmit t p) = true
      /\ errorText (handleSearchSubmit t p) = snd (validateSearch (trim (searchInput p)))
      /\ Main.searchHistory (Main.appState (world (handleSearchSubmit t p)))
         = Main.searchHistory (Main.appState (world p))
      /\ Main.localStorage (world (handleSearchSubmit t p)) = Main.localStorage (world p)).
Proof.
  unfold handleSearchSubmit.
  split; [intros ->; reflexivity |].
  split.
  - intros -> Hv. cbn [hideSearchError searchInput]. rewrite Hv. cbn [negb].
    unfold redirectToResults.
    cbn [redirecting buttonDisabled errorShown set_appState set_world world
         Main.appState Main.isSearching].
    repeat (split; [reflexivity |]).
    split.
    + unfold Main.saveSearchToHistory.
      destruct (Utils.setStorage _ _ _) as [ok ls]. reflexivity.
    + cbn [Main.searchHistory].
      match goal with
      | |- context [Main.saveSearchToHistory ?q t ?w1] =>
          rewrite (saveSearchToHistory_first q t w1)
      end.
      now rewrite trim_idem.
  - intros -> Hv. cbn [hideSearchError searchInput].
    pose proof (proj2 (validateSearch_accepts (trim (searchInput p)))) as Hnone.
    rewrite Hv. cbn [negb].
    destruct (snd (validateSearch (trim (searchInput p)))) as [m|] eqn:Hm.
    + repeat split.
    + rewrite Hv in Hnone. now specialize (Hnone eq_refl).
Qed.

(** The earlier version of the page saves before it sends, and catches
    nothing: with a text it accepts, when the storage refuses the read
    or the write, or holds a history that does not parse, the submit
    ends in that exception and the search is neither saved nor sent;
    otherwise it is saved and sent, and the storage holds the history
    as JSON keeps it, which is the history in memory when JSON keeps the
    entries found in the storage as they are. *)
Theorem earlier_submit_needs_storage (t : Z) (p : MainInlinePage.Page) :
  fst (MainInlinePage.validateSearch (trim (MainInlinePage.searchInput p))) = true ->
  ((Utils.blocked (MainInline.localStorage (MainInlinePage.world p)) = true
    \/ Utils.full (MainInline.localStorage (MainInlinePage.world p)) = true
    \/ (exists raw, Utils.items (MainInline.localStorage (MainInlinePage.world p))
                      !! MainInline.KEY = Some (Utils.Malformed raw))) ->
   exists error,
     fst (MainInlinePage.handleSearchSubmit t p) = Throw error
     /\ MainInlinePage.redirecting (snd (MainInlinePage.handleSearchSubmit t p))
        = MainInlinePage.redirecting p
     /\ MainInlinePage.buttonDisabled (snd (MainInlinePage.handleSearchSubmit t p))
        = MainInlinePage.buttonDisabled p
     /\ MainInlinePage.world (snd (MainInlinePage.handleSearchSubmit t p))
        = MainInlinePage.world p)
  /\ (Utils.blocked (MainInline.localStorage (MainInlinePage.world p)) = false ->
      Utils.full (MainInline.localStorage (MainInlinePage.world p)) = false ->
      (forall raw, Utils.items (MainInline.localStorage (MainInlinePage.world p))
                     !! MainInline.KEY <> Some (Utils.Malformed raw)) ->
      fst (MainInlinePage.handleSearchSubmit t p) = Ok tt
      /\ MainInlinePage.redirecting (snd (MainInlinePage.handleSearchSubmit t p))
         = Some (trim (MainInlinePage.searchInput p))
      /\ MainInlinePage.buttonDisabled (snd (MainInlinePage.handleSearchSubmit t p)) = true
      /\ MainInline.searchHistory
           (MainInline.appState
              (MainInlinePage.world (snd (MainInlinePage.handleSearchSubmit t p)))) !! 0%nat
         = Some (Main.entry (toLowerCase (trim (MainInlinePage.searchInput p))) t)
      /\ MainInline.persisted
           (MainInlinePage.world (snd (MainInlinePage.handleSearchSubmit t p)))
         = Some (List.map json_object
                   (MainInline.searchHistory
                      (MainInline.appState
                         (MainInlinePage.world (snd (MainInlinePage.handleSearchSubmit t p))))))
      /\ ((forall h, Utils.items (MainInline.localStorage (MainInlinePage.world p))
                       !! MainInline.KEY = Some (Utils.Json h) -> Forall json_safe h) ->
          MainInline.persisted
            (MainInlinePage.world (snd (MainInlinePage.handleSearchSubmit t p)))
          = Some (MainInline.searchHistory
                    (MainInline.appState
                       (MainInlinePage.world
                          (snd (MainInlinePage.handleSearchSubmit t p))))))).
Proof.
  intros Hv.
  unfold MainInlinePage.handleSearchSubmit.
  cbn [MainInlinePage.hideSearchError MainInlinePage.searchInput MainInlinePage.world].
  rewrite Hv. cbn [negb].
  unfold MainInline.saveSearchToHistory, MainInline.loadHistory, Utils.getItem,
    Utils.setItem.
  destruct (Utils.blocked (MainInline.localStorage (MainInlinePage.world p))) eqn:Hb.
  { split; [| discriminate].
    intros _. eexists. cbn [bind fst snd]. repeat split. }
  cbn [bind].
  destruct (Utils.items (MainInline.localStorage (MainInlinePage.world p)) !! MainInline.KEY)
    as [[| raw | h]|] eqn:Hitem; cbn [Utils.truthy_item Utils.JSON_parse bind].
  - destruct (Utils.full (MainInline.localStorage (MainInlinePage.world p))) eqn:Hf.
    + split; [| discriminate]. intros _. eexists. cbn [bind fst snd]. repeat split.
    + split; [intros [H | [H | [raw H]]]; discriminate |].
      intros _ _ _. cbn [Utils.JSON_stringify Utils.stringify_records bind fst snd
                         MainInlinePage.redirecting
                         MainInlinePage.buttonDisabled MainInlinePage.world
                         MainInline.appState MainInline.searchHistory].
      rewrite trim_idem. unfold MainInline.persisted.
      cbn [MainInline.localStorage Utils.items]. rewrite lookup_insert_eq.
      repeat (split; [reflexivity |]).
      intros Hsafe. rewrite json_safe_array; [reflexivity |].
      apply json_safe_history; solve [constructor | now apply Hsafe].
  - split; [| intros _ _ H; now destruct (H raw)].
    intros _. eexists. cbn [fst snd]. repeat split.
  - destruct (Utils.full (MainInline.localStorage (MainInlinePage.world p))) eqn:Hf.
    + split; [| discriminate]. intros _. eexists. cbn [bind fst snd]. repeat split.
    + split; [intros [H | [H | [raw H]]]; discriminate |].
      intros _ _ _. cbn [Utils.JSON_stringify Utils.stringify_records bind fst snd
                         MainInlinePage.redirecting
                         MainInlinePage.buttonDisabled MainInlinePage.world
                         MainInline.appState MainInline.searchHistory].
      rewrite trim_idem. unfold MainInline.persisted.
      cbn [MainInline.localStorage Utils.items]. rewrite lookup_insert_eq.
      repeat (split; [reflexivity |]).
      intros Hsafe. rewrite json_safe_array; [reflexivity |].
      apply json_safe_history; solve [constructor | now apply Hsafe].
  - destruct (Utils.full (MainInline.localStorage (MainInlinePage.world p))) eqn:Hf.
    + split; [| discriminate]. intros _. eexists. cbn [bind fst snd]. repeat split.
    + split; [intros [H | [H | [raw H]]]; discriminate |].
      intros _ _ _. cbn [Utils.JSON_stringify Utils.stringify_records bind fst snd
                         MainInlinePage.redirecting
                         MainInlinePage.buttonDisabled MainInlinePage.world
                         MainInline.appState MainInline.searchHistory].
      rewrite trim_idem. unfold MainInline.persisted.
      cbn [MainInline.localStorage Utils.items]. rewrite lookup_insert_eq.
      repeat (split; [reflexivity |]).
      intros Hsafe. rewrite json_safe_array; [reflexivity |].
      apply json_safe_history; solve [constructor | now apply Hsafe].
Qed.

End SearchFacts.

(** ** The properties above on concrete pages *)

Section MoreWitnesses.
Import Js Itinerarios.

(** A page on which the form holds a valid trip and nothing is being
    edited. *)
Definition mundo_nuevo : World :=
  init form_budget_cero sin_errores (fresh_storage false false).


Lemma handleGuardar_creates_witness :
  creates mundo_nuevo = true
  /\ exists nuevo : object,
       itinerarios (state (handleGuardar 1772323200000 1772323200000 mundo_nuevo))
       = nuevo :: itinerarios (state mundo_nuevo)
       /\ nuevo !! "nombre" = Some (VStr "Escapada").
Proof.
  assert (H : creates mundo_nuevo = true) by reflexivity.
  split; [exact H |].
  destruct (handleGuardar_creates 1772323200000 1772323200000 mundo_nuevo H)
    as [nuevo [Hcol [_ [_ [_ [Hn _]]]]]].
  exists nuevo. split; [exact Hcol | exact Hn].
Defined.



(** A page whose storage takes no write. *)
Definition mundo_lleno : World :=
  init form_budget_cero sin_errores (fresh_storage false true).

Lemma refused_writes_are_lost_witness :
  Utils.blocked (localStorage mundo_lleno) || Utils.full (localStorage mundo_lleno) = true
  /\ List.length
       (itinerarios (state (step mundo_lleno (ClickGuardar 1772323200000 1772323200000))))
     = 1%nat
  /\ itinerarios
       (state (step (step mundo_lleno (ClickGuardar 1772323200000 1772323200000))
                    (Reload form_budget_cero sin_errores)))
     = [].
Proof.
  assert (Hr : Utils.blocked (localStorage mundo_lleno)
               || Utils.full (localStorage mundo_lleno) = true) by reflexivity.
  assert (Hev : forall b f, ClickGuardar 1772323200000 1772323200000 <> StorageMood b f)
    by discriminate.
  split; [exact Hr |]. split; [reflexivity |].
  exact (proj2 (refused_writes_are_lost mundo_lleno
                  (ClickGuardar 1772323200000 1772323200000) Hr Hev)
               form_budget_cero sin_errores).
Defined.

Lemma calcularDias_either_order_witness :
  dayNumber "2026-03-03" = Some 20515 /\ dayNumber "2026-03-01" = Some 20513
  /\ calcularDias "2026-03-03" "2026-03-01" = Some 1.
Proof.
  assert (Ha : dayNumber "2026-03-03" = Some 20515) by (vm_compute; reflexivity).
  assert (Hb : dayNumber "2026-03-01" = Some 20513) by (vm_compute; reflexivity).
  split; [exact Ha |]. split; [exact Hb |].
  destruct (calcularDias_either_order _ _ _ _ Ha Hb) as [_ [H _]].
  apply H. lia.
Defined.

(** The earlier page with "lisboa" typed, over a storage that is full
    and over one that is not. *)
Definition pagina_anterior (full : bool) : MainInlinePage.Page :=
  {| MainInlinePage.world :=
       {| MainInline.appState := MainInline.appState0;
          MainInline.localStorage :=
            {| Utils.items := ∅; Utils.blocked := false; Utils.full := full |} |};
     MainInlinePage.searchInput := " Lisboa ";
     MainInlinePage.errorText := None; MainInlinePage.errorShown := false;
     MainInlinePage.buttonDisabled := false; MainInlinePage.redirecting := None |}.

Lemma earlier_submit_needs_storage_witness :
  fst (MainInlinePage.validateSearch
         (trim (MainInlinePage.searchInput (pagina_anterior true)))) = true
  /\ (exists error,
        fst (MainInlinePage.handleSearchSubmit 1772323200000 (pagina_anterior true))
        = Throw error
        /\ MainInlinePage.redirecting
             (snd (MainInlinePage.handleSearchSubmit 1772323200000 (pagina_anterior true)))
           = None)
  /\ MainInlinePage.redirecting
       (snd (MainInlinePage.handleSearchSubmit 1772323200000 (pagina_anterior false)))
     = Some "Lisboa".
Proof.
  assert (Hv : forall full,
            fst (MainInlinePage.validateSearch
                   (trim (MainInlinePage.searchInput (pagina_anterior full)))) = true)
    by (intros full; reflexivity).
  split; [exact (Hv true) |].
  split.
  - destruct (proj1 (earlier_submit_needs_storage 1772323200000 (pagina_anterior true)
                       (Hv true)))
      as [error [Hthrow [Hred _]]].
    + right. left. reflexivity.
    + exists error. split; [exact Hthrow | exact Hred].
  - destruct (proj2 (earlier_submit_needs_storage 1772323200000 (pagina_anterior false)
                       (Hv false)))
      as [_ [Hred _]].
    + reflexivity.
    + reflexivity.
    + intros raw. discriminate.
    + exact Hred.
Defined.

End MoreWitnesses.
